(** * CouchDBChangesStream: a shallow embedding of src/CouchDBChangesStream.ts

    The class is an async generator that talks to a transport ([fetch]),
    a timer facility and a consumer.  The embedding keeps the control flow
    of [fetchChanges] and makes the three collaborators explicit:

    - the transport is a script: one [Attempt] per call of [fetch], each
      carrying what the call and the reads of the response body resolve to;
    - the consumer is a script of [ConsumerAct]s, one per [yield];
    - every observable action of the generator (a request, a yielded
      record, a timer, a call of [stop()] from outside) is logged as an
      [Event], in order.

    Numbers of the configuration are integers ([Z]) and durations are
    rationals ([Q]).  The backoff delay is computed as the source computes
    it, each operation rounded to binary64 ([round64]); the threshold of
    the watchdog is kept in exact arithmetic.  A change record is what
    [JSON.parse] delivered: its [seq] may be absent.  The [Authorization]
    header derived from the userinfo of [dbUrl] is not part of the
    embedding. *)

From Stdlib Require Import List ZArith QArith Qminmax String Ascii Bool Lia.
From Stdlib Require Import DecimalString.
Import ListNotations.

#[local] Set Warnings "-register-all".

Local Open Scope Z_scope.

(** ** Data model *)

(** [seq: string | number] *)
Inductive Seq :=
| SeqNum (n : Z)
| SeqStr (s : string).

Inductive Json :=
| JNull
| JBool (b : bool)
| JNum (n : Z)
| JStr (s : string)
| JArr (items : list Json)
| JObj (fields : list (string * Json)).

(** [CouchDBChange<T>], as [JSON.parse] delivers it: [seq] is what
    [change.seq] evaluates to, [None] for a value without that member
    ([undefined]). *)
Record CouchDBChange := mkChange {
  seq : option Seq;
  id : string;
  changes : list string;
  deleted : option bool;
  doc : option Json
}.

Inductive Feed := normal | longpoll | continuous | eventsource.

Inductive Style := main_only | all_docs.

(** [heartbeat?: boolean | number] *)
Inductive Heartbeat :=
| HbBool (b : bool)
| HbNum (n : Z).

(** One defined property of the options object.  [CouchDBChangesOptions]
    is a JS object: its entries are kept in insertion order, which is the
    order [Object.entries] visits them in.  A property that is absent or
    explicitly [undefined] has no entry.  [abortController] and [fetch]
    are taken out of the options by the constructor. *)
Inductive OptionEntry :=
| opt_since (v : Seq)
| opt_filter (s : string)
| opt_doc_ids (ids : list string)
| opt_selector (sel : list (string * Json))
| opt_conflicts (b : bool)
| opt_descending (b : bool)
| opt_heartbeat (h : Heartbeat)
| opt_include_docs (b : bool)
| opt_attachments (b : bool)
| opt_att_encoding_info (b : bool)
| opt_limit (n : Z)
| opt_style (s : Style)
| opt_timeout (n : Z)
| opt_seq_interval (n : Z)
| opt_feed (f : Feed)
| opt_live (b : bool).

Definition CouchDBChangesOptions := list OptionEntry.

(** *** Property access: [this.options.<key>] *)

Fixpoint get_feed (o : CouchDBChangesOptions) : option Feed :=
  match o with
  | [] => None
  | opt_feed f :: _ => Some f
  | _ :: o' => get_feed o'
  end.

Fixpoint get_heartbeat (o : CouchDBChangesOptions) : option Heartbeat :=
  match o with
  | [] => None
  | opt_heartbeat h :: _ => Some h
  | _ :: o' => get_heartbeat o'
  end.

Fixpoint get_doc_ids (o : CouchDBChangesOptions) : option (list string) :=
  match o with
  | [] => None
  | opt_doc_ids l :: _ => Some l
  | _ :: o' => get_doc_ids o'
  end.

Fixpoint get_selector (o : CouchDBChangesOptions)
  : option (list (string * Json)) :=
  match o with
  | [] => None
  | opt_selector sel :: _ => Some sel
  | _ :: o' => get_selector o'
  end.

Fixpoint get_live (o : CouchDBChangesOptions) : option bool :=
  match o with
  | [] => None
  | opt_live b :: _ => Some b
  | _ :: o' => get_live o'
  end.


Fixpoint get_limit (o : CouchDBChangesOptions) : option Z :=
  match o with
  | [] => None
  | opt_limit n :: _ => Some n
  | _ :: o' => get_limit o'
  end.

(** *** [value.toString()] *)

Definition string_of_Z (n : Z) : string := NilZero.string_of_int (Z.to_int n).

Definition string_of_bool (b : bool) : string :=
  if b then "true"%string else "false"%string.

Definition Seq_toString (v : Seq) : string :=
  match v with
  | SeqNum n => string_of_Z n
  | SeqStr s => s
  end.

Definition Feed_toString (f : Feed) : string :=
  match f with
  | normal => "normal"
  | longpoll => "longpoll"
  | continuous => "continuous"
  | eventsource => "eventsource"
  end%string.

Definition Style_toString (s : Style) : string :=
  match s with
  | main_only => "main_only"
  | all_docs => "all_docs"
  end%string.

Definition Heartbeat_toString (h : Heartbeat) : string :=
  match h with
  | HbBool b => string_of_bool b
  | HbNum n => string_of_Z n
  end.

(** ** Request builder *)

Definition SearchParams := list (string * string).

(** [url.searchParams.append(key, value)] *)
Definition params_append (p : SearchParams) (k v : string) : SearchParams :=
  p ++ [(k, v)].

Definition params_get (p : SearchParams) (k : string) : option string :=
  match find (fun kv => String.eqb (fst kv) k) p with
  | Some kv => Some (snd kv)
  | None => None
  end.

Definition params_remove (p : SearchParams) (k : string) : SearchParams :=
  filter (fun kv => negb (String.eqb (fst kv) k)) p.

(** [url.searchParams.set(key, value)]: the first pair named [key] takes the
    value and the other pairs of that name go; without one the pair is
    appended. *)
Fixpoint params_set (p : SearchParams) (k v : string) : SearchParams :=
  match p with
  | [] => [(k, v)]
  | kv :: p' =>
      if String.eqb (fst kv) k then (k, v) :: params_remove p' k
      else kv :: params_set p' k v
  end.

(** The body of the [forEach] callback of [buildUrl], for one entry:
    [doc_ids], [selector] and [live] are never serialised, and a value
    that is the empty string is skipped. *)
Definition entry_param (e : OptionEntry) : option (string * string) :=
  match e with
  | opt_since v =>
      match v with
      | SeqStr EmptyString => None
      | _ => Some ("since", Seq_toString v)
      end
  | opt_filter s =>
      match s with
      | EmptyString => None
      | _ => Some ("filter", s)
      end
  | opt_doc_ids _ => None
  | opt_selector _ => None
  | opt_conflicts b => Some ("conflicts", string_of_bool b)
  | opt_descending b => Some ("descending", string_of_bool b)
  | opt_heartbeat h => Some ("heartbeat", Heartbeat_toString h)
  | opt_include_docs b => Some ("include_docs", string_of_bool b)
  | opt_attachments b => Some ("attachments", string_of_bool b)
  | opt_att_encoding_info b => Some ("att_encoding_info", string_of_bool b)
  | opt_limit n => Some ("limit", string_of_Z n)
  | opt_style s => Some ("style", Style_toString s)
  | opt_timeout n => Some ("timeout", string_of_Z n)
  | opt_seq_interval n => Some ("seq_interval", string_of_Z n)
  | opt_feed f => Some ("feed", Feed_toString f)
  | opt_live _ => None
  end%string.

Fixpoint entries_params (o : CouchDBChangesOptions) (p : SearchParams)
  : SearchParams :=
  match o with
  | [] => p
  | e :: o' =>
      match entry_param e with
      | Some (k, v) => entries_params o' (params_append p k v)
      | None => entries_params o' p
      end
  end.

Record URL := mkURL {
  href : string;
  searchParams : SearchParams
}.

Definition buildUrl (dbUrl : string) (options : CouchDBChangesOptions)
  (activeSeq : option Seq) : URL :=
  let url := mkURL (dbUrl ++ "/_changes") (entries_params options []) in
  match activeSeq with
  | Some a => mkURL (href url) (params_set (searchParams url) "since" (Seq_toString a))
  | None => url
  end.

Inductive RequestBody :=
| BodyDocIds (ids : list string)
| BodySelector (sel : list (string * Json)).

Inductive Method := GET | POST.

(** [Array.isArray(doc_ids) && doc_ids.length > 0] *)
Definition hasDocIds (options : CouchDBChangesOptions) : bool :=
  match get_doc_ids options with
  | Some (_ :: _) => true
  | _ => false
  end.

(** [selector && typeof selector === "object"] *)
Definition hasSelector (options : CouchDBChangesOptions) : bool :=
  match get_selector options with
  | Some _ => true
  | None => false
  end.

Definition requestBody (options : CouchDBChangesOptions) : option RequestBody :=
  if hasDocIds options then
    match get_doc_ids options with
    | Some ids => Some (BodyDocIds ids)
    | None => None
    end
  else if hasSelector options then
    match get_selector options with
    | Some sel => Some (BodySelector sel)
    | None => None
    end
  else None.

(** [JSON.stringify] of an object is a non-empty string, hence truthy: the
    body is kept in its structured form. *)
Definition method (body : option RequestBody) : Method :=
  match body with
  | Some _ => POST
  | None => GET
  end.

Record Request := mkRequest {
  req_url : URL;
  req_method : Method;
  req_body : option RequestBody;
  req_content_type : bool   (* [Content-Type: application/json] present *)
}.

Definition buildRequest (dbUrl : string) (options : CouchDBChangesOptions)
  (activeSeq : option Seq) : Request :=
  let url := buildUrl dbUrl options activeSeq in
  let body := requestBody options in
  let m := method body in
  mkRequest url m body (match m with POST => true | GET => false end).

(** ** Feed mode and heartbeat configuration *)

Definition isNormal (o : CouchDBChangesOptions) : bool :=
  match get_feed o with
  | Some normal | None => true
  | _ => false
  end.

Definition isLongpoll (o : CouchDBChangesOptions) : bool :=
  match get_feed o with Some longpoll => true | _ => false end.

Definition isContinuous (o : CouchDBChangesOptions) : bool :=
  match get_feed o with Some continuous => true | _ => false end.

Definition isEventsource (o : CouchDBChangesOptions) : bool :=
  match get_feed o with Some eventsource => true | _ => false end.

(** [this.options.heartbeat !== 0] *)
Definition heartbeat_not_zero (o : CouchDBChangesOptions) : bool :=
  match get_heartbeat o with
  | Some (HbNum 0) => false
  | _ => true
  end.

Definition usesHeartbeat (o : CouchDBChangesOptions) : bool :=
  (isContinuous o || isEventsource o) && heartbeat_not_zero o.

Definition heartbeatInterval (o : CouchDBChangesOptions) : Z :=
  match get_heartbeat o with
  | Some (HbNum n) => n
  | _ => 60000
  end.

Definition timeoutBuffer (o : CouchDBChangesOptions) : Q :=
  Qmax (inject_Z (heartbeatInterval o) * (1 # 10)) (inject_Z 1000).

Definition adjustedTimeout (o : CouchDBChangesOptions) : Q :=
  inject_Z (heartbeatInterval o) + timeoutBuffer o.

(** ** Backoff *)

Definition backoff (retryCount : nat) : Z :=
  Z.min (2 ^ Z.of_nat retryCount * 100) 30000.

(** *** Arithmetic on numbers

    A number is a binary64 value, and the finite ones are rationals.
    [round64 x] is the binary64 value nearest to [x], the one with the
    even significand when two are as near: the result of an operation
    whose exact result is [x].  Significands have 53 bits and the least
    exponent of the last place is -1074.  The finite range is not bounded
    above here: no operation below leaves it. *)

(** The exponent of the power of two at or next below [x], for [x > 0]. *)
Definition floor_log2 (x : Q) : Z :=
  let n := Qnum x in
  let d := Z.pos (Qden x) in
  let k := Z.log2 n - Z.log2 d in
  if (if 0 <=? k then d * 2 ^ k <=? n else d <=? n * 2 ^ (- k))
  then k else k - 1.

(** The integer nearest to [n / d], the even one at a tie, for [d > 0]. *)
Definition nearest_even (n d : Z) : Z :=
  let f := n / d in
  match 2 * (n mod d) ?= d with
  | Lt => f
  | Gt => f + 1
  | Eq => if Z.even f then f else f + 1
  end.

Definition round64_pos (x : Q) : Q :=
  let q := Z.max (floor_log2 x - 52) (-1074) in
  if 0 <=? q
  then inject_Z (nearest_even (Qnum x) (Z.pos (Qden x) * 2 ^ q) * 2 ^ q)
  else Qred (Qmake (nearest_even (Qnum x * 2 ^ (- q)) (Z.pos (Qden x)))
               (Z.to_pos (2 ^ (- q)))).

Definition round64 (x : Q) : Q :=
  match Qnum x with
  | 0 => 0
  | Z.pos _ => round64_pos x
  | Z.neg _ => - round64_pos (- x)
  end.

(** [Math.random() * 100]; [random] is what [Math.random()] returned. *)
Definition jitter (random : Q) : Q := round64 (random * inject_Z 100).

(** [backoff + jitter] *)
Definition delay (retryCount : nat) (random : Q) : Q :=
  round64 (inject_Z (backoff retryCount) + jitter random).

(** [!!this.options.live] *)
Definition live (o : CouchDBChangesOptions) : bool :=
  match get_live o with
  | Some true => true
  | _ => false
  end.

(** ** Text: decoding and line handling *)

(** A byte is a [Z] in [0, 255]; a text is the sequence of code points of a
    JS string. *)
Definition Bytes := list Z.
Definition Text := list Z.

Definition text_of_string (s : string) : Text :=
  map (fun a => Z.of_N (N_of_ascii a)) (list_ascii_of_string s).

(** *** [new TextDecoder()] used with [{ stream: true }]

    The UTF-8 decoder of the Encoding standard, one byte at a time.  The
    state survives from one [decode] call to the next, which is what
    [stream: true] asks for; the end of the input is never signalled. *)
Record TextDecoder := mkDecoder {
  code_point : Z;
  bytes_seen : Z;
  bytes_needed : Z;
  lower_boundary : Z;
  upper_boundary : Z;
  bom_seen : bool
}.

Definition new_TextDecoder : TextDecoder := mkDecoder 0 0 0 128 191 false.

Definition in_range (lo hi b : Z) : bool := (lo <=? b) && (b <=? hi).

(** The decoder on a lead byte ([bytes_needed = 0]): the new state and the
    code point it emits, if any. *)
Definition utf8_lead (bom : bool) (b : Z) : TextDecoder * option Z :=
  if in_range 0 127 b then (mkDecoder 0 0 0 128 191 bom, Some b)
  else if in_range 194 223 b then
    (mkDecoder (Z.land b 31) 0 1 128 191 bom, None)
  else if in_range 224 239 b then
    (mkDecoder (Z.land b 15) 0 2
       (if b =? 224 then 160 else 128) (if b =? 237 then 159 else 191) bom,
     None)
  else if in_range 240 244 b then
    (mkDecoder (Z.land b 7) 0 3
       (if b =? 240 then 144 else 128) (if b =? 244 then 143 else 191) bom,
     None)
  else (mkDecoder 0 0 0 128 191 bom, Some 65533).

(** One byte through the decoder; a byte that breaks a sequence emits
    U+FFFD and is then read again as a lead byte. *)
Definition utf8_byte (d : TextDecoder) (b : Z) : TextDecoder * list Z :=
  if bytes_needed d =? 0 then
    let (d', out) := utf8_lead (bom_seen d) b in
    (d', match out with Some c => [c] | None => [] end)
  else if negb (in_range (lower_boundary d) (upper_boundary d) b) then
    let (d', out) := utf8_lead (bom_seen d) b in
    (d', 65533 :: match out with Some c => [c] | None => [] end)
  else
    let cp := Z.lor (Z.shiftl (code_point d) 6) (Z.land b 63) in
    if bytes_seen d + 1 =? bytes_needed d then
      (mkDecoder 0 0 0 128 191 (bom_seen d), [cp])
    else
      (mkDecoder cp (bytes_seen d + 1) (bytes_needed d) 128 191 (bom_seen d), []).

(** The first code point of the stream is dropped when it is the byte
    order mark (the decoder is built without [ignoreBOM]). *)
Definition strip_bom (d : TextDecoder) (out : list Z) : TextDecoder * list Z :=
  if bom_seen d then (d, out)
  else
    match out with
    | [] => (d, [])
    | c :: out' =>
        let d' := mkDecoder (code_point d) (bytes_seen d) (bytes_needed d)
                    (lower_boundary d) (upper_boundary d) true in
        (d', if c =? 65279 then out' else out)
    end.

Definition decode_byte (d : TextDecoder) (b : Z) : TextDecoder * Text :=
  let (d1, out) := utf8_byte d b in strip_bom d1 out.

(** [decoder.decode(value, { stream: true })] *)
Fixpoint decode (d : TextDecoder) (value : Bytes) : TextDecoder * Text :=
  match value with
  | [] => (d, [])
  | b :: value' =>
      let (d1, t1) := decode_byte d b in
      let (d2, t2) := decode d1 value' in
      (d2, t1 ++ t2)
  end.

(** *** Strings *)

Definition newline : Z := 10.

(** White space and line terminators, the characters [trim] removes. *)
Definition is_space (c : Z) : bool :=
  in_range 9 13 c || (c =? 32) || (c =? 160) || (c =? 5760)
  || in_range 8192 8202 c || (c =? 8232) || (c =? 8233) || (c =? 8239)
  || (c =? 8287) || (c =? 12288) || (c =? 65279).

Fixpoint trimStart (t : Text) : Text :=
  match t with
  | [] => []
  | c :: t' => if is_space c then trimStart t' else t
  end.

Definition trim (t : Text) : Text := rev (trimStart (rev (trimStart t))).

Fixpoint startsWith (t prefix : Text) : bool :=
  match prefix, t with
  | [], _ => true
  | _ :: _, [] => false
  | p :: prefix', c :: t' => (c =? p) && startsWith t' prefix'
  end.

(** [buffer.indexOf("\n", from)], with [-1] for "not found". *)
Fixpoint indexOf_from (t : Text) (from : nat) (pos : Z) : Z :=
  match t with
  | [] => -1
  | c :: t' =>
      match from with
      | O => if c =? newline then pos else indexOf_from t' O (pos + 1)
      | S from' => indexOf_from t' from' (pos + 1)
      end
  end.

Definition indexOf (t : Text) (from : nat) : Z := indexOf_from t from 0.

(** A number used as a condition: every number but [0] is truthy. *)
Definition truthy_number (n : Z) : bool := negb (n =? 0).

(** The lines the inner [while] loop of [fetchChanges] takes off the
    buffer, one per newline, and what is left after the last newline. *)
Fixpoint split_lines (buffer : Text) : list Text * Text :=
  match buffer with
  | [] => ([], [])
  | c :: rest =>
      let (ls, tl) := split_lines rest in
      if c =? newline then ([] :: ls, tl)
      else
        match ls with
        | [] => ([], c :: tl)
        | l :: ls' => ((c :: l) :: ls', tl)
        end
  end.

(** The buffer that holds the lines [ls], each closed by a newline, and
    then [tl]. *)
Fixpoint join_lines (ls : list Text) (tl : Text) : Text :=
  match ls with
  | [] => tl
  | l :: ls' => l ++ newline :: join_lines ls' tl
  end.

(** ** The collaborators *)

Inductive Error :=
| TransportError (message : string)
| HttpStatusError (status : Z) (text : string)
| HeartbeatTimeoutError (ms : Q)
| ParseError (line : Text)
| BodyUnavailableError
| JsonBodyError.

(** What one [reader.read()] settles to.  [Chunk value] is
    [{ value, done: false }], [Done] is [{ value: undefined, done: true }],
    [ReadStall] is a read that never settles. *)
Inductive ReadResult :=
| Chunk (value : Bytes)
| Done
| ReadFail (e : Error)
| ReadStall.

(** [abort_in_read]: the overall signal is aborted from outside while the
    read is pending. *)
Record Read := mkRead {
  abort_in_read : bool;
  read_result : ReadResult
}.

(** The object [response.json()] resolves to. *)
Record ChangesData := mkData {
  results : list CouchDBChange;
  last_seq : option Seq
}.

(** [json = None]: [response.json()] rejects, or [results] cannot be
    iterated.  [body = None]: the response has no readable body.  A reader
    whose script runs out behaves as a read that never settles. *)
Record Response := mkResponse {
  ok : bool;
  status : Z;
  text : string;
  json : option ChangesData;
  body : option (list Read)
}.

Inductive FetchResult :=
| Resolve (response : Response)
| Reject (e : Error)
| FetchStall.

(** One pass through the body of the outer [while] loop, as the outside
    world decides it: what [fetch] settles to, whether the overall signal
    is aborted from outside while [fetch] is pending, and, should the pass
    end in a retry, the value of [Math.random()] and whether the signal is
    aborted from outside during the backoff sleep. *)
Record Attempt := mkAttempt {
  abort_in_fetch : bool;
  fetch_result : FetchResult;
  random : Q;
  abort_in_sleep : bool
}.

(** What the consumer does with the generator once it holds a record:
    pull the next one, call [stop()] and then pull, or leave the loop
    ([return()] on the iterator). *)
Inductive ConsumerAct := Next | StopThenNext | Break.

(** The log.  [EvCursor v] is an assignment [this.activeSeq = v];
    [EvHeartbeat ms] is the watchdog timer armed for [ms] milliseconds;
    [EvTimerSet ms] and [EvTimerFired] are the start and the end of a
    backoff sleep; [EvStop] is [stop()], or the abort of the overall
    signal, coming from outside. *)
Inductive Event :=
| EvRequest (r : Request)
| EvCursor (v : option Seq)
| EvYield (change : CouchDBChange)
| EvStop
| EvHeartbeat (ms : Q)
| EvTimerSet (ms : Q)
| EvTimerFired.

(** The mutable state: [this.abortController.signal.aborted],
    [this.activeSeq], and the consumer's remaining script (a consumer with
    no script left keeps pulling). *)
Record State := mkState {
  aborted : bool;
  activeSeq : option Seq;
  consumer : list ConsumerAct
}.

(** ** The generator monad

    A computation either goes on with a value or ends abruptly: the
    generator returns, throws, is closed by the consumer at a [yield], or
    waits for a promise that never settles. *)
Inductive Abrupt :=
| Return_
| Throw (e : Error)
| Closed
| Hang.

Record Res (A : Type) := mkRes {
  ctl : A + Abrupt;
  st : State;
  evs : list Event
}.
Arguments mkRes {A}.
Arguments ctl {A}.
Arguments st {A}.
Arguments evs {A}.

Definition M (A : Type) := State -> Res A.

Definition ret {A} (a : A) : M A := fun s => mkRes (inl a) s [].

Definition abrupt {A} (b : Abrupt) : M A := fun s => mkRes (inr b) s [].

Definition bind {A B} (m : M A) (f : A -> M B) : M B := fun s =>
  let r := m s in
  match ctl r with
  | inl a => let r' := f a (st r) in mkRes (ctl r') (st r') (evs r ++ evs r')
  | inr b => mkRes (inr b) (st r) (evs r)
  end.

Declare Scope gen_scope.
Delimit Scope gen_scope with gen.
Notation "x <- m ;; f" := (bind m (fun x => f))
  (at level 61, m at next level, right associativity) : gen_scope.
Notation "m ;; f" := (bind m (fun _ => f))
  (at level 61, right associativity) : gen_scope.
Local Open Scope gen_scope.

Definition emit (e : Event) : M unit := fun s => mkRes (inl tt) s [e].

Definition get : M State := fun s => mkRes (inl s) s [].

Definition set_activeSeq (v : option Seq) : M unit := fun s =>
  mkRes (inl tt) (mkState (aborted s) v (consumer s)) [EvCursor v].

(** [this.abortController.abort()] *)
Definition abort (s : State) : State :=
  mkState true (activeSeq s) (consumer s).

(** [stop()] *)
Definition stop (s : State) : State := abort s.

(** [stop()] called from outside while the generator waits. *)
Definition external_stop (happens : bool) : M unit := fun s =>
  if happens then mkRes (inl tt) (stop s) [EvStop] else mkRes (inl tt) s [].

(** [yield change]: the record goes to the consumer, whose next act
    resumes the generator. *)
Definition yield (change : CouchDBChange) : M unit := fun s =>
  match consumer s with
  | [] => mkRes (inl tt) s [EvYield change]
  | Next :: k =>
      mkRes (inl tt) (mkState (aborted s) (activeSeq s) k) [EvYield change]
  | StopThenNext :: k =>
      mkRes (inl tt) (stop (mkState (aborted s) (activeSeq s) k))
        [EvYield change; EvStop]
  | Break :: k =>
      mkRes (inr Closed) (mkState (aborted s) (activeSeq s) k) [EvYield change]
  end.

(** [data.last_seq] used as a condition. *)
Definition truthy_seq (v : option Seq) : bool :=
  match v with
  | None => false
  | Some (SeqNum n) => truthy_number n
  | Some (SeqStr EmptyString) => false
  | Some (SeqStr _) => true
  end.

Definition is_empty (t : Text) : bool :=
  match t with [] => true | _ => false end.

(** *** Views of the log *)

Definition yields (tr : list Event) : list CouchDBChange :=
  flat_map (fun e => match e with EvYield c => [c] | _ => [] end) tr.

Definition requests (tr : list Event) : list Request :=
  flat_map (fun e => match e with EvRequest r => [r] | _ => [] end) tr.

Definition sleeps (tr : list Event) : list Q :=
  flat_map (fun e => match e with EvTimerSet d => [d] | _ => [] end) tr.

Definition is_heartbeat (e : Event) : bool :=
  match e with EvHeartbeat _ => true | _ => false end.

(** The log without the re-arming of the watchdog. *)
Definition without_heartbeat (tr : list Event) : list Event :=
  filter (fun e => negb (is_heartbeat e)) tr.

(** ** [fetchChanges] *)

Section Stream.

(** The constructor's arguments, and [JSON.parse] together with the read
    of [change.seq]: [None] when either throws. *)
Variable dbUrl : string.
Variable options : CouchDBChangesOptions.
Variable JSON_parse : Text -> option CouchDBChange.

(** [resetHeartbeat()]: with the watchdog in use, the timer is re-armed
    for [adjustedTimeout] milliseconds. *)
Definition resetHeartbeat : M unit :=
  if negb (usesHeartbeat options) then ret tt
  else emit (EvHeartbeat (adjustedTimeout options)).

(** A promise raced against [heartbeatPromise] that never settles.  The
    watchdog rejects when it is in use and its timer is still armed.  The
    listener on the overall signal clears the timer once the signal is
    aborted ([clearTimeout(heartbeatTimeout)]), and a wait begun before
    that goes on for ever. *)
Definition stalled {A} : M A := fun s =>
  if usesHeartbeat options && negb (aborted s)
  then abrupt (Throw (HeartbeatTimeoutError (adjustedTimeout options))) s
  else abrupt Hang s.

Definition await_fetch (f : FetchResult) : M Response :=
  match f with
  | Resolve response => ret response
  | Reject e => abrupt (Throw e)
  | FetchStall => stalled
  end.

(** [for (const change of data.results) { this.activeSeq = change.seq;
    yield change; }] *)
Fixpoint yield_results (l : list CouchDBChange) : M unit :=
  match l with
  | [] => ret tt
  | change :: l' =>
      set_activeSeq (seq change) ;; yield change ;; yield_results l'
  end.

(** The branch [if (isNormal || isLongpoll)].  Going on ([inl tt]) is the
    [continue] of the longpoll feed. *)
Definition batch (response : Response) : M unit :=
  match json response with
  | None => abrupt (Throw JsonBodyError)
  | Some data =>
      yield_results (results data) ;;
      (if truthy_seq (last_seq data)
       then set_activeSeq (last_seq data)
       else ret tt) ;;
      s <- get ;;
      if isLongpoll options && negb (aborted s) then ret tt
      else abrupt Return_
  end.

(** The inner [while ((newlineIndex = buffer.indexOf("\n")) >= 0)] loop,
    on the buffer [join_lines lines tail]; it leaves the buffer it ends
    with. *)
Fixpoint lines_loop (done : bool) (lines : list Text) (tail : Text)
  : M Text :=
  match lines with
  | [] => ret tail
  | raw :: lines' => fun s =>
      if aborted s then abrupt Return_ s
      else
        let newlineIndex := List.length raw in
        let line := trim raw in
        let buffer := join_lines lines' tail in
        if isEventsource options && startsWith line (text_of_string "event:")
        then lines_loop done lines' tail s
        else
          let line :=
            if isEventsource options && startsWith line (text_of_string "data:")
            then skipn 5 line else line in
          if is_empty (trim line) then
            if done then abrupt Return_ s else lines_loop done lines' tail s
          else
            match JSON_parse line with
            | Some change =>
                (set_activeSeq (seq change) ;; yield change ;;
                 lines_loop done lines' tail) s
            | None =>
                if negb (aborted s)
                   && truthy_number (indexOf buffer newlineIndex)
                then abrupt (Throw (ParseError line)) s
                else lines_loop done lines' tail s
            end
  end.

(** What follows one settled [reader.read()]: the text is appended to the
    buffer and the complete lines are taken off it. *)
Definition on_read (done : bool) (decoder : TextDecoder) (buffer : Text)
  (value : Bytes) : M (TextDecoder * Text) :=
  resetHeartbeat ;;
  let (decoder', decoded) := decode decoder value in
  let buffer := buffer ++ decoded in
  let (lines, tail) := split_lines buffer in
  buffer' <- lines_loop done lines tail ;;
  ret (decoder', buffer').

(** The loop [while (!signal.aborted) { ... reader.read() ... }].  Going on
    ([inl tt]) is leaving the loop by its condition. *)
Fixpoint read_loop (reader : list Read) (decoder : TextDecoder)
  (buffer : Text) : M unit :=
  fun s =>
    if aborted s then ret tt s
    else
      match reader with
      | [] => stalled s
      | r :: reader' =>
          (external_stop (abort_in_read r) ;;
           match read_result r with
           | ReadFail e => abrupt (Throw e)
           | ReadStall => stalled
           | Done =>
               on_read true decoder buffer [] ;;
               abrupt Return_
           | Chunk value =>
               db <- on_read false decoder buffer value ;;
               s' <- get ;;
               if aborted s' then abrupt Return_
               else read_loop reader' (fst db) (snd db)
           end) s
      end.

(** The body of [try], once per pass of the outer loop. *)
Definition try_block (a : Attempt) : M unit :=
  resetHeartbeat ;;
  s <- get ;;
  emit (EvRequest (buildRequest dbUrl options (activeSeq s))) ;;
  external_stop (abort_in_fetch a) ;;
  response <- await_fetch (fetch_result a) ;;
  if negb (ok response)
  then abrupt (Throw (HttpStatusError (status response) (text response)))
  else if isNormal options || isLongpoll options then batch response
  else
    match body response with
    | None => abrupt (Throw BodyUnavailableError)
    | Some reader => read_loop reader new_TextDecoder []
    end.

(** The body of [catch].  It goes on with the new [retryCount] when the
    pass is to be retried; [break] leaves the outer loop, after which the
    generator is finished. *)
Definition catch_block (a : Attempt) (retryCount : nat) (error : Error)
  : M nat :=
  s <- get ;;
  if aborted s then abrupt Return_
  else if live options then
    let retryCount := S retryCount in
    emit (EvTimerSet (delay retryCount (random a))) ;;
    external_stop (abort_in_sleep a) ;;
    emit EvTimerFired ;;
    ret retryCount
  else abrupt (Throw error).

(** The outer [while (!signal.aborted)] loop.  When the world has no
    attempt left the script is over and the pull stays pending. *)
Fixpoint fetchChanges_loop (world : list Attempt) (retryCount : nat)
  : M unit :=
  fun s =>
    if aborted s then ret tt s
    else
      match world with
      | [] => abrupt Hang s
      | a :: world' =>
          let r := try_block a s in
          match ctl r with
          | inl _ =>
              let r' := fetchChanges_loop world' retryCount (st r) in
              mkRes (ctl r') (st r') (evs r ++ evs r')
          | inr (Throw error) =>
              let c := catch_block a retryCount error (st r) in
              match ctl c with
              | inl retryCount' =>
                  let r' := fetchChanges_loop world' retryCount' (st c) in
                  mkRes (ctl r') (st r') (evs r ++ evs c ++ evs r')
              | inr b => mkRes (inr b) (st c) (evs r ++ evs c)
              end
          | inr b => mkRes (inr b) (st r) (evs r)
          end
      end.

Definition fetchChanges (world : list Attempt) : M unit :=
  fetchChanges_loop world 0.

(** How an iteration ended, as the consumer sees it. *)
Inductive Outcome :=
| Completed
| Failed (e : Error)
| ClosedByConsumer
| Pending.

Definition outcome (c : unit + Abrupt) : Outcome :=
  match c with
  | inl _ | inr Return_ => Completed
  | inr (Throw e) => Failed e
  | inr Closed => ClosedByConsumer
  | inr Hang => Pending
  end.

(** [[Symbol.asyncIterator]()], driven from the first pull on:
    [try { yield* this.fetchChanges(); } finally { abort(); }].  The
    [finally] block runs whenever the generator is left, which a pull that
    never settles does not do. *)
Definition asyncIterator (world : list Attempt) (s : State)
  : Outcome * State * list Event :=
  let r := fetchChanges world s in
  match outcome (ctl r) with
  | Pending => (Pending, st r, evs r)
  | o => (o, abort (st r), evs r)
  end.

End Stream.

(** ** Definitions used to state the properties *)

(** The request body in the words of section 4.1 of the specification:
    [{doc_ids}] for a non-empty list, else [{selector}] for a non-empty
    object, else no body. *)
Definition requestBody_spec (o : CouchDBChangesOptions) : option RequestBody :=
  match get_doc_ids o with
  | Some (i :: ids) => Some (BodyDocIds (i :: ids))
  | _ =>
      match get_selector o with
      | Some (f :: sel) => Some (BodySelector (f :: sel))
      | _ => None
      end
  end.


(** *** A parser for the examples

    [sample_parse] reads the [seq] of an object literal that starts with
    the member ["seq"] and a decimal number; on the lines the examples
    below feed it, it answers as [JSON.parse] followed by [.seq] does. *)
Fixpoint digits (t : Text) (acc : Z) (n : nat) : option (Z * Text) :=
  match t with
  | c :: t' =>
      if in_range 48 57 c then digits t' (acc * 10 + (c - 48)) (S n)
      else match n with O => None | _ => Some (acc, t) end
  | [] => match n with O => None | _ => Some (acc, t) end
  end.

(** The characters [{"seq":]. *)
Definition seq_member : Text := [123; 34; 115; 101; 113; 34; 58].

(** The line [{"seq":n}]. *)
Definition seq_line (n : Z) : Text :=
  seq_member ++ text_of_string (string_of_Z n) ++ [125].

(** The characters [{"last_seq":], and the line [{"last_seq":n}] with
    which the server closes a feed: an object without [seq]. *)
Definition last_seq_member : Text :=
  [123; 34; 108; 97; 115; 116; 95; 115; 101; 113; 34; 58].


Definition sample_parse (line : Text) : option CouchDBChange :=
  let t := trim line in
  if startsWith t seq_member then
    match digits (skipn 7 t) 0 O with
    | Some (n, rest) =>
        match rest, rev rest with
        | c :: _, l :: _ =>
            if ((c =? 44) || (c =? 125)) && (l =? 125)
            then Some (mkChange (Some (SeqNum n)) EmptyString [] None None)
            else None
        | _, _ => None
        end
    | None => None
    end
  else if startsWith t last_seq_member then
    match rev t with
    | 125 :: _ => Some (mkChange None EmptyString [] None None)
    | _ => None
    end
  else None.

Definition LF : string := String (ascii_of_nat 10) EmptyString.

Definition change_of_seq (n : Z) : CouchDBChange :=
  mkChange (Some (SeqNum n)) EmptyString [] None None.

(** A successful response carrying a batch. *)
Definition batch_response (data : ChangesData) : Response :=
  mkResponse true 200 EmptyString (Some data) None.

(** A successful response whose body delivers [chunks] and then ends. *)
Definition chunk_reads (chunks : list Bytes) : list Read :=
  map (fun c => mkRead false (Chunk c)) chunks.

Definition stream_response (chunks : list Bytes) : Response :=
  mkResponse true 200 EmptyString None (Some (chunk_reads chunks ++ [mkRead false Done])).

(** An attempt nobody aborts from outside. *)
Definition quiet_attempt (f : FetchResult) (rnd : Q) : Attempt :=
  mkAttempt false f rnd false.

(** The cursor after the records [l] went by. *)
Fixpoint cursor_after (l : list CouchDBChange) (cursor : option Seq)
  : option Seq :=
  match l with
  | [] => cursor
  | c :: l' => cursor_after l' (seq c)
  end.


(** A computation all of whose runs relate the state before, the log and
    the state after by [R]. *)
Definition steps (R : State -> list Event -> State -> Prop) {A : Type}
  (m : M A) : Prop :=
  forall s : State, R s (evs (m s)) (st (m s)).

(** The events of one pass through [try]: everything but the timer of a
    backoff sleep. *)
Definition pass_event (e : Event) : Prop :=
  match e with
  | EvTimerSet _ | EvTimerFired => False
  | _ => True
  end.

(** *** Stopping *)

Definition is_stop (e : Event) : bool :=
  match e with EvStop => true | _ => false end.

Definition has_stop (tr : list Event) : bool := existsb is_stop tr.

(** The state after is aborted exactly when the state before was, or a
    stop is in the log. *)
Definition abort_log (s : State) (tr : list Event) (s' : State) : Prop :=
  aborted s' = aborted s || has_stop tr.

(** The feeds read line by line, as opposed to batch by batch. *)
Definition streaming (o : CouchDBChangesOptions) : bool :=
  negb (isNormal o || isLongpoll o).

(** What may still be logged once the signal is aborted: no request and no
    new sleep, and on a streaming feed no record and no move of the
    cursor. *)
Definition quiet_event (strm : bool) (e : Event) : Prop :=
  match e with
  | EvRequest _ | EvTimerSet _ => False
  | EvYield _ | EvCursor _ => strm = false
  | EvStop | EvHeartbeat _ | EvTimerFired => True
  end.

Fixpoint quiet_after_stop (strm : bool) (tr : list Event) : Prop :=
  match tr with
  | [] => True
  | EvStop :: tr' => Forall (quiet_event strm) tr'
  | _ :: tr' => quiet_after_stop strm tr'
  end.

Definition hushed (strm : bool) {A : Type} (m : M A) : Prop :=
  forall s : State,
    (aborted s = true -> Forall (quiet_event strm) (evs (m s)))
    /\ quiet_after_stop strm (evs (m s)).

(** What section 4.4 and 4.5 of the specification allow after a stop: no
    request, no record, and no backoff sleep that runs to its end. *)
Definition silent_event_spec (e : Event) : Prop :=
  match e with
  | EvRequest _ | EvYield _ | EvTimerFired => False
  | _ => True
  end.

(** A world in which nobody but the consumer calls [stop()]. *)
Definition reads_unaborted (reads : list Read) : bool :=
  forallb (fun r => negb (abort_in_read r)) reads.

Definition attempt_unaborted (a : Attempt) : bool :=
  negb (abort_in_fetch a) && negb (abort_in_sleep a)
  && match fetch_result a with
     | Resolve response =>
         match body response with
         | Some reads => reads_unaborted reads
         | None => true
         end
     | _ => true
     end.

Definition consumer_stops_only (world : list Attempt) : bool :=
  forallb attempt_unaborted world.

(** *** The cursor in the log *)

(** The cursor after the log [tr], when it was [cursor] before. *)
Fixpoint replay (cursor : option Seq) (tr : list Event) : option Seq :=
  match tr with
  | [] => cursor
  | EvCursor v :: tr' => replay v tr'
  | _ :: tr' => replay cursor tr'
  end.

(** The log agrees with the cursor: every request is built from the cursor
    of its moment, and every record is yielded with the cursor on its
    [seq]. *)
Fixpoint follows_cursor (dbUrl : string) (o : CouchDBChangesOptions)
  (cursor : option Seq) (tr : list Event) : Prop :=
  match tr with
  | [] => True
  | EvCursor v :: tr' => follows_cursor dbUrl o v tr'
  | EvRequest r :: tr' =>
      r = buildRequest dbUrl o cursor /\ follows_cursor dbUrl o cursor tr'
  | EvYield c :: tr' =>
      cursor = seq c /\ follows_cursor dbUrl o cursor tr'
  | _ :: tr' => follows_cursor dbUrl o cursor tr'
  end.

Definition cursor_log (dbUrl : string) (o : CouchDBChangesOptions)
  (s : State) (tr : list Event) (s' : State) : Prop :=
  activeSeq s' = replay (activeSeq s) tr
  /\ follows_cursor dbUrl o (activeSeq s) tr.

(** Assignments of the cursor and yields come in pairs: an assignment is
    at once followed by the yield of the record whose [seq] it took, and
    no record is yielded otherwise.  [pending] is an assignment still
    waiting for its yield. *)
Fixpoint paired (pending : option (option Seq)) (tr : list Event) : Prop :=
  match tr with
  | [] => pending = None
  | EvCursor v :: tr' => pending = None /\ paired (Some v) tr'
  | EvYield c :: tr' => pending = Some (seq c) /\ paired None tr'
  | _ :: tr' => pending = None /\ paired None tr'
  end.


(** The [since] the configuration supplies: that of the first [since]
    entry that is not the empty string. *)
Fixpoint config_since (o : CouchDBChangesOptions) : option string :=
  match o with
  | [] => None
  | opt_since (SeqStr EmptyString) :: o' => config_since o'
  | opt_since v :: _ => Some (Seq_toString v)
  | _ :: o' => config_since o'
  end.


(** *** Chunking *)

(** Two runs that differ at most in how often the watchdog was re-armed. *)
Definition same_but_heartbeat {A : Type} (r1 r2 : Res A) : Prop :=
  ctl r1 = ctl r2
  /\ st r1 = st r2
  /\ without_heartbeat (evs r1) = without_heartbeat (evs r2).

(** An attempt whose response body delivers the chunks [chunks] and then
    goes on as [rest] says. *)
Definition chunked_attempt (abort_fetch : bool) (ok_ : bool) (status_ : Z)
  (text_ : string) (json_ : option ChangesData) (chunks : list Bytes)
  (rest : list Read) (rnd : Q) (abort_sleep : bool) : Attempt :=
  mkAttempt abort_fetch
    (Resolve (mkResponse ok_ status_ text_ json_
                (Some (chunk_reads chunks ++ rest))))
    rnd abort_sleep.

(** What [resetHeartbeat()] logs. *)
Definition heartbeat_log (o : CouchDBChangesOptions) : list Event :=
  if usesHeartbeat o then [EvHeartbeat (adjustedTimeout o)] else [].

(** *** Sample inputs *)

(** The bytes of the two lines [{"seq":1,"id":"é"}] and [{"seq":2}], each
    closed by a newline; [é] is the two bytes 195 and 169. *)
Definition sample_stream : Bytes :=
  [123; 34; 115; 101; 113; 34; 58; 49; 44; 34; 105; 100; 34; 58; 34;
   195; 169; 34; 125; 10;
   123; 34; 115; 101; 113; 34; 58; 50; 125; 10].

(** The same bytes cut inside [é] and inside the second line. *)
Definition sample_chunks : list Bytes :=
  [[123; 34; 115; 101; 113; 34; 58; 49; 44; 34; 105; 100; 34; 58; 34; 195];
   [169; 34; 125; 10; 123; 34; 115];
   [101; 113; 34; 58; 50; 125; 10]].

(** The lines [{"seq":1}], [MALFORMED] and [{"seq":2}]. *)
Definition malformed_stream : Bytes :=
  seq_line 1 ++ [newline] ++ text_of_string "MALFORMED" ++ [newline]
  ++ seq_line 2 ++ [newline].

(** The event stream of section 8 of the specification, with the records
    cut down to their [seq]: two [event:] lines, each followed by a
    [data:] line and a blank line. *)
Definition eventsource_stream : Bytes :=
  [newline]
  ++ text_of_string "event: change" ++ [newline]
  ++ text_of_string "data: " ++ seq_line 1 ++ [newline]
  ++ [newline]
  ++ text_of_string "event: change" ++ [newline]
  ++ text_of_string "data: " ++ seq_line 2 ++ [newline].

(** ** Definitions used by the further properties *)

(** The parameter an entry of the options contributes to the query, as a
    list with at most one pair. *)
Definition entry_params (e : OptionEntry) : SearchParams :=
  match entry_param e with
  | Some kv => [kv]
  | None => []
  end.

(** How a computation ended, without the value it may have gone on
    with. *)
Definition abrupt_of {A : Type} (c : A + Abrupt) : option Abrupt :=
  match c with
  | inl _ => None
  | inr b => Some b
  end.

(** A computation all of whose runs relate their end and their log by
    [P]. *)
Definition ends (P : option Abrupt -> list Event -> Prop) {A : Type}
  (m : M A) : Prop :=
  forall s : State, P (abrupt_of (ctl (m s))) (evs (m s)).

(** The log ends with a yielded record. *)
Definition ends_with_yield (tr : list Event) : Prop :=
  exists (pre : list Event) (c : CouchDBChange), tr = pre ++ [EvYield c].

(** What a pass does once the request is out: the rest of the body of
    [try]. *)
Definition after_fetch (options : CouchDBChangesOptions)
  (JSON_parse : Text -> option CouchDBChange) (f : FetchResult) : M unit :=
  (response <- await_fetch options f ;;
   if negb (ok response)
   then abrupt (Throw (HttpStatusError (status response) (text response)))
   else if isNormal options || isLongpoll options then batch options response
   else
     match body response with
     | None => abrupt (Throw BodyUnavailableError)
     | Some reader => read_loop options JSON_parse reader new_TextDecoder []
     end)%gen.

(** An attempt that is answered with the batch [d]. *)
Definition delivers (a : Attempt) (d : ChangesData) : Prop :=
  abort_in_fetch a = false
  /\ exists response : Response,
       fetch_result a = Resolve response
       /\ ok response = true
       /\ json response = Some d.

(** A consumer that pulls on after every record. *)
Definition keeps_pulling (s : State) : Prop :=
  Forall (fun act => act = Next) (consumer s).

(** The log of the records [l] going out one by one. *)
Definition record_log (l : list CouchDBChange) : list Event :=
  flat_map (fun c => [EvCursor (seq c); EvYield c]) l.

(** The log of the batch [d] going out, and the cursor after it. *)
Definition poll_log (d : ChangesData) : list Event :=
  record_log (results d)
  ++ (if truthy_seq (last_seq d) then [EvCursor (last_seq d)] else []).

Definition poll_cursor (cursor : option Seq) (d : ChangesData) : option Seq :=
  if truthy_seq (last_seq d) then last_seq d
  else cursor_after (results d) cursor.

(** The log of one request after the other, each answered with a batch. *)
Fixpoint polls_log (dbUrl : string) (o : CouchDBChangesOptions)
  (cursor : option Seq) (ds : list ChangesData) : list Event :=
  match ds with
  | [] => []
  | d :: ds' =>
      EvRequest (buildRequest dbUrl o cursor)
      :: poll_log d ++ polls_log dbUrl o (poll_cursor cursor d) ds'
  end.

(** On an eventsource feed, a line that starts with [event:]. *)
Definition is_event_line (o : CouchDBChangesOptions) (raw : Text) : bool :=
  isEventsource o && startsWith (trim raw) (text_of_string "event:").

(** What is left of a raw line for [JSON.parse]: the line trimmed and, on
    an eventsource feed, without a leading [data:]. *)
Definition payload (o : CouchDBChangesOptions) (raw : Text) : Text :=
  if isEventsource o && startsWith (trim raw) (text_of_string "data:")
  then skipn 5 (trim raw) else trim raw.

(** A line the inner loop passes over: an [event:] line or a blank one. *)
Definition ignored_line (o : CouchDBChangesOptions) (raw : Text) : bool :=
  is_event_line o raw || is_empty (trim (payload o raw)).

(** The record a raw line stands for, if any: none for a line that is
    passed over or does not parse. *)
Definition line_record (o : CouchDBChangesOptions)
  (JSON_parse : Text -> option CouchDBChange) (raw : Text)
  : list CouchDBChange :=
  if ignored_line o raw then []
  else match JSON_parse (payload o raw) with
       | Some c => [c]
       | None => []
       end.

(** A pass during which nobody aborts the signal from outside: not while
    the fetch is out, and not while a read is. *)
Definition pass_unaborted (a : Attempt) : bool :=
  negb (abort_in_fetch a)
  && match fetch_result a with
     | Resolve response =>
         match body response with
         | Some reads => reads_unaborted reads
         | None => true
         end
     | _ => true
     end.

(** * Properties *)

(** ** Request body and method *)

Lemma requestBody_cases (o : CouchDBChangesOptions) :
  requestBody o =
  match get_doc_ids o with
  | Some (i :: ids) => Some (BodyDocIds (i :: ids))
  | _ =>
      match get_selector o with
      | Some sel => Some (BodySelector sel)
      | None => None
      end
  end.
Proof.
  unfold requestBody, hasDocIds, hasSelector.
  destruct (get_doc_ids o) as [[|i ids]|]; destruct (get_selector o); reflexivity.
Qed.

(** C3, as the specification states it, fails: an empty selector object
    still becomes the body of a POST request. *)
Lemma C3_empty_selector_is_sent :
  requestBody [opt_selector []] = Some (BodySelector [])
  /\ req_method (buildRequest "http://db" [opt_selector []] None) = POST
  /\ requestBody [opt_selector []] <> requestBody_spec [opt_selector []].
Proof. repeat split; discriminate. Qed.

(** C3 (amended): the body is [{doc_ids}] when [doc_ids] is a non-empty
    list, else [{selector}] when [selector] is an object (empty or not),
    else absent; the method is POST exactly when there is a body, and GET
    otherwise. *)
Theorem C3_request_body_and_method :
  forall (dbUrl : string) (o : CouchDBChangesOptions) (cursor : option Seq),
    let request := buildRequest dbUrl o cursor in
    req_body request =
      match get_doc_ids o with
      | Some (i :: ids) => Some (BodyDocIds (i :: ids))
      | _ =>
          match get_selector o with
          | Some sel => Some (BodySelector sel)
          | None => None
          end
      end
    /\ (req_method request = POST <-> req_body request <> None)
    /\ (req_method request = GET <-> req_body request = None).
Proof.
  intros dbUrl o cursor; cbn.
  rewrite requestBody_cases.
  destruct (get_doc_ids o) as [[|i ids]|]; destruct (get_selector o);
    cbn; repeat split; intros; try congruence; try discriminate.
Qed.

(** ** Heartbeat watchdog *)





(** ** The generator monad *)

Lemma bind_ok {A B} (m : M A) (f : A -> M B) (s : State) (a : A) :
  ctl (m s) = inl a ->
  bind m f s
  = mkRes (ctl (f a (st (m s)))) (st (f a (st (m s))))
      (evs (m s) ++ evs (f a (st (m s)))).
Proof. intros H. unfold bind. rewrite H. reflexivity. Qed.

Lemma bind_abrupt {A B} (m : M A) (f : A -> M B) (s : State) (b : Abrupt) :
  ctl (m s) = inr b ->
  bind m f s = mkRes (inr b) (st (m s)) (evs (m s)).
Proof. intros H. unfold bind. rewrite H. reflexivity. Qed.

Lemma bind_assoc {A B C} (m : M A) (f : A -> M B) (g : B -> M C) (s : State) :
  bind m (fun a => bind (f a) g) s = bind (bind m f) g s.
Proof.
  unfold bind. destruct (ctl (m s)) as [a|b]; cbn [ctl st evs]; [|reflexivity].
  destruct (ctl (f a (st (m s)))) as [b|b]; cbn [ctl st evs];
    rewrite ?app_assoc; reflexivity.
Qed.

Lemma yields_app (a b : list Event) : yields (a ++ b) = yields a ++ yields b.
Proof. apply flat_map_app. Qed.

Lemma requests_app (a b : list Event) :
  requests (a ++ b) = requests a ++ requests b.
Proof. apply flat_map_app. Qed.

Lemma sleeps_app (a b : list Event) : sleeps (a ++ b) = sleeps a ++ sleeps b.
Proof. apply flat_map_app. Qed.

Lemma normal_no_heartbeat (o : CouchDBChangesOptions) :
  isNormal o || isLongpoll o = true -> usesHeartbeat o = false.
Proof.
  unfold isNormal, isLongpoll, usesHeartbeat, isContinuous, isEventsource.
  destruct (get_feed o) as [[]|]; cbn; congruence.
Qed.

Lemma cursor_yield_then {A} (v : option Seq) (c : CouchDBChange) (k : M A)
  (s : State) :
  (set_activeSeq v ;; yield c ;; k)%gen s
  = match consumer s with
    | [] =>
        let r := k (mkState (aborted s) v []) in
        mkRes (ctl r) (st r) (EvCursor v :: EvYield c :: evs r)
    | Next :: q =>
        let r := k (mkState (aborted s) v q) in
        mkRes (ctl r) (st r) (EvCursor v :: EvYield c :: evs r)
    | StopThenNext :: q =>
        let r := k (mkState true v q) in
        mkRes (ctl r) (st r) (EvCursor v :: EvYield c :: EvStop :: evs r)
    | Break :: q =>
        mkRes (inr Closed) (mkState (aborted s) v q)
          [EvCursor v; EvYield c]
    end.
Proof.
  unfold bind, set_activeSeq, yield. cbn [ctl st evs consumer aborted activeSeq].
  destruct (consumer s) as [|[] q]; reflexivity.
Qed.

Lemma record_step (c : CouchDBChange) (s : State) :
  (set_activeSeq (seq c) ;; yield c)%gen s
  = match consumer s with
    | [] =>
        mkRes (inl tt) (mkState (aborted s) (seq c) [])
          [EvCursor (seq c); EvYield c]
    | Next :: q =>
        mkRes (inl tt) (mkState (aborted s) (seq c) q)
          [EvCursor (seq c); EvYield c]
    | StopThenNext :: q =>
        mkRes (inl tt) (mkState true (seq c) q)
          [EvCursor (seq c); EvYield c; EvStop]
    | Break :: q =>
        mkRes (inr Closed) (mkState (aborted s) (seq c) q)
          [EvCursor (seq c); EvYield c]
    end.
Proof.
  unfold bind, set_activeSeq, yield. cbn [ctl st evs consumer aborted activeSeq].
  destruct (consumer s) as [|[] q]; reflexivity.
Qed.

(** ** Normal feed *)

Lemma yield_pulls_on (c : CouchDBChange) (s : State) :
  ~ In Break (consumer s) ->
  let r := yield c s in
  ctl r = inl tt
  /\ yields (evs r) = [c]
  /\ requests (evs r) = []
  /\ activeSeq (st r) = activeSeq s
  /\ ~ In Break (consumer (st r)).
Proof.
  intros Hk. unfold yield.
  destruct (consumer s) as [|[] k] eqn:Ek; cbn.
  - repeat split; auto. rewrite Ek; exact Hk.
  - repeat split; auto. intros H; apply Hk; right; exact H.
  - repeat split; auto. intros H; apply Hk; right; exact H.
  - exfalso; apply Hk; left; reflexivity.
Qed.

Lemma yield_results_all (l : list CouchDBChange) (s : State) :
  ~ In Break (consumer s) ->
  let r := yield_results l s in
  ctl r = inl tt
  /\ yields (evs r) = l
  /\ requests (evs r) = []
  /\ activeSeq (st r) = cursor_after l (activeSeq s)
  /\ ~ In Break (consumer (st r)).
Proof.
  revert s; induction l as [|c l IH]; intros s Hk.
  - cbn. auto.
  - cbn [yield_results cursor_after].
    rewrite (bind_ok _ _ s tt) by reflexivity.
    cbn [set_activeSeq st evs ctl].
    set (s1 := mkState (aborted s) (seq c) (consumer s)).
    destruct (yield_pulls_on c s1 Hk) as (Y1 & Y2 & Y3 & Y4 & Y5).
    rewrite (bind_ok _ _ s1 tt) by exact Y1.
    destruct (IH (st (yield c s1)) Y5) as (H1 & H2 & H3 & H4 & H5).
    cbn [ctl st evs].
    rewrite !yields_app, !requests_app, Y2, Y3, H2, H3, H4, Y4.
    auto.
Qed.

Section NormalFeed.

Variable dbUrl : string.
Variable options : CouchDBChangesOptions.
Variable JSON_parse : Text -> option CouchDBChange.

(** One pass of a normal feed over a successful response, with a consumer
    that does not leave the loop. *)
Lemma normal_feed_run (a : Attempt) (world : list Attempt) (s : State)
  (response : Response) (data : ChangesData) :
  isNormal options = true ->
  aborted s = false ->
  ~ In Break (consumer s) ->
  fetch_result a = Resolve response ->
  ok response = true ->
  json response = Some data ->
  exists s' tr,
    asyncIterator dbUrl options JSON_parse (a :: world) s = (Completed, s', tr)
    /\ yields tr = results data
    /\ requests tr = [buildRequest dbUrl options (activeSeq s)]
    /\ activeSeq s'
       = (if truthy_seq (last_seq data) then last_seq data
          else cursor_after (results data) (activeSeq s)).
Proof.
  intros Hn Ha Hk Hf Hok Hj.
  assert (Hhb : usesHeartbeat options = false)
    by (apply normal_no_heartbeat; rewrite Hn; reflexivity).
  assert (Hlp : isLongpoll options = false).
  { unfold isNormal, isLongpoll in *.
    destruct (get_feed options) as [[]|]; congruence. }
  unfold asyncIterator, fetchChanges. cbn [fetchChanges_loop]. rewrite Ha.
  set (s1 := if abort_in_fetch a then stop s else s).
  assert (Hk1 : ~ In Break (consumer s1)) by (subst s1; destruct (abort_in_fetch a); exact Hk).
  assert (Hc1 : activeSeq s1 = activeSeq s) by (subst s1; destruct (abort_in_fetch a); reflexivity).
  destruct (yield_results_all (results data) s1 Hk1) as (H1 & H2 & H3 & H4 & H5).
  assert (Htry : exists s' tr,
             try_block dbUrl options JSON_parse a s = mkRes (inr Return_) s' tr
             /\ yields tr = results data
             /\ requests tr = [buildRequest dbUrl options (activeSeq s)]
             /\ activeSeq s'
                = (if truthy_seq (last_seq data) then last_seq data
                   else cursor_after (results data) (activeSeq s))).
  { unfold try_block, resetHeartbeat. rewrite Hhb. cbn [negb].
    rewrite (bind_ok _ _ s tt) by reflexivity. cbn [ret st evs ctl].
    rewrite (bind_ok _ _ s s) by reflexivity. cbn [get st evs ctl].
    rewrite (bind_ok _ _ s tt) by reflexivity. cbn [emit st evs ctl].
    rewrite (bind_ok _ _ s tt) by (unfold external_stop; destruct (abort_in_fetch a); reflexivity).
    replace (st (external_stop (abort_in_fetch a) s)) with s1
      by (unfold external_stop; subst s1; destruct (abort_in_fetch a); reflexivity).
    rewrite Hf. cbn [await_fetch].
    rewrite (bind_ok _ _ s1 response) by reflexivity. cbn [ret st evs ctl].
    rewrite Hok, Hn. cbn [negb orb].
    unfold batch. rewrite Hj.
    rewrite (bind_ok _ _ s1 tt) by exact H1.
    set (s2 := st (yield_results (results data) s1)) in *.
    set (m := if truthy_seq (last_seq data)
              then set_activeSeq (last_seq data)
              else ret tt).
    assert (Hm : ctl (m s2) = inl tt
                 /\ yields (evs (m s2)) = [] /\ requests (evs (m s2)) = []
                 /\ activeSeq (st (m s2))
                    = (if truthy_seq (last_seq data) then last_seq data
                       else activeSeq s2)).
    { subst m. destruct (truthy_seq (last_seq data)); repeat split. }
    destruct Hm as (M1 & M2 & M3 & M4).
    rewrite (bind_ok _ _ s2 tt) by exact M1.
    rewrite (bind_ok _ _ (st (m s2)) (st (m s2))) by reflexivity.
    cbn [get st evs ctl]. rewrite Hlp. cbn [andb abrupt ctl st evs].
    do 2 eexists. split; [reflexivity|].
    rewrite !yields_app, !requests_app, H2, H3, M2, M3, M4, H4, Hc1.
    unfold external_stop; destruct (abort_in_fetch a); cbn; rewrite ?app_nil_r; auto. }
  destruct Htry as (s' & tr & Et & Ty & Tr & Tc).
  rewrite Et. cbn [ctl st evs outcome].
  exists (abort s'), tr. cbn [abort activeSeq]. auto.
Qed.

(** C1, as the specification states it, fails: a falsy [last_seq] (here
    the number 0 that an empty database reports) is not taken over as the
    cursor. *)
Lemma C1_falsy_last_seq_not_taken :
  let data := mkData [] (Some (SeqNum 0)) in
  exists s',
    asyncIterator "http://db" [] sample_parse
      [quiet_attempt (Resolve (batch_response data)) 0] (mkState false None [])
    = (Completed, s', [EvRequest (buildRequest "http://db" [] None)])
    /\ activeSeq s' <> last_seq data.
Proof. eexists. split; [reflexivity|]. discriminate. Qed.

(** C1 (amended): for a normal feed (feed unset or "normal") whose
    successful response is the object [{results, last_seq}], and a consumer
    that pulls until the end, the iteration yields exactly the records of
    [results] in array order, completes, and has issued exactly one
    request; afterwards the cursor is [last_seq] when [last_seq] is truthy
    (a non-zero number or a non-empty string) and otherwise the [seq] of
    the last record yielded, or unchanged when there was none. *)
Theorem C1_normal_feed_yields_batch :
  forall (a : Attempt) (world : list Attempt) (s : State)
         (response : Response) (data : ChangesData),
    isNormal options = true ->
    aborted s = false ->
    ~ In Break (consumer s) ->
    fetch_result a = Resolve response ->
    ok response = true ->
    json response = Some data ->
    exists s' tr,
      asyncIterator dbUrl options JSON_parse (a :: world) s = (Completed, s', tr)
      /\ yields tr = results data
      /\ List.length (requests tr) = 1%nat
      /\ activeSeq s'
         = (if truthy_seq (last_seq data) then last_seq data
            else cursor_after (results data) (activeSeq s)).
Proof.
  intros a world s response data Hn Ha Hk Hf Hok Hj.
  destruct (normal_feed_run a world s response data Hn Ha Hk Hf Hok Hj)
    as (s' & tr & E & Hy & Hr & Hc).
  exists s', tr. rewrite Hr. auto.
Qed.

End NormalFeed.

Lemma C1_normal_feed_witness :
  exists s' tr,
    asyncIterator "http://db" [opt_feed normal] sample_parse
      [quiet_attempt
         (Resolve (batch_response
                     (mkData [change_of_seq 1; change_of_seq 2] (Some (SeqStr "2")))))
         0]
      (mkState false None [StopThenNext])
    = (Completed, s', tr)
    /\ yields tr = [change_of_seq 1; change_of_seq 2]
    /\ List.length (requests tr) = 1%nat
    /\ activeSeq s' = Some (SeqStr "2").
Proof.
  apply (C1_normal_feed_yields_batch "http://db" [opt_feed normal] sample_parse
           (quiet_attempt
              (Resolve (batch_response
                          (mkData [change_of_seq 1; change_of_seq 2]
                             (Some (SeqStr "2"))))) 0)
           [] (mkState false None [StopThenNext])
           (batch_response
              (mkData [change_of_seq 1; change_of_seq 2] (Some (SeqStr "2"))))
           (mkData [change_of_seq 1; change_of_seq 2] (Some (SeqStr "2"))));
    try reflexivity.
  cbn. intros [H|[]]. discriminate.
Defined.

(** ** The [limit] option *)

Lemma params_get_app (p q : SearchParams) (k : string) :
  params_get (p ++ q) k
  = match params_get p k with
    | Some v => Some v
    | None => params_get q k
    end.
Proof.
  unfold params_get. induction p as [|kv p IH]; cbn.
  - reflexivity.
  - destruct (String.eqb (fst kv) k); [reflexivity | exact IH].
Qed.

Lemma params_get_remove_other (p : SearchParams) (k k' : string) :
  String.eqb k k' = false ->
  params_get (params_remove p k) k' = params_get p k'.
Proof.
  intros Hne. unfold params_get, params_remove.
  induction p as [|kv p IH]; cbn.
  - reflexivity.
  - destruct (String.eqb (fst kv) k) eqn:E1; cbn.
    + apply String.eqb_eq in E1. rewrite E1, Hne. exact IH.
    + destruct (String.eqb (fst kv) k'); [reflexivity | exact IH].
Qed.

Lemma params_get_set_other (p : SearchParams) (k k' v : string) :
  String.eqb k k' = false ->
  params_get (params_set p k v) k' = params_get p k'.
Proof.
  intros Hne. induction p as [|kv p IH]; cbn.
  - unfold params_get; cbn. rewrite Hne. reflexivity.
  - destruct (String.eqb (fst kv) k) eqn:E1.
    + apply String.eqb_eq in E1.
      unfold params_get at 1 2; cbn. rewrite E1, Hne.
      apply (params_get_remove_other p k k' Hne).
    + unfold params_get at 1 2; cbn.
      destruct (String.eqb (fst kv) k'); [reflexivity | exact IH].
Qed.

Lemma params_get_set_same (p : SearchParams) (k v : string) :
  params_get (params_set p k v) k = Some v.
Proof.
  induction p as [|kv p IH]; cbn.
  - unfold params_get; cbn. rewrite String.eqb_refl. reflexivity.
  - destruct (String.eqb (fst kv) k) eqn:E1.
    + unfold params_get; cbn. rewrite String.eqb_refl. reflexivity.
    + unfold params_get; cbn. rewrite E1. exact IH.
Qed.

Lemma entries_params_limit (o : CouchDBChangesOptions) (p : SearchParams) :
  params_get (entries_params o p) "limit"
  = match params_get p "limit" with
    | Some v => Some v
    | None => option_map string_of_Z (get_limit o)
    end.
Proof.
  revert p; induction o as [|e o IH]; intros p.
  - cbn. destruct (params_get p "limit"); reflexivity.
  - destruct e as [[n|[|c s]]|[|c s]| | | | | | | | | | | | | | ];
      cbn [entries_params entry_param get_limit];
      rewrite IH; unfold params_append; rewrite ?params_get_app;
      destruct (params_get p "limit"); reflexivity.
Qed.

(** ** After the iteration *)

Lemma fetchChanges_loop_aborted (dbUrl : string) (o : CouchDBChangesOptions)
  (JSON_parse : Text -> option CouchDBChange) (world : list Attempt)
  (retryCount : nat) (s : State) :
  aborted s = true ->
  fetchChanges_loop dbUrl o JSON_parse world retryCount s = mkRes (inl tt) s [].
Proof. intros H. destruct world; cbn; rewrite H; reflexivity. Qed.

(** C10: whenever an iteration has ended (by exhaustion, by an error, by
    the consumer leaving the loop, or after [stop()]), the abort controller
    of the instance is aborted, and every later iteration of the instance
    completes at once, without a record and without a request. *)
Theorem C10_ended_iteration_stays_aborted :
  forall (dbUrl : string) (o : CouchDBChangesOptions)
         (JSON_parse : Text -> option CouchDBChange)
         (world : list Attempt) (s : State),
    fst (fst (asyncIterator dbUrl o JSON_parse world s)) <> Pending ->
    let s' := snd (fst (asyncIterator dbUrl o JSON_parse world s)) in
    aborted s' = true
    /\ forall (world' : list Attempt) (k : list ConsumerAct),
         asyncIterator dbUrl o JSON_parse world'
           (mkState (aborted s') (activeSeq s') k)
         = (Completed, mkState true (activeSeq s') k, []).
Proof.
  intros dbUrl o JSON_parse world s Hend s'.
  assert (Ha : aborted s' = true).
  { subst s'. unfold asyncIterator in *.
    destruct (outcome (ctl (fetchChanges dbUrl o JSON_parse world s)));
      cbn in *; try reflexivity. congruence. }
  split; [exact Ha|]. intros world' k.
  unfold asyncIterator, fetchChanges.
  rewrite fetchChanges_loop_aborted by exact Ha.
  cbn. rewrite Ha. reflexivity.
Qed.

Lemma C10_witness :
  let run := asyncIterator "http://db" [opt_feed continuous] sample_parse
               [quiet_attempt (Reject (TransportError "refused")) 0]
               (mkState false None []) in
  fst (fst run) = Failed (TransportError "refused")
  /\ aborted (snd (fst run)) = true
  /\ asyncIterator "http://db" [opt_feed continuous] sample_parse
       [quiet_attempt (Resolve (stream_response [])) 0]
       (mkState (aborted (snd (fst run))) (activeSeq (snd (fst run))) [])
     = (Completed, mkState true None [], []).
Proof.
  pose proof (C10_ended_iteration_stays_aborted "http://db" [opt_feed continuous]
                sample_parse [quiet_attempt (Reject (TransportError "refused")) 0]
                (mkState false None [])) as H.
  cbv zeta. split; [reflexivity|].
  destruct H as [H1 H2]; [discriminate|].
  split; [exact H1|].
  exact (H2 [quiet_attempt (Resolve (stream_response [])) 0] []).
Defined.

(** ** Invariants of sequential composition

    A relation between the state before, the log and the state after that
    holds of the primitive steps and is closed under sequencing holds of
    every part of [fetchChanges]. *)

Section Steps.

Variable dbUrl : string.
Variable options : CouchDBChangesOptions.
Variable JSON_parse : Text -> option CouchDBChange.
Variable R : State -> list Event -> State -> Prop.
Hypothesis R_refl : forall s, R s [] s.
Hypothesis R_trans :
  forall s a s1 b s2, R s a s1 -> R s1 b s2 -> R s (a ++ b) s2.
Hypothesis R_heartbeat : forall s ms, R s [EvHeartbeat ms] s.
Hypothesis R_last_seq :
  forall s v,
    truthy_seq v = true ->
    R s [EvCursor v] (mkState (aborted s) v (consumer s)).
Hypothesis R_stop : forall s, R s [EvStop] (stop s).
Hypothesis R_record :
  forall s c,
    R s (evs ((set_activeSeq (seq c) ;; yield c)%gen s))
      (st ((set_activeSeq (seq c) ;; yield c)%gen s)).
Hypothesis R_request :
  forall s, R s [EvRequest (buildRequest dbUrl options (activeSeq s))] s.

Lemma steps_ret {A} (a : A) : steps R (ret a).
Proof. intros s. apply R_refl. Qed.

Lemma steps_abrupt {A} (b : Abrupt) : steps R (@abrupt A b).
Proof. intros s. apply R_refl. Qed.

Lemma steps_get : steps R get.
Proof. intros s. apply R_refl. Qed.

Lemma steps_bind {A B} (m : M A) (f : A -> M B) :
  steps R m -> (forall a, steps R (f a)) -> steps R (bind m f).
Proof.
  intros Hm Hf s. unfold bind.
  destruct (ctl (m s)) as [a|b] eqn:E; cbn.
  - eapply R_trans; [apply Hm | apply Hf].
  - apply Hm.
Qed.

Lemma steps_external_stop (b : bool) : steps R (external_stop b).
Proof. intros s. unfold external_stop. destruct b; cbn; auto. Qed.

(** [this.activeSeq = change.seq; yield change;] and what follows. *)
Lemma steps_record {A} (c : CouchDBChange) (k : M A) :
  steps R k -> steps R (set_activeSeq (seq c) ;; yield c ;; k)%gen.
Proof.
  intros Hk s.
  rewrite (bind_assoc (set_activeSeq (seq c)) (fun _ => yield c) (fun _ => k) s).
  revert s. apply steps_bind; [intros s; apply R_record | intros _; exact Hk].
Qed.

Lemma steps_resetHeartbeat : steps R (resetHeartbeat options).
Proof.
  unfold resetHeartbeat. destruct (usesHeartbeat options); cbn.
  - intros s. apply R_heartbeat.
  - apply steps_ret.
Qed.

Lemma steps_stalled {A} : steps R (@stalled options A).
Proof.
  intros s. unfold stalled.
  destruct (usesHeartbeat options && negb (aborted s)); apply R_refl.
Qed.

Lemma steps_yield_results (l : list CouchDBChange) : steps R (yield_results l).
Proof.
  induction l as [|c l IH]; cbn [yield_results].
  - apply steps_ret.
  - apply steps_record. exact IH.
Qed.

Lemma steps_batch (response : Response) : steps R (batch options response).
Proof.
  unfold batch. destruct (json response) as [data|]; [|apply steps_abrupt].
  apply steps_bind; [apply steps_yield_results|intros _].
  apply steps_bind.
  - destruct (truthy_seq (last_seq data)) eqn:Ht; [|apply steps_ret].
    intros s. apply R_last_seq. exact Ht.
  - intros _. apply steps_bind; [apply steps_get|intros s].
    destruct (isLongpoll options && negb (aborted s));
      [apply steps_ret|apply steps_abrupt].
Qed.

Lemma steps_lines_loop (done : bool) (lines : list Text) (tail : Text) :
  steps R (lines_loop options JSON_parse done lines tail).
Proof.
  induction lines as [|raw lines IH]; cbn [lines_loop].
  - apply steps_ret.
  - intros s. destruct (aborted s); [apply R_refl|].
    destruct (isEventsource options && startsWith (trim raw) (text_of_string "event:"));
      [apply IH|].
    match goal with |- context [is_empty ?x] => destruct (is_empty x) end.
    + destruct done; [apply R_refl | apply IH].
    + match goal with |- context [JSON_parse ?x] => destruct (JSON_parse x) end.
      * revert s. apply steps_record. exact IH.
      * cbn [negb andb].
        match goal with |- context [truthy_number ?x] => destruct (truthy_number x) end;
          [apply R_refl | apply IH].
Qed.

Lemma steps_on_read (done : bool) (decoder : TextDecoder) (buffer : Text)
  (value : Bytes) : steps R (on_read options JSON_parse done decoder buffer value).
Proof.
  unfold on_read. apply steps_bind; [apply steps_resetHeartbeat|intros _].
  destruct (decode decoder value) as [d t].
  destruct (split_lines (buffer ++ t)) as [ls tl].
  apply steps_bind; [apply steps_lines_loop|intros b; apply steps_ret].
Qed.

Lemma steps_read_loop (reader : list Read) :
  forall (decoder : TextDecoder) (buffer : Text),
    steps R (read_loop options JSON_parse reader decoder buffer).
Proof.
  induction reader as [|r reader IH]; intros decoder buffer s; cbn [read_loop].
  - destruct (aborted s); [apply R_refl | apply steps_stalled].
  - destruct (aborted s); [apply R_refl|]. revert s.
    apply steps_bind; [apply steps_external_stop|intros _].
    destruct (read_result r).
    + apply steps_bind; [apply steps_on_read|intros db].
      apply steps_bind; [apply steps_get|intros s'].
      destruct (aborted s'); [apply steps_abrupt | apply IH].
    + apply steps_bind; [apply steps_on_read|intros _; apply steps_abrupt].
    + apply steps_abrupt.
    + apply steps_stalled.
Qed.

(** What follows the request in a pass through [try]. *)
Lemma steps_after_request (a : Attempt) :
  steps R
    (external_stop (abort_in_fetch a) ;;
     response <- await_fetch options (fetch_result a) ;;
     if negb (ok response)
     then abrupt (Throw (HttpStatusError (status response) (text response)))
     else if isNormal options || isLongpoll options then batch options response
     else
       match body response with
       | None => abrupt (Throw BodyUnavailableError)
       | Some reader => read_loop options JSON_parse reader new_TextDecoder []
       end)%gen.
Proof.
  apply steps_bind; [apply steps_external_stop|intros _].
  apply steps_bind.
  - destruct (fetch_result a); cbn [await_fetch];
      [apply steps_ret | apply steps_abrupt | apply steps_stalled].
  - intros response.
    destruct (negb (ok response)); [apply steps_abrupt|].
    destruct (isNormal options || isLongpoll options); [apply steps_batch|].
    destruct (body response); [apply steps_read_loop | apply steps_abrupt].
Qed.

Lemma steps_try_block (a : Attempt) :
  steps R (try_block dbUrl options JSON_parse a).
Proof.
  unfold try_block.
  apply steps_bind; [apply steps_resetHeartbeat|intros _].
  intros s. unfold bind at 1. cbn [get ctl st evs app].
  unfold bind at 1. cbn [emit ctl st evs].
  refine (R_trans s [_] s _ _ (R_request s) _).
  apply steps_after_request.
Qed.

(** A pass of a streaming feed never takes the batch branch. *)
Lemma steps_after_request_streaming (a : Attempt) :
  steps R
    (external_stop (abort_in_fetch a) ;;
     response <- await_fetch options (fetch_result a) ;;
     if negb (ok response)
     then abrupt (Throw (HttpStatusError (status response) (text response)))
     else
       match body response with
       | None => abrupt (Throw BodyUnavailableError)
       | Some reader => read_loop options JSON_parse reader new_TextDecoder []
       end)%gen.
Proof.
  apply steps_bind; [apply steps_external_stop|intros _].
  apply steps_bind.
  - destruct (fetch_result a); cbn [await_fetch];
      [apply steps_ret | apply steps_abrupt | apply steps_stalled].
  - intros response.
    destruct (negb (ok response)); [apply steps_abrupt|].
    destruct (body response); [apply steps_read_loop | apply steps_abrupt].
Qed.

Lemma steps_try_block_streaming (a : Attempt) :
  streaming options = true ->
  steps R (try_block dbUrl options JSON_parse a).
Proof.
  intros Hstr. unfold streaming in Hstr. apply negb_true_iff in Hstr.
  unfold try_block. rewrite Hstr.
  apply steps_bind; [apply steps_resetHeartbeat|intros _].
  intros s. unfold bind at 1. cbn [get ctl st evs app].
  unfold bind at 1. cbn [emit ctl st evs].
  refine (R_trans s [_] s _ _ (R_request s) _).
  apply steps_after_request_streaming.
Qed.

Hypothesis R_timer_set : forall s ms, R s [EvTimerSet ms] s.
Hypothesis R_timer_fired : forall s, R s [EvTimerFired] s.

Lemma steps_catch_block (a : Attempt) (retryCount : nat) (error : Error) :
  steps R (catch_block options a retryCount error).
Proof.
  unfold catch_block.
  apply steps_bind; [apply steps_get|intros s].
  destruct (aborted s); [apply steps_abrupt|].
  destruct (live options); [|apply steps_abrupt].
  apply steps_bind; [intros s0; apply R_timer_set|intros _].
  apply steps_bind; [apply steps_external_stop|intros _].
  apply steps_bind; [intros s0; apply R_timer_fired|intros _].
  apply steps_ret.
Qed.

Lemma steps_fetchChanges_loop (world : list Attempt) :
  (forall a, steps R (try_block dbUrl options JSON_parse a)) ->
  forall retryCount : nat,
    steps R (fetchChanges_loop dbUrl options JSON_parse world retryCount).
Proof.
  intros Hpass.
  induction world as [|a world IH]; intros retryCount s; cbn [fetchChanges_loop].
  - destruct (aborted s); apply R_refl.
  - destruct (aborted s); [apply R_refl|].
    pose proof (Hpass a s) as Ht.
    destruct (ctl (try_block dbUrl options JSON_parse a s)) as [u|[|error| |]];
      cbn [st evs]; try exact Ht.
    + eapply R_trans; [exact Ht | apply IH].
    + pose proof (steps_catch_block a retryCount error
                    (st (try_block dbUrl options JSON_parse a s))) as Hc.
      destruct (ctl (catch_block options a retryCount error
                       (st (try_block dbUrl options JSON_parse a s))))
        as [rc|b]; cbn [st evs].
      * eapply R_trans; [exact Ht|].
        eapply R_trans; [exact Hc | apply IH].
      * eapply R_trans; [exact Ht | exact Hc].
Qed.

End Steps.

Lemma Forall_pass_no_sleeps (tr : list Event) :
  Forall pass_event tr -> sleeps tr = [].
Proof.
  induction 1 as [|e tr He _ IH]; [reflexivity|].
  destruct e; cbn in *; try exact IH; contradiction.
Qed.

Lemma try_block_no_sleeps (dbUrl : string) (o : CouchDBChangesOptions)
  (JSON_parse : Text -> option CouchDBChange) (a : Attempt) (s : State) :
  sleeps (evs (try_block dbUrl o JSON_parse a s)) = [].
Proof.
  apply Forall_pass_no_sleeps.
  apply (steps_try_block dbUrl o JSON_parse (fun _ tr _ => Forall pass_event tr)).
  - constructor.
  - intros. apply Forall_app. auto.
  - repeat constructor.
  - repeat constructor.
  - repeat constructor.
  - intros s0 c. rewrite record_step.
    destruct (consumer s0) as [|[] k]; repeat constructor.
  - repeat constructor.
Qed.

(** ** The [catch] block *)

Lemma catch_block_cases (o : CouchDBChangesOptions) (a : Attempt)
  (retryCount : nat) (error : Error) (s : State) :
  catch_block o a retryCount error s
  = if aborted s then mkRes (inr Return_) s []
    else if live o then
      mkRes (inl (S retryCount)) (if abort_in_sleep a then stop s else s)
        (EvTimerSet (delay (S retryCount) (random a))
         :: (if abort_in_sleep a then [EvStop] else []) ++ [EvTimerFired])
    else mkRes (inr (Throw error)) s [].
Proof.
  unfold catch_block.
  rewrite (bind_ok _ _ s s) by reflexivity. cbn [get st evs ctl app].
  destruct (aborted s); [reflexivity|].
  destruct (live o); [|reflexivity].
  unfold bind, emit, external_stop, ret.
  destruct (abort_in_sleep a); reflexivity.
Qed.

(** ** Backoff *)

Lemma nearest_even_le (n d K : Z) :
  0 < d -> n <= K * d -> nearest_even n d <= K.
Proof.
  intros Hd H. unfold nearest_even.
  pose proof (Z.div_mod n d ltac:(lia)) as E.
  pose proof (Z.mod_pos_bound n d Hd) as B.
  assert (F : n / d <= K) by (apply Z.div_le_upper_bound; lia).
  assert (G : 0 < n mod d -> n / d + 1 <= K) by nia.
  destruct (Z.compare_spec (2 * (n mod d)) d);
    [destruct (Z.even (n / d))| |]; lia.
Qed.

Lemma nearest_even_ge (n d K : Z) :
  0 < d -> K * d <= n -> K <= nearest_even n d.
Proof.
  intros Hd H. unfold nearest_even.
  assert (F : K <= n / d) by (apply Z.div_le_lower_bound; lia).
  destruct (Z.compare_spec (2 * (n mod d)) d);
    [destruct (Z.even (n / d))| |]; lia.
Qed.

Lemma floor_log2_below (x : Q) :
  0 < Qnum x -> 0 <= floor_log2 x ->
  Z.pos (Qden x) * 2 ^ floor_log2 x <= Qnum x.
Proof.
  intros Hn. unfold floor_log2.
  set (n := Qnum x) in *. set (d := Z.pos (Qden x)).
  set (k := Z.log2 n - Z.log2 d).
  assert (Hd : 0 < d) by (subst d; lia).
  destruct (if 0 <=? k then d * 2 ^ k <=? n else d <=? n * 2 ^ (- k)) eqn:T.
  - intros Hk. destruct (Z.leb_spec 0 k); [|lia].
    apply Z.leb_le in T. exact T.
  - intros Hk.
    pose proof (Z.log2_spec n Hn) as [L1 _].
    pose proof (Z.log2_spec d Hd) as [_ L2].
    pose proof (Z.log2_nonneg d) as L3.
    assert (E : 2 ^ Z.log2 n = 2 ^ (k - 1) * 2 ^ Z.succ (Z.log2 d)).
    { rewrite <- Z.pow_add_r by lia. f_equal. subst k. lia. }
    assert (0 < 2 ^ (k - 1)) by (apply Z.pow_pos_nonneg; lia).
    nia.
Qed.

Lemma floor_log2_small (x : Q) :
  0 < Qnum x -> (x < inject_Z (2 ^ 53))%Q -> floor_log2 x <= 52.
Proof.
  intros Hn Hx. destruct (Z.le_gt_cases (floor_log2 x) 52) as [H|H]; [exact H|].
  exfalso. pose proof (floor_log2_below x Hn ltac:(lia)) as B.
  unfold Qlt in Hx. cbn [Qnum Qden inject_Z] in Hx.
  assert (2 ^ 53 <= 2 ^ floor_log2 x) by (apply Z.pow_le_mono_r; lia).
  nia.
Qed.

Lemma round64_pos_bounds (x : Q) (N : Z) :
  0 < Qnum x -> (x < inject_Z (2 ^ 53))%Q ->
  ((x <= inject_Z N)%Q -> (round64_pos x <= inject_Z N)%Q)
  /\ ((inject_Z N <= x)%Q -> (inject_Z N <= round64_pos x)%Q).
Proof.
  intros Hn Hx. pose proof (floor_log2_small x Hn Hx) as He.
  unfold round64_pos.
  set (q := Z.max (floor_log2 x - 52) (-1074)).
  assert (Hq : q <= 0) by (subst q; lia).
  destruct (Z.leb_spec 0 q) as [Hq0|Hq0].
  - replace q with 0 by lia.
    rewrite Z.pow_0_r, !Z.mul_1_r.
    split; intros H; rewrite <- Zle_Qle; unfold Qle in H;
      cbn [Qnum Qden inject_Z] in H.
    + apply nearest_even_le; lia.
    + apply nearest_even_ge; lia.
  - assert (Hp : 0 < 2 ^ (- q)) by (apply Z.pow_pos_nonneg; lia).
    split; intros H; rewrite Qred_correct; unfold Qle in *;
      cbn [Qnum Qden inject_Z] in *; rewrite Z2Pos.id by exact Hp.
    + rewrite Z.mul_1_r. apply nearest_even_le; [lia|]. nia.
    + rewrite Z.mul_1_r. apply nearest_even_ge; [lia|]. nia.
Qed.

(** Rounding does not cross an integer: below [2^53] every integer is a
    binary64 value. *)
Lemma round64_bounds (x : Q) (N : Z) :
  (0 <= x)%Q -> (x < inject_Z (2 ^ 53))%Q ->
  ((x <= inject_Z N)%Q -> (round64 x <= inject_Z N)%Q)
  /\ ((inject_Z N <= x)%Q -> (inject_Z N <= round64 x)%Q).
Proof.
  intros H0 Hx. unfold round64.
  destruct (Qnum x) as [|p|p] eqn:En.
  - assert (E : (x == 0)%Q) by (unfold Qeq; cbn; lia).
    rewrite E. tauto.
  - apply round64_pos_bounds; [lia | exact Hx].
  - unfold Qle in H0. cbn in H0. lia.
Qed.

(** [round64] where its value is well known: the number written [0.1];
    the sum [0.1 + 0.2], which is not the number written [0.3]; and the
    integers next above [2^53], where a tie goes to the even
    significand. *)
Example round64_samples :
  round64 (1 # 10) = 3602879701896397 # 36028797018963968
  /\ round64 (round64 (1 # 10) + round64 (2 # 10))
     = 1351079888211149 # 4503599627370496
  /\ round64 (3 # 10) = 5404319552844595 # 18014398509481984
  /\ round64 (inject_Z (2 ^ 53 + 1)) = inject_Z (2 ^ 53)
  /\ round64 (inject_Z (2 ^ 53 + 3)) = inject_Z (2 ^ 53 + 4).
Proof. repeat split; vm_compute; reflexivity. Qed.

Lemma jitter_range (r : Q) :
  (0 <= r)%Q -> (r < 1)%Q ->
  (0 <= jitter r)%Q /\ (jitter r <= inject_Z 100)%Q.
Proof.
  intros H0 H1. unfold jitter.
  assert (A0 : (0 <= r * inject_Z 100)%Q).
  { destruct r as [n d]. unfold Qle, Qmult, inject_Z in *. cbn in *. lia. }
  assert (A1 : (r * inject_Z 100 <= inject_Z 100)%Q).
  { destruct r as [n d]. unfold Qle, Qlt, Qmult, inject_Z in *. cbn in *. lia. }
  assert (A2 : (r * inject_Z 100 < inject_Z (2 ^ 53))%Q).
  { eapply Qle_lt_trans; [exact A1|]. rewrite <- Zlt_Qlt. lia. }
  split.
  - apply (proj2 (round64_bounds _ 0 A0 A2)). exact A0.
  - apply (proj1 (round64_bounds _ 100 A0 A2)). exact A1.
Qed.

Lemma delay_range (retryCount : nat) (r : Q) :
  (0 <= r)%Q -> (r < 1)%Q ->
  (inject_Z (backoff retryCount) <= delay retryCount r)%Q
  /\ (delay retryCount r <= inject_Z (backoff retryCount + 100))%Q.
Proof.
  intros H0 H1. destruct (jitter_range r H0 H1) as [J0 J1].
  unfold delay.
  assert (B0 : 0 <= backoff retryCount <= 30000).
  { unfold backoff. assert (0 < 2 ^ Z.of_nat retryCount)
      by (apply Z.pow_pos_nonneg; lia). lia. }
  assert (A0 : (inject_Z (backoff retryCount)
                <= inject_Z (backoff retryCount) + jitter r)%Q).
  { rewrite <- (Qplus_0_r (inject_Z (backoff retryCount))) at 1.
    apply Qplus_le_compat; [apply Qle_refl | exact J0]. }
  assert (A1 : (inject_Z (backoff retryCount) + jitter r
                <= inject_Z (backoff retryCount + 100))%Q).
  { rewrite inject_Z_plus.
    apply Qplus_le_compat; [apply Qle_refl | exact J1]. }
  assert (A2 : (0 <= inject_Z (backoff retryCount) + jitter r)%Q).
  { eapply Qle_trans; [|exact A0]. rewrite <- (Zle_Qle 0). lia. }
  assert (A3 : (inject_Z (backoff retryCount) + jitter r < inject_Z (2 ^ 53))%Q).
  { eapply Qle_lt_trans; [exact A1|]. rewrite <- Zlt_Qlt. lia. }
  split.
  - apply (proj2 (round64_bounds _ _ A2 A3)). exact A0.
  - apply (proj1 (round64_bounds _ _ A2 A3)). exact A1.
Qed.

Section Backoff.

Variable dbUrl : string.
Variable options : CouchDBChangesOptions.
Variable JSON_parse : Text -> option CouchDBChange.






End Backoff.

(** ** Lines *)

Lemma indexOf_from_range (t : Text) :
  forall (from : nat) (pos : Z),
    indexOf_from t from pos = -1
    \/ pos + Z.of_nat from <= indexOf_from t from pos.
Proof.
  induction t as [|c t IH]; intros from pos; cbn [indexOf_from].
  - left; reflexivity.
  - destruct from as [|from].
    + destruct (c =? newline).
      * right; lia.
      * destruct (IH O (pos + 1)) as [H|H]; [left; exact H | right; lia].
    + destruct (IH from (pos + 1)) as [H|H]; [left; exact H | right; lia].
Qed.

(** In the [catch] of a line that does not parse, the test
    [buffer.indexOf("\n", newlineIndex)] is on a number that is never [0]:
    the line is not empty, so the search starts past the first index. *)
Lemma indexOf_truthy (buffer : Text) (newlineIndex : nat) :
  (0 < newlineIndex)%nat ->
  truthy_number (indexOf buffer newlineIndex) = true.
Proof.
  intros H. unfold truthy_number, indexOf.
  destruct (indexOf_from_range buffer newlineIndex 0) as [E|E].
  - rewrite E. reflexivity.
  - destruct (Z.eqb_spec (indexOf_from buffer newlineIndex 0) 0); [lia | reflexivity].
Qed.

Lemma trimStart_nonempty_raw (t : Text) : is_empty (trimStart t) = false -> t <> [].
Proof. intros H E. subst t. discriminate. Qed.

Lemma trim_nonempty_raw (t : Text) :
  is_empty (trim t) = false -> (0 < List.length t)%nat.
Proof.
  intros H. destruct t as [|c t]; [discriminate | cbn; lia].
Qed.

Lemma skipn_nonempty_raw (n : nat) (t : Text) :
  is_empty (trim (skipn n t)) = false -> is_empty t = false.
Proof.
  intros H. destruct t; [|reflexivity]. rewrite skipn_nil in H. discriminate.
Qed.

Lemma split_lines_line (l rest : Text) :
  ~ In newline l ->
  split_lines (l ++ newline :: rest)
  = (l :: fst (split_lines rest), snd (split_lines rest)).
Proof.
  induction l as [|c l IH]; intros Hl.
  - cbn. destruct (split_lines rest); reflexivity.
  - cbn [app split_lines]. rewrite IH by (intros H; apply Hl; right; exact H).
    destruct (Z.eqb_spec c newline) as [E|E].
    + exfalso. apply Hl. left. exact E.
    + reflexivity.
Qed.

Lemma trimStart_idempotent (t : Text) : trimStart (trimStart t) = trimStart t.
Proof.
  induction t as [|c t IH]; [reflexivity|].
  cbn [trimStart]. destruct (is_space c) eqn:E; [exact IH|].
  cbn [trimStart]. rewrite E. reflexivity.
Qed.

Lemma trimStart_snoc (t : Text) (c : Z) :
  is_space c = false -> exists z, trimStart (t ++ [c]) = z ++ [c].
Proof.
  intros Hc. induction t as [|d t [z IH]]; cbn [app trimStart].
  - rewrite Hc. exists []. reflexivity.
  - destruct (is_space d).
    + exists z. exact IH.
    + exists (d :: t). reflexivity.
Qed.

Lemma trim_idempotent (t : Text) : trim (trim t) = trim t.
Proof.
  unfold trim.
  assert (H : trimStart (rev (trimStart (rev (trimStart t))))
              = rev (trimStart (rev (trimStart t)))).
  { destruct (trimStart t) as [|c y] eqn:E; [reflexivity|].
    assert (Hc : is_space c = false).
    { destruct (is_space c) eqn:Hs; [|reflexivity].
      pose proof (trimStart_idempotent t) as Hi. rewrite E in Hi.
      cbn [trimStart] in Hi. rewrite Hs in Hi.
      assert (Hlen : (List.length (trimStart y) <= List.length y)%nat).
      { clear. induction y as [|d y IH]; cbn; [lia|].
        destruct (is_space d); cbn; lia. }
      rewrite Hi in Hlen. cbn in Hlen. lia. }
    cbn [rev]. destruct (trimStart_snoc (rev y) c Hc) as [z Hz].
    rewrite Hz, rev_app_distr. cbn [rev app trimStart]. rewrite Hc. reflexivity. }
  rewrite H, rev_involutive, trimStart_idempotent. reflexivity.
Qed.

(** ** Errors *)

Lemma resetHeartbeat_ok (o : CouchDBChangesOptions) (s : State) :
  ctl (resetHeartbeat o s) = inl tt
  /\ st (resetHeartbeat o s) = s
  /\ without_heartbeat (evs (resetHeartbeat o s)) = [].
Proof. unfold resetHeartbeat. destruct (usesHeartbeat o); cbn; auto. Qed.

Lemma yields_without_heartbeat (tr : list Event) :
  yields (without_heartbeat tr) = yields tr.
Proof.
  unfold yields, without_heartbeat.
  induction tr as [|e tr IH]; [reflexivity|].
  destruct e; cbn; rewrite ?IH; reflexivity.
Qed.

Lemma requests_without_heartbeat (tr : list Event) :
  requests (without_heartbeat tr) = requests tr.
Proof.
  unfold requests, without_heartbeat.
  induction tr as [|e tr IH]; [reflexivity|].
  destruct e; cbn; rewrite ?IH; reflexivity.
Qed.

Lemma without_heartbeat_app (a b : list Event) :
  without_heartbeat (a ++ b) = without_heartbeat a ++ without_heartbeat b.
Proof. apply filter_app. Qed.

Lemma continuous_modes (o : CouchDBChangesOptions) :
  isContinuous o = true ->
  isNormal o = false /\ isLongpoll o = false /\ isEventsource o = false.
Proof.
  unfold isContinuous, isNormal, isLongpoll, isEventsource.
  destruct (get_feed o) as [[]|]; intros; try discriminate; auto.
Qed.

Section Errors.

Variable dbUrl : string.
Variable options : CouchDBChangesOptions.
Variable JSON_parse : Text -> option CouchDBChange.

Lemma lines_loop_valid_then_malformed (done : bool) (l1 l2 : Text)
  (ls : list Text) (tl : Text) (c : CouchDBChange) (s : State) :
  aborted s = false ->
  hd Next (consumer s) = Next ->
  isEventsource options = false ->
  is_empty (trim l1) = false -> JSON_parse (trim l1) = Some c ->
  is_empty (trim l2) = false -> JSON_parse (trim l2) = None ->
  exists s',
    lines_loop options JSON_parse done (l1 :: l2 :: ls) tl s
    = mkRes (inr (Throw (ParseError (trim l2)))) s'
        [EvCursor (seq c); EvYield c]
    /\ aborted s' = false.
Proof.
  intros Ha Hk Hes E1 P1 E2 P2.
  cbn [lines_loop]. rewrite Ha, Hes. cbn [andb].
  rewrite trim_idempotent, E1, P1.
  rewrite (bind_ok _ _ s tt) by reflexivity. cbn [set_activeSeq st evs ctl].
  set (s1 := mkState (aborted s) (seq c) (consumer s)).
  assert (Hy : exists s2, yield c s1 = mkRes (inl tt) s2 [EvYield c]
                          /\ aborted s2 = false).
  { unfold yield. subst s1. cbn [consumer aborted activeSeq].
    destruct (consumer s) as [|[] k]; cbn in Hk; try discriminate;
      eexists; (split; [reflexivity|]); exact Ha. }
  destruct Hy as (s2 & Hy & Ha2).
  rewrite (bind_ok _ _ s1 tt) by (rewrite Hy; reflexivity).
  rewrite Hy. cbn [st evs ctl].
  rewrite Ha2. cbn [andb negb].
  rewrite trim_idempotent, E2, P2.
  rewrite indexOf_truthy by (apply trim_nonempty_raw; exact E2).
  cbn. eexists. split; [reflexivity | exact Ha2].
Qed.

(** A malformed line after one valid line, on a continuous feed without
    [live]. *)
Lemma malformed_line_after_valid_line (a : Attempt) (world : list Attempt)
  (s : State) (response : Response) (value : Bytes) (reads : list Read)
  (decoder' : TextDecoder) (l1 l2 rest : Text) (c : CouchDBChange) :
  aborted s = false ->
  live options = false ->
  isContinuous options = true ->
  hd Next (consumer s) = Next ->
  abort_in_fetch a = false ->
  fetch_result a = Resolve response ->
  ok response = true ->
  body response = Some (mkRead false (Chunk value) :: reads) ->
  decode new_TextDecoder value
  = (decoder', l1 ++ newline :: l2 ++ newline :: rest) ->
  ~ In newline l1 -> ~ In newline l2 ->
  is_empty (trim l1) = false -> JSON_parse (trim l1) = Some c ->
  is_empty (trim l2) = false -> JSON_parse (trim l2) = None ->
  exists s' tr,
    asyncIterator dbUrl options JSON_parse (a :: world) s
    = (Failed (ParseError (trim l2)), s', tr)
    /\ yields tr = [c]
    /\ List.length (requests tr) = 1%nat.
Proof.
  intros Ha Hl Hc Hk Haf Hf Hok Hb Hd N1 N2 E1 P1 E2 P2.
  destruct (continuous_modes options Hc) as (Hn & Hlp & Hes).
  destruct (lines_loop_valid_then_malformed false l1 l2
              (fst (split_lines rest)) (snd (split_lines rest)) c s
              Ha Hk Hes E1 P1 E2 P2) as (s1 & Hll & Ha1).
  destruct (resetHeartbeat_ok options s) as (R1 & R2 & R3).
  assert (Hon : on_read options JSON_parse false new_TextDecoder [] value s
                = mkRes (inr (Throw (ParseError (trim l2)))) s1
                    (evs (resetHeartbeat options s)
                     ++ [EvCursor (seq c); EvYield c])).
  { unfold on_read.
    rewrite (bind_ok _ _ s tt) by exact R1. rewrite R2, Hd.
    cbn [app]. rewrite split_lines_line by exact N1.
    rewrite split_lines_line by exact N2. cbn [fst snd].
    rewrite (bind_abrupt _ _ s (Throw (ParseError (trim l2))))
      by (rewrite Hll; reflexivity).
    rewrite Hll. reflexivity. }
  assert (Hread : read_loop options JSON_parse
                    (mkRead false (Chunk value) :: reads) new_TextDecoder [] s
                  = mkRes (inr (Throw (ParseError (trim l2)))) s1
                      (evs (resetHeartbeat options s)
                       ++ [EvCursor (seq c); EvYield c])).
  { cbn [read_loop]. rewrite Ha. cbn [abort_in_read read_result].
    rewrite (bind_ok _ _ s tt) by reflexivity.
    cbn [external_stop st evs ctl app].
    rewrite (bind_abrupt _ _ s (Throw (ParseError (trim l2))))
      by (rewrite Hon; reflexivity).
    rewrite Hon. reflexivity. }
  assert (Htry : try_block dbUrl options JSON_parse a s
                 = mkRes (inr (Throw (ParseError (trim l2)))) s1
                     (evs (resetHeartbeat options s)
                      ++ EvRequest (buildRequest dbUrl options (activeSeq s))
                      :: evs (resetHeartbeat options s)
                      ++ [EvCursor (seq c); EvYield c])).
  { unfold try_block.
    rewrite (bind_ok _ _ s tt) by exact R1. rewrite R2.
    rewrite (bind_ok _ _ s s) by reflexivity. cbn [get st evs ctl].
    rewrite (bind_ok _ _ s tt) by reflexivity. cbn [emit st evs ctl].
    rewrite Haf.
    rewrite (bind_ok _ _ s tt) by reflexivity. cbn [external_stop st evs ctl].
    rewrite Hf. cbn [await_fetch].
    rewrite (bind_ok _ _ s response) by reflexivity. cbn [ret st evs ctl].
    rewrite Hok, Hn, Hlp, Hb. cbn [negb orb].
    rewrite Hread. cbn [ctl st evs app]. reflexivity. }
  unfold asyncIterator, fetchChanges. cbn [fetchChanges_loop].
  rewrite Ha, Htry. cbn [ctl st evs].
  unfold catch_block.
  rewrite (bind_ok _ _ s1 s1) by reflexivity. cbn [get st evs ctl].
  rewrite Ha1, Hl. cbn [abrupt ctl st evs outcome].
  do 2 eexists. split; [reflexivity|].
  rewrite !app_nil_r, !yields_app, !requests_app.
  cbn [yields requests flat_map app].
  rewrite !yields_app, !requests_app.
  rewrite <- (yields_without_heartbeat (evs (resetHeartbeat options s))).
  rewrite <- (requests_without_heartbeat (evs (resetHeartbeat options s))).
  rewrite R3. cbn. auto.
Qed.

(** C7: when a pass through [try] throws, then (1) with the overall signal
    already aborted the error is dropped and the generator ends without
    one; (2) otherwise, without [live], the generator ends by throwing that
    error, after everything the pass has logged, the records it yielded
    included; (3) otherwise, with [live], the error is not thrown: a
    backoff sleep follows and then the next pass.  In particular (4), on a
    continuous feed without [live], a malformed non-empty line after one
    valid line yields exactly one record and ends the iteration with the
    parse error. *)
Theorem C7_error_policy :
  forall (a : Attempt) (world : list Attempt) (retryCount : nat) (s : State)
         (error : Error) (s1 : State) (tr : list Event),
    aborted s = false ->
    try_block dbUrl options JSON_parse a s = mkRes (inr (Throw error)) s1 tr ->
    let r := fetchChanges_loop dbUrl options JSON_parse (a :: world) retryCount s in
    (aborted s1 = true -> r = mkRes (inr Return_) s1 tr)
    /\ (aborted s1 = false -> live options = false ->
        r = mkRes (inr (Throw error)) s1 tr)
    /\ (aborted s1 = false -> live options = true ->
        let s2 := if abort_in_sleep a then stop s1 else s1 in
        let r' := fetchChanges_loop dbUrl options JSON_parse world
                    (S retryCount) s2 in
        r = mkRes (ctl r') (st r')
              (tr ++ (EvTimerSet (delay (S retryCount) (random a))
                      :: (if abort_in_sleep a then [EvStop] else [])
                      ++ [EvTimerFired]) ++ evs r'))
    /\ (forall (response : Response) (value : Bytes) (reads : list Read)
               (decoder' : TextDecoder) (l1 l2 rest : Text) (c : CouchDBChange),
           live options = false ->
           isContinuous options = true ->
           hd Next (consumer s) = Next ->
           abort_in_fetch a = false ->
           fetch_result a = Resolve response ->
           ok response = true ->
           body response = Some (mkRead false (Chunk value) :: reads) ->
           decode new_TextDecoder value
           = (decoder', l1 ++ newline :: l2 ++ newline :: rest) ->
           ~ In newline l1 -> ~ In newline l2 ->
           is_empty (trim l1) = false -> JSON_parse (trim l1) = Some c ->
           is_empty (trim l2) = false -> JSON_parse (trim l2) = None ->
           exists s' tr',
             asyncIterator dbUrl options JSON_parse (a :: world) s
             = (Failed (ParseError (trim l2)), s', tr')
             /\ yields tr' = [c]).
Proof.
  intros a world retryCount s error s1 tr Ha Htry r.
  subst r. cbn [fetchChanges_loop]. rewrite Ha, Htry. cbn [ctl st evs].
  unfold catch_block.
  rewrite (bind_ok _ _ s1 s1) by reflexivity. cbn [get st evs ctl].
  split; [|split; [|split]].
  - intros Ha1. rewrite Ha1. cbn. rewrite app_nil_r. reflexivity.
  - intros Ha1 Hl. rewrite Ha1, Hl. cbn. rewrite app_nil_r. reflexivity.
  - intros Ha1 Hl. rewrite Ha1, Hl.
    unfold bind, emit, external_stop, ret.
    destruct (abort_in_sleep a); cbn [ctl st evs app]; reflexivity.
  - intros response value reads decoder' l1 l2 rest c
           Hl Hc Hk Haf Hf Hok Hb Hd N1 N2 E1 P1 E2 P2.
    destruct (malformed_line_after_valid_line a world s response value reads
                decoder' l1 l2 rest c Ha Hl Hc Hk Haf Hf Hok Hb Hd N1 N2
                E1 P1 E2 P2) as (s' & tr' & E & Hy & _).
    exists s', tr'. auto.
Qed.

End Errors.

(** ** The read loop, one read at a time *)

Section ReadLoop.

Variable options : CouchDBChangesOptions.
Variable JSON_parse : Text -> option CouchDBChange.

Lemma read_loop_aborted (reader : list Read) (decoder : TextDecoder)
  (buffer : Text) (s : State) :
  aborted s = true ->
  read_loop options JSON_parse reader decoder buffer s = mkRes (inl tt) s [].
Proof. intros H. destruct reader; cbn [read_loop]; rewrite H; reflexivity. Qed.

Lemma read_loop_chunk (r : Read) (reader : list Read) (decoder : TextDecoder)
  (buffer : Text) (s : State) (value : Bytes) :
  aborted s = false ->
  read_result r = Chunk value ->
  read_loop options JSON_parse (r :: reader) decoder buffer s
  = let s0 := if abort_in_read r then stop s else s in
    let pre := if abort_in_read r then [EvStop] else [] in
    let o := on_read options JSON_parse false decoder buffer value s0 in
    match ctl o with
    | inl db =>
        if aborted (st o) then mkRes (inr Return_) (st o) (pre ++ evs o)
        else
          let r' := read_loop options JSON_parse reader (fst db) (snd db) (st o) in
          mkRes (ctl r') (st r') (pre ++ evs o ++ evs r')
    | inr b => mkRes (inr b) (st o) (pre ++ evs o)
    end.
Proof.
  intros Ha Hr. cbn [read_loop]. rewrite Ha, Hr.
  rewrite (bind_ok _ _ s tt)
    by (unfold external_stop; destruct (abort_in_read r); reflexivity).
  replace (st (external_stop (abort_in_read r) s))
    with (if abort_in_read r then stop s else s)
    by (unfold external_stop; destruct (abort_in_read r); reflexivity).
  replace (evs (external_stop (abort_in_read r) s))
    with (if abort_in_read r then [EvStop] else [])
    by (unfold external_stop; destruct (abort_in_read r); reflexivity).
  cbv zeta.
  set (s0 := if abort_in_read r then stop s else s).
  set (pre := if abort_in_read r then [EvStop] else []).
  destruct (ctl (on_read options JSON_parse false decoder buffer value s0))
    as [db|b] eqn:E.
  - rewrite (bind_ok _ _ s0 db E).
    rewrite (bind_ok _ _ _ (st (on_read options JSON_parse false decoder buffer value s0)))
      by reflexivity.
    cbn [get ctl st evs app].
    destruct (aborted (st (on_read options JSON_parse false decoder buffer value s0)));
      cbn [abrupt ctl st evs]; rewrite ?app_nil_r; reflexivity.
  - rewrite (bind_abrupt _ _ s0 b E). reflexivity.
Qed.

Lemma read_loop_done (r : Read) (reader : list Read) (decoder : TextDecoder)
  (buffer : Text) (s : State) :
  aborted s = false ->
  read_result r = Done ->
  read_loop options JSON_parse (r :: reader) decoder buffer s
  = let s0 := if abort_in_read r then stop s else s in
    let pre := if abort_in_read r then [EvStop] else [] in
    let o := on_read options JSON_parse true decoder buffer [] s0 in
    match ctl o with
    | inl _ => mkRes (inr Return_) (st o) (pre ++ evs o)
    | inr b => mkRes (inr b) (st o) (pre ++ evs o)
    end.
Proof.
  intros Ha Hr. cbn [read_loop]. rewrite Ha, Hr.
  rewrite (bind_ok _ _ s tt)
    by (unfold external_stop; destruct (abort_in_read r); reflexivity).
  replace (st (external_stop (abort_in_read r) s))
    with (if abort_in_read r then stop s else s)
    by (unfold external_stop; destruct (abort_in_read r); reflexivity).
  replace (evs (external_stop (abort_in_read r) s))
    with (if abort_in_read r then [EvStop] else [])
    by (unfold external_stop; destruct (abort_in_read r); reflexivity).
  cbv zeta.
  set (s0 := if abort_in_read r then stop s else s).
  set (pre := if abort_in_read r then [EvStop] else []).
  destruct (ctl (on_read options JSON_parse true decoder buffer [] s0))
    as [db|b] eqn:E.
  - rewrite (bind_ok _ _ s0 db E). cbn [abrupt ctl st evs].
    rewrite ?app_nil_r. reflexivity.
  - rewrite (bind_abrupt _ _ s0 b E). reflexivity.
Qed.

End ReadLoop.

(** ** Stopping *)

Lemma has_stop_app (a b : list Event) :
  has_stop (a ++ b) = has_stop a || has_stop b.
Proof. apply existsb_app. Qed.

Lemma abort_log_refl (s : State) : abort_log s [] s.
Proof. unfold abort_log. cbn. rewrite orb_false_r. reflexivity. Qed.

Lemma abort_log_trans (s : State) (a : list Event) (s1 : State)
  (b : list Event) (s2 : State) :
  abort_log s a s1 -> abort_log s1 b s2 -> abort_log s (a ++ b) s2.
Proof.
  unfold abort_log. intros H1 H2.
  rewrite H2, H1, has_stop_app, orb_assoc. reflexivity.
Qed.

Lemma abort_log_yield (s : State) (c : CouchDBChange) :
  abort_log s (evs (yield c s)) (st (yield c s)).
Proof.
  unfold abort_log, yield.
  destruct (consumer s) as [|[] k]; cbn; rewrite ?orb_false_r, ?orb_true_r;
    reflexivity.
Qed.

Lemma abort_log_record (s : State) (c : CouchDBChange) :
  abort_log s (evs ((set_activeSeq (seq c) ;; yield c)%gen s))
    (st ((set_activeSeq (seq c) ;; yield c)%gen s)).
Proof.
  unfold abort_log. rewrite record_step.
  destruct (consumer s) as [|[] k]; cbn; rewrite ?orb_false_r, ?orb_true_r;
    reflexivity.
Qed.

Section AbortLog.

Variable dbUrl : string.
Variable options : CouchDBChangesOptions.
Variable JSON_parse : Text -> option CouchDBChange.

Ltac abort_log_steps :=
  first [ apply abort_log_refl
        | apply abort_log_trans
        | apply abort_log_record
        | intros; unfold abort_log; cbn;
          rewrite ?orb_false_r, ?orb_true_r; reflexivity ].

Lemma abort_log_try_block (a : Attempt) :
  steps abort_log (try_block dbUrl options JSON_parse a).
Proof. apply steps_try_block; abort_log_steps. Qed.

Lemma abort_log_after_request (a : Attempt) :
  steps abort_log
    (external_stop (abort_in_fetch a) ;;
     response <- await_fetch options (fetch_result a) ;;
     if negb (ok response)
     then abrupt (Throw (HttpStatusError (status response) (text response)))
     else if isNormal options || isLongpoll options then batch options response
     else
       match body response with
       | None => abrupt (Throw BodyUnavailableError)
       | Some reader => read_loop options JSON_parse reader new_TextDecoder []
       end)%gen.
Proof. apply steps_after_request; abort_log_steps. Qed.

Lemma abort_log_read_loop (reader : list Read) (decoder : TextDecoder)
  (buffer : Text) :
  steps abort_log (read_loop options JSON_parse reader decoder buffer).
Proof. apply steps_read_loop; abort_log_steps. Qed.

Lemma abort_log_on_read (done : bool) (decoder : TextDecoder) (buffer : Text)
  (value : Bytes) :
  steps abort_log (on_read options JSON_parse done decoder buffer value).
Proof. apply steps_on_read; abort_log_steps. Qed.

Lemma abort_log_lines_loop (done : bool) (lines : list Text) (tail : Text) :
  steps abort_log (lines_loop options JSON_parse done lines tail).
Proof. apply steps_lines_loop; abort_log_steps. Qed.

Lemma abort_log_yield_results (l : list CouchDBChange) :
  steps abort_log (yield_results l).
Proof. apply steps_yield_results; abort_log_steps. Qed.

Lemma abort_log_batch (response : Response) :
  steps abort_log (batch options response).
Proof. apply steps_batch; abort_log_steps. Qed.

Lemma abort_log_catch_block (a : Attempt) (retryCount : nat) (error : Error) :
  steps abort_log (catch_block options a retryCount error).
Proof.
  intros s. unfold abort_log, catch_block.
  rewrite (bind_ok _ _ s s) by reflexivity. cbn [get st evs ctl app].
  destruct (aborted s) eqn:Ha; [cbn; rewrite Ha; reflexivity|].
  destruct (live options); [|cbn; rewrite Ha; reflexivity].
  unfold bind, emit, external_stop, ret.
  destruct (abort_in_sleep a); cbn; rewrite ?Ha; reflexivity.
Qed.

End AbortLog.

Lemma quiet_after_stop_app (strm : bool) (a b : list Event) :
  quiet_after_stop strm a ->
  (has_stop a = true -> Forall (quiet_event strm) b) ->
  quiet_after_stop strm b ->
  quiet_after_stop strm (a ++ b).
Proof.
  induction a as [|e a IH]; intros Ha Hb Hq; [exact Hq|].
  destruct e; cbn [app quiet_after_stop] in *;
    try (apply IH; [exact Ha | exact Hb | exact Hq]).
  apply Forall_app. split; [exact Ha | apply Hb; reflexivity].
Qed.

Lemma quiet_after_stop_split (strm : bool) (tr pre post : list Event) :
  quiet_after_stop strm tr ->
  tr = pre ++ EvStop :: post ->
  Forall (quiet_event strm) post.
Proof.
  revert tr; induction pre as [|e pre IH]; intros tr Hq E; subst tr.
  - exact Hq.
  - destruct e; cbn [app quiet_after_stop] in Hq;
      try (eapply IH; [exact Hq | reflexivity]).
    apply Forall_app in Hq. destruct Hq as [_ Hq].
    inversion Hq; assumption.
Qed.

Lemma quiet_no_stop (strm : bool) (tr : list Event) :
  has_stop tr = false -> quiet_after_stop strm tr.
Proof.
  induction tr as [|e tr IH]; intros H; [exact I|].
  destruct e; cbn in *; try (apply IH; exact H). discriminate.
Qed.

Lemma hushed_ret (strm : bool) {A} (a : A) : hushed strm (ret a).
Proof. intros s. split; [constructor | exact I]. Qed.

Lemma hushed_abrupt (strm : bool) {A} (b : Abrupt) : hushed strm (@abrupt A b).
Proof. intros s. split; [constructor | exact I]. Qed.

Lemma hushed_get (strm : bool) : hushed strm get.
Proof. intros s. split; [constructor | exact I]. Qed.

Lemma hushed_external_stop (strm : bool) (b : bool) :
  hushed strm (external_stop b).
Proof.
  intros s. unfold external_stop.
  destruct b; cbn; split; repeat constructor.
Qed.

Lemma hushed_bind (strm : bool) {A B} (m : M A) (f : A -> M B) :
  steps abort_log m ->
  hushed strm m -> (forall a, hushed strm (f a)) -> hushed strm (bind m f).
Proof.
  intros Hl Hm Hf s. unfold bind.
  destruct (Hm s) as [Hm1 Hm2]. pose proof (Hl s) as Ha. unfold abort_log in Ha.
  destruct (ctl (m s)) as [a|b]; cbn [evs]; [|split; assumption].
  destruct (Hf a (st (m s))) as [Hf1 Hf2].
  split.
  - intros Hs. apply Forall_app. split; [apply Hm1; exact Hs|].
    apply Hf1. rewrite Ha, Hs. reflexivity.
  - apply quiet_after_stop_app; [exact Hm2 | | exact Hf2].
    intros Hst. apply Hf1. rewrite Ha, Hst. apply orb_true_r.
Qed.

Section Stop.

Variable dbUrl : string.
Variable options : CouchDBChangesOptions.
Variable JSON_parse : Text -> option CouchDBChange.

Lemma hushed_resetHeartbeat (strm : bool) : hushed strm (resetHeartbeat options).
Proof.
  unfold resetHeartbeat. destruct (usesHeartbeat options); cbn.
  - intros s. split; repeat constructor.
  - apply hushed_ret.
Qed.

Lemma hushed_stalled (strm : bool) {A} : hushed strm (@stalled options A).
Proof.
  intros s. unfold stalled.
  destruct (usesHeartbeat options && negb (aborted s)); apply hushed_abrupt.
Qed.

(** The line loop tests the signal before it takes a line: once aborted it
    logs nothing more. *)
Lemma lines_loop_aborted (done : bool) (lines : list Text) (tail : Text)
  (s : State) :
  aborted s = true ->
  evs (lines_loop options JSON_parse done lines tail s) = [].
Proof. intros H. destruct lines; cbn [lines_loop]; [|rewrite H]; reflexivity. Qed.

Lemma hushed_lines_loop (strm : bool) (done : bool) (lines : list Text)
  (tail : Text) : hushed strm (lines_loop options JSON_parse done lines tail).
Proof.
  intros s. split.
  - intros H. rewrite lines_loop_aborted by exact H. constructor.
  - revert s. induction lines as [|raw lines IH]; intros s; cbn [lines_loop].
    + exact I.
    + destruct (aborted s) eqn:Ha; [exact I|].
      destruct (isEventsource options && startsWith (trim raw) (text_of_string "event:"));
        [apply IH|].
      match goal with |- context [is_empty ?x] => destruct (is_empty x) end.
      * destruct done; [exact I | apply IH].
      * match goal with |- context [JSON_parse ?x] => destruct (JSON_parse x) as [c|] end.
        -- unfold bind at 1. cbn [set_activeSeq ctl st evs app quiet_after_stop].
           unfold bind. unfold yield at 1 2 3 4. cbn [consumer aborted activeSeq].
           destruct (consumer s) as [|[] k]; cbn [ctl st evs app quiet_after_stop];
             try apply IH; try exact I.
           rewrite lines_loop_aborted by reflexivity. constructor.
        -- cbn [negb andb].
           match goal with |- context [truthy_number ?x] => destruct (truthy_number x) end;
             [exact I | apply IH].
Qed.

Lemma hushed_on_read (strm : bool) (done : bool) (decoder : TextDecoder)
  (buffer : Text) (value : Bytes) :
  hushed strm (on_read options JSON_parse done decoder buffer value).
Proof.
  unfold on_read.
  apply hushed_bind;
    [apply steps_resetHeartbeat; intros; unfold abort_log; cbn;
       rewrite ?orb_false_r; reflexivity
    | apply hushed_resetHeartbeat | intros _].
  destruct (decode decoder value) as [d t].
  destruct (split_lines (buffer ++ t)) as [ls tl].
  apply hushed_bind;
    [apply abort_log_lines_loop | apply hushed_lines_loop
    | intros b; apply hushed_ret].
Qed.

Lemma hushed_read_loop (strm : bool) (reader : list Read) :
  forall (decoder : TextDecoder) (buffer : Text),
    hushed strm (read_loop options JSON_parse reader decoder buffer).
Proof.
  induction reader as [|r reader IH]; intros decoder buffer s; cbn [read_loop];
    (destruct (aborted s) eqn:Ha;
     [split; [intros _; cbn; apply Forall_nil | exact I]
     |split; [discriminate|]]).
  - exact (proj2 (hushed_stalled strm s)).
  - match goal with
    | |- quiet_after_stop _ (evs (?m s)) => assert (Hc : hushed strm m)
    end; [|exact (proj2 (Hc s))].
    apply hushed_bind;
      [apply steps_external_stop; intros; unfold abort_log; cbn;
         rewrite ?orb_false_r, ?orb_true_r; reflexivity
      | apply hushed_external_stop | intros _].
    destruct (read_result r).
    + apply hushed_bind;
        [apply abort_log_on_read | apply hushed_on_read | intros db].
      apply hushed_bind;
        [intros s0; apply abort_log_refl | apply hushed_get | intros s'].
      destruct (aborted s'); [apply hushed_abrupt | apply IH].
    + apply hushed_bind;
        [apply abort_log_on_read | apply hushed_on_read
        | intros _; apply hushed_abrupt].
    + apply hushed_abrupt.
    + apply hushed_stalled.
Qed.

(** A batch is yielded to its end whether or not the signal is aborted:
    only on a streaming feed do records count against quiet. *)
Lemma hushed_yield_results (l : list CouchDBChange) :
  hushed false (yield_results l).
Proof.
  induction l as [|c l IH]; cbn [yield_results].
  - apply hushed_ret.
  - apply hushed_bind;
      [intros s; unfold abort_log; cbn;
         rewrite ?orb_false_r; reflexivity
      | intros s; split; repeat constructor | intros _].
    apply hushed_bind; [intros s; apply abort_log_yield | | intros _; exact IH].
    intros s. unfold yield.
    destruct (consumer s) as [|[] k]; cbn; split; repeat constructor.
Qed.

Lemma hushed_batch (response : Response) : hushed false (batch options response).
Proof.
  unfold batch. destruct (json response) as [data|]; [|apply hushed_abrupt].
  apply hushed_bind;
    [apply abort_log_yield_results | apply hushed_yield_results | intros _].
  apply hushed_bind.
  - destruct (truthy_seq (last_seq data)); [|intros s; apply abort_log_refl].
    intros s. unfold abort_log. cbn. rewrite orb_false_r. reflexivity.
  - destruct (truthy_seq (last_seq data)); [|apply hushed_ret].
    intros s; split; repeat constructor.
  - intros _. apply hushed_bind;
      [intros s; apply abort_log_refl | apply hushed_get | intros s].
    destruct (isLongpoll options && negb (aborted s));
      [apply hushed_ret | apply hushed_abrupt].
Qed.

Lemma hushed_after_request (a : Attempt) :
  hushed (streaming options)
    (external_stop (abort_in_fetch a) ;;
     response <- await_fetch options (fetch_result a) ;;
     if negb (ok response)
     then abrupt (Throw (HttpStatusError (status response) (text response)))
     else if isNormal options || isLongpoll options then batch options response
     else
       match body response with
       | None => abrupt (Throw BodyUnavailableError)
       | Some reader => read_loop options JSON_parse reader new_TextDecoder []
       end)%gen.
Proof.
  apply hushed_bind;
    [apply steps_external_stop; intros; unfold abort_log; cbn;
       rewrite ?orb_false_r, ?orb_true_r; reflexivity
    | apply hushed_external_stop | intros _].
  apply hushed_bind.
  - destruct (fetch_result a); cbn [await_fetch]; intros s;
      try apply abort_log_refl.
    unfold stalled. destruct (usesHeartbeat options && negb (aborted s)); apply abort_log_refl.
  - destruct (fetch_result a); cbn [await_fetch];
      [apply hushed_ret | apply hushed_abrupt | apply hushed_stalled].
  - intros response.
    destruct (negb (ok response)); [apply hushed_abrupt|].
    unfold streaming.
    destruct (isNormal options || isLongpoll options); cbn [negb];
      [apply hushed_batch|].
    destruct (body response); [apply hushed_read_loop | apply hushed_abrupt].
Qed.

Lemma try_block_shape (a : Attempt) (s : State) :
  exists hb rest,
    evs (try_block dbUrl options JSON_parse a s)
    = hb ++ EvRequest (buildRequest dbUrl options (activeSeq s)) :: rest
    /\ has_stop hb = false
    /\ requests hb = []
    /\ quiet_after_stop (streaming options) rest.
Proof.
  unfold try_block.
  destruct (resetHeartbeat_ok options s) as (R1 & R2 & R3).
  rewrite (bind_ok _ _ s tt) by exact R1. rewrite R2.
  rewrite (bind_ok _ _ s s) by reflexivity. cbn [get st evs ctl app].
  unfold bind at 1. cbn [emit ctl st evs app].
  eexists _, _. split; [reflexivity|].
  split; [|split].
  - unfold resetHeartbeat. destruct (usesHeartbeat options); reflexivity.
  - unfold resetHeartbeat. destruct (usesHeartbeat options); reflexivity.
  - apply hushed_after_request.
Qed.

Lemma try_block_quiet_after_stop (a : Attempt) (s : State) :
  quiet_after_stop (streaming options)
    (evs (try_block dbUrl options JSON_parse a s)).
Proof.
  destruct (try_block_shape a s) as (hb & rest & E & Hs & _ & Hq).
  rewrite E. apply quiet_after_stop_app.
  - apply quiet_no_stop. exact Hs.
  - rewrite Hs. discriminate.
  - exact Hq.
Qed.

Lemma fetchChanges_loop_hushed (world : list Attempt) :
  forall (retryCount : nat),
    hushed (streaming options)
      (fetchChanges_loop dbUrl options JSON_parse world retryCount).
Proof.
  induction world as [|a world IH]; intros retryCount s; cbn [fetchChanges_loop].
  - destruct (aborted s); (split; [intros _; cbn; apply Forall_nil | exact I]).
  - destruct (aborted s) eqn:Ha;
      [split; [intros _; cbn; apply Forall_nil | exact I]|].
    split; [discriminate|].
    pose proof (try_block_quiet_after_stop a s) as Hq.
    pose proof (abort_log_try_block dbUrl options JSON_parse a s) as Hl.
    unfold abort_log in Hl. rewrite Ha in Hl. cbn [orb] in Hl.
    destruct (ctl (try_block dbUrl options JSON_parse a s)) as [u|[|error| |]];
      cbn [evs]; try exact Hq.
    + apply quiet_after_stop_app; [exact Hq | | apply IH].
      intros Hs. apply IH. rewrite Hl. exact Hs.
    + set (s1 := st (try_block dbUrl options JSON_parse a s)) in *.
      rewrite catch_block_cases.
      destruct (aborted s1) eqn:Ha1.
      * cbn. rewrite app_nil_r. exact Hq.
      * destruct (live options); [|cbn; rewrite app_nil_r; exact Hq].
        cbn [ctl st evs].
        apply quiet_after_stop_app; [exact Hq | rewrite <- Hl; discriminate|].
        destruct (abort_in_sleep a); cbn [ctl st evs app quiet_after_stop].
        -- constructor; [exact I|]. apply IH. reflexivity.
        -- apply IH.
Qed.

(** A generator that throws has not seen a stop. *)
Lemma fetchChanges_loop_throw_no_stop (world : list Attempt) :
  forall (retryCount : nat) (s : State) (e : Error),
    aborted s = false ->
    ctl (fetchChanges_loop dbUrl options JSON_parse world retryCount s)
    = inr (Throw e) ->
    has_stop (evs (fetchChanges_loop dbUrl options JSON_parse world retryCount s))
    = false.
Proof.
  induction world as [|a world IH]; intros retryCount s e Ha;
    cbn [fetchChanges_loop]; rewrite Ha; [discriminate|].
  pose proof (abort_log_try_block dbUrl options JSON_parse a s) as Hl.
  unfold abort_log in Hl. rewrite Ha in Hl. cbn [orb] in Hl.
  destruct (ctl (try_block dbUrl options JSON_parse a s)) as [u|[|error| |]];
    cbn [ctl evs]; try discriminate.
  - set (s1 := st (try_block dbUrl options JSON_parse a s)) in *.
    destruct (aborted s1) eqn:Ha1.
    + rewrite fetchChanges_loop_aborted by exact Ha1. discriminate.
    + intros H. rewrite has_stop_app, <- Hl. cbn [orb].
      eapply IH; [exact Ha1 | exact H].
  - set (s1 := st (try_block dbUrl options JSON_parse a s)) in *.
    rewrite catch_block_cases.
    destruct (aborted s1) eqn:Ha1; [discriminate|].
    destruct (live options); cbn [ctl st evs].
    + destruct (abort_in_sleep a).
      * rewrite fetchChanges_loop_aborted by reflexivity. discriminate.
      * intros H. rewrite !has_stop_app, <- Hl. cbn [orb app has_stop existsb is_stop].
        eapply IH; [exact Ha1 | exact H].
    + intros _. rewrite app_nil_r. symmetry. exact Hl.
Qed.

(** *** A stop by the consumer ends a streaming feed *)

Lemma lines_loop_aborted_ctl (done : bool) (lines : list Text) (tail : Text)
  (s : State) :
  aborted s = true ->
  (exists t, ctl (lines_loop options JSON_parse done lines tail s) = inl t)
  \/ ctl (lines_loop options JSON_parse done lines tail s) = inr Return_.
Proof.
  intros H. destruct lines; cbn [lines_loop].
  - left. eexists. reflexivity.
  - rewrite H. right. reflexivity.
Qed.

Lemma lines_loop_stop_ctl (done : bool) (lines : list Text) (tail : Text) :
  forall s : State,
    has_stop (evs (lines_loop options JSON_parse done lines tail s)) = true ->
    (exists t, ctl (lines_loop options JSON_parse done lines tail s) = inl t)
    \/ ctl (lines_loop options JSON_parse done lines tail s) = inr Return_.
Proof.
  induction lines as [|raw lines IH]; intros s; cbn [lines_loop].
  - left. eexists. reflexivity.
  - destruct (aborted s) eqn:Ha; [right; reflexivity|].
    destruct (isEventsource options && startsWith (trim raw) (text_of_string "event:"));
      [apply IH|].
    match goal with |- context [is_empty ?x] => destruct (is_empty x) end.
    + destruct done; [right; reflexivity | apply IH].
    + match goal with |- context [JSON_parse ?x] => destruct (JSON_parse x) as [c|] end.
      * rewrite cursor_yield_then.
        destruct (consumer s) as [|[] k];
          cbn [ctl st evs app has_stop existsb is_stop orb];
          try apply IH; try discriminate.
        intros _. apply lines_loop_aborted_ctl. reflexivity.
      * cbn [negb andb].
        match goal with |- context [truthy_number ?x] => destruct (truthy_number x) end;
          [discriminate | apply IH].
Qed.

Lemma on_read_stop_ctl (done : bool) (decoder : TextDecoder) (buffer : Text)
  (value : Bytes) (s : State) :
  has_stop (evs (on_read options JSON_parse done decoder buffer value s)) = true ->
  (exists t, ctl (on_read options JSON_parse done decoder buffer value s) = inl t)
  \/ ctl (on_read options JSON_parse done decoder buffer value s) = inr Return_.
Proof.
  unfold on_read.
  destruct (resetHeartbeat_ok options s) as (R1 & R2 & R3).
  rewrite (bind_ok _ _ s tt) by exact R1. rewrite R2.
  destruct (decode decoder value) as [d t].
  destruct (split_lines (buffer ++ t)) as [ls tl].
  cbn [ctl evs]. rewrite has_stop_app.
  replace (has_stop (evs (resetHeartbeat options s))) with false
    by (unfold resetHeartbeat; destruct (usesHeartbeat options); reflexivity).
  cbn [orb]. unfold bind.
  pose proof (lines_loop_stop_ctl false ls tl s) as H0.
  pose proof (lines_loop_stop_ctl true ls tl s) as H1.
  destruct done;
    [destruct (ctl (lines_loop options JSON_parse true ls tl s)) eqn:E
    |destruct (ctl (lines_loop options JSON_parse false ls tl s)) eqn:E];
    cbn [ctl evs ret]; rewrite ?app_nil_r; intros Hs;
    try (left; eexists; reflexivity);
    [destruct (H1 Hs) as [[t' Ht]|Ht] | destruct (H0 Hs) as [[t' Ht]|Ht]];
    try discriminate; right; congruence.
Qed.

Lemma read_loop_stop_returns (reader : list Read) :
  forall (decoder : TextDecoder) (buffer : Text) (s : State),
    aborted s = false ->
    reads_unaborted reader = true ->
    has_stop (evs (read_loop options JSON_parse reader decoder buffer s)) = true ->
    ctl (read_loop options JSON_parse reader decoder buffer s) = inr Return_.
Proof.
  induction reader as [|r reader IH]; intros decoder buffer s Ha Hr.
  - cbn [read_loop]. rewrite Ha.
    unfold stalled. destruct (usesHeartbeat options && negb (aborted s));
      discriminate.
  - cbn [reads_unaborted forallb] in Hr. apply andb_true_iff in Hr.
    destruct Hr as [Hr0 Hr]. apply negb_true_iff in Hr0.
    destruct (read_result r) as [value| |e|] eqn:Er.
    + rewrite (read_loop_chunk options JSON_parse r reader decoder buffer s value Ha Er).
      rewrite Hr0. cbv zeta. cbn [app].
      pose proof (on_read_stop_ctl false decoder buffer value s) as Hon.
      pose proof (abort_log_on_read options JSON_parse false decoder buffer value s) as Hl.
      unfold abort_log in Hl. rewrite Ha in Hl. cbn [orb] in Hl.
      destruct (ctl (on_read options JSON_parse false decoder buffer value s))
        as [db|b] eqn:E.
      * destruct (aborted (st (on_read options JSON_parse false decoder buffer value s)))
          eqn:Ha1; cbn [ctl evs]; [reflexivity|].
        rewrite has_stop_app, <- Hl. cbn [orb].
        apply IH; [exact Ha1 | exact Hr].
      * cbn [ctl evs]. intros Hs. destruct (Hon Hs) as [[t Ht]|Ht]; congruence.
    + rewrite (read_loop_done options JSON_parse r reader decoder buffer s Ha Er).
      rewrite Hr0. cbv zeta. cbn [app].
      pose proof (on_read_stop_ctl true decoder buffer [] s) as Hon.
      destruct (ctl (on_read options JSON_parse true decoder buffer [] s))
        as [db|b] eqn:E; cbn [ctl evs]; [reflexivity|].
      intros Hs. destruct (Hon Hs) as [[t Ht]|Ht]; congruence.
    + cbn [read_loop]. rewrite Ha, Er, Hr0. discriminate.
    + cbn [read_loop]. rewrite Ha, Er, Hr0.
      unfold bind, external_stop, stalled; cbn.
      destruct (usesHeartbeat options && negb (aborted s)); discriminate.
Qed.

Lemma try_block_stop_returns (a : Attempt) (s : State) :
  streaming options = true ->
  aborted s = false ->
  attempt_unaborted a = true ->
  has_stop (evs (try_block dbUrl options JSON_parse a s)) = true ->
  ctl (try_block dbUrl options JSON_parse a s) = inr Return_.
Proof.
  intros Hstr Ha Hu.
  unfold attempt_unaborted in Hu.
  apply andb_true_iff in Hu. destruct Hu as [Hu Hb].
  apply andb_true_iff in Hu. destruct Hu as [Hf _].
  apply negb_true_iff in Hf.
  unfold streaming in Hstr. apply negb_true_iff in Hstr.
  unfold try_block.
  destruct (resetHeartbeat_ok options s) as (R1 & R2 & R3).
  rewrite (bind_ok _ _ s tt) by exact R1. rewrite R2.
  rewrite (bind_ok _ _ s s) by reflexivity. cbn [get st evs ctl app].
  rewrite (bind_ok _ _ s tt) by reflexivity. cbn [emit st evs ctl].
  rewrite Hf.
  rewrite (bind_ok _ _ s tt) by reflexivity. cbn [external_stop st evs ctl app].
  rewrite has_stop_app.
  replace (has_stop (evs (resetHeartbeat options s))) with false
    by (unfold resetHeartbeat; destruct (usesHeartbeat options); reflexivity).
  cbn [orb has_stop existsb is_stop].
  destruct (fetch_result a) as [response|e|]; cbn [await_fetch].
  - rewrite (bind_ok _ _ s response) by reflexivity. cbn [ret st evs ctl app].
    destruct (negb (ok response)); [discriminate|].
    rewrite Hstr.
    destruct (body response) as [reads|]; [|discriminate].
    apply read_loop_stop_returns; assumption.
  - discriminate.
  - unfold stalled, bind.
    destruct (usesHeartbeat options && negb (aborted s)); discriminate.
Qed.

Lemma fetchChanges_loop_stop_returns (world : list Attempt) :
  forall (retryCount : nat) (s : State),
    streaming options = true ->
    aborted s = false ->
    consumer_stops_only world = true ->
    has_stop (evs (fetchChanges_loop dbUrl options JSON_parse world retryCount s))
    = true ->
    ctl (fetchChanges_loop dbUrl options JSON_parse world retryCount s)
    = inr Return_.
Proof.
  induction world as [|a world IH]; intros retryCount s Hstr Ha Hw;
    cbn [fetchChanges_loop]; rewrite Ha; [discriminate|].
  cbn [consumer_stops_only forallb] in Hw. apply andb_true_iff in Hw.
  destruct Hw as [Hu Hw].
  pose proof (try_block_stop_returns a s Hstr Ha Hu) as Ht.
  pose proof (abort_log_try_block dbUrl options JSON_parse a s) as Hl.
  unfold abort_log in Hl. rewrite Ha in Hl. cbn [orb] in Hl.
  destruct (has_stop (evs (try_block dbUrl options JSON_parse a s))) eqn:Hs.
  - rewrite (Ht eq_refl). reflexivity.
  - clear Ht.
    destruct (ctl (try_block dbUrl options JSON_parse a s)) as [u|[|error| |]];
      cbn [ctl evs]; try reflexivity; try (rewrite Hs; discriminate).
    + rewrite has_stop_app, Hs. cbn [orb]. apply IH; assumption.
    + rewrite catch_block_cases, Hl.
      assert (Hsl : abort_in_sleep a = false).
      { unfold attempt_unaborted in Hu.
        apply andb_true_iff in Hu. destruct Hu as [Hu _].
        apply andb_true_iff in Hu. destruct Hu as [_ Hu].
        apply negb_true_iff in Hu. exact Hu. }
      destruct (live options); cbn [ctl st evs].
      * rewrite Hsl, !has_stop_app, Hs. cbn [orb app has_stop existsb is_stop].
        apply IH; assumption.
      * rewrite app_nil_r, Hs. discriminate.
Qed.

End Stop.

(** On a normal feed the loop over [data.results] does not look at the
    signal: after [stop()] the next pull still yields the next record of
    the batch. *)
Example stop_inside_batch_still_yields :
  snd (asyncIterator "http://db" [opt_feed normal] sample_parse
         [quiet_attempt
            (Resolve (batch_response
                        (mkData [change_of_seq 1; change_of_seq 2] None)))
            0]
         (mkState false None [StopThenNext]))
  = [EvRequest (buildRequest "http://db" [opt_feed normal] None);
     EvCursor (Some (SeqNum 1)); EvYield (change_of_seq 1); EvStop;
     EvCursor (Some (SeqNum 2)); EvYield (change_of_seq 2)].
Proof. reflexivity. Qed.

(** C9, as the specification states it, fails: a stop that comes during a
    backoff sleep does not end the sleep; the timer runs to its end and
    only then does the generator see the aborted signal. *)
Lemma C9_sleep_is_waited_out :
  let o := [opt_feed continuous; opt_live true] in
  let run := asyncIterator "http://db" o sample_parse
               [mkAttempt false (Reject (TransportError "refused")) 0 true]
               (mkState false None []) in
  run
  = (Completed, mkState true None [],
     [EvHeartbeat (adjustedTimeout o);
      EvRequest (buildRequest "http://db" o None);
      EvTimerSet (delay 1 0); EvStop; EvTimerFired])
  /\ ~ (forall pre post : list Event,
           snd run = pre ++ EvStop :: post -> Forall silent_event_spec post).
Proof.
  split; [reflexivity|].
  intros H.
  specialize (H [EvHeartbeat (adjustedTimeout [opt_feed continuous; opt_live true]);
                 EvRequest (buildRequest "http://db"
                              [opt_feed continuous; opt_live true] None);
                 EvTimerSet (delay 1 0)]
                [EvTimerFired] eq_refl).
  inversion H as [|e l He Hl]. exact He.
Qed.

(** C9 (amended): from every state, once [stop()] has been called or the
    overall signal has fired, no further request is issued and no new
    backoff sleep is begun, and the iteration cannot end in an error; on a
    continuous or eventsource feed no further record is yielded either,
    and when the stop is the consumer's the iteration thereupon completes.
    An iteration begun with the signal aborted completes at once with an
    empty log.  [stop()] is idempotent.  A backoff sleep in progress is not
    cut short: its timer runs to the end. *)
Theorem C9_stop_ends_the_feed :
  forall (dbUrl : string) (o : CouchDBChangesOptions)
         (JSON_parse : Text -> option CouchDBChange)
         (world : list Attempt) (s : State),
    let run := asyncIterator dbUrl o JSON_parse world s in
    (forall pre post : list Event,
        snd run = pre ++ EvStop :: post ->
        Forall (quiet_event (streaming o)) post
        /\ forall e, fst (fst run) <> Failed e)
    /\ (streaming o = true -> aborted s = false ->
        consumer_stops_only world = true -> has_stop (snd run) = true ->
        fst (fst run) = Completed)
    /\ (aborted s = true -> run = (Completed, s, []))
    /\ stop (stop s) = stop s
    /\ aborted (stop s) = true
    /\ (forall (a : Attempt) (retryCount : nat) (error : Error),
           aborted s = false -> live o = true -> abort_in_sleep a = true ->
           evs (catch_block o a retryCount error s)
           = [EvTimerSet (delay (S retryCount) (random a)); EvStop; EvTimerFired]).
Proof.
  intros dbUrl o JSON_parse world s run.
  assert (Hevs : snd run = evs (fetchChanges dbUrl o JSON_parse world s)).
  { subst run. unfold asyncIterator.
    destruct (outcome (ctl (fetchChanges dbUrl o JSON_parse world s))); reflexivity. }
  assert (Hout : fst (fst run) = outcome (ctl (fetchChanges dbUrl o JSON_parse world s))).
  { subst run. unfold asyncIterator.
    destruct (outcome (ctl (fetchChanges dbUrl o JSON_parse world s))); reflexivity. }
  split; [|split; [|split; [|split; [|split]]]].
  - intros pre post E. rewrite Hevs in E. split.
    + eapply quiet_after_stop_split; [|exact E].
      apply (fetchChanges_loop_hushed dbUrl o JSON_parse world 0 s).
    + intros e He. rewrite Hout in He.
      destruct (aborted s) eqn:Ha.
      * unfold fetchChanges in E.
        rewrite fetchChanges_loop_aborted in E by exact Ha. cbn in E.
        destruct pre; discriminate.
      * assert (Hc : ctl (fetchChanges dbUrl o JSON_parse world s) = inr (Throw e)).
        { destruct (ctl (fetchChanges dbUrl o JSON_parse world s)) as [u|[| | |]];
            cbn in He; congruence. }
        pose proof (fetchChanges_loop_throw_no_stop dbUrl o JSON_parse world 0 s e
                      Ha Hc) as Hn.
        unfold fetchChanges in E. rewrite E, has_stop_app in Hn.
        cbn in Hn. rewrite orb_true_r in Hn. discriminate.
  - intros Hstr Ha Hw Hs. rewrite Hout. rewrite Hevs in Hs.
    unfold fetchChanges in *.
    rewrite (fetchChanges_loop_stop_returns dbUrl o JSON_parse world 0 s
               Hstr Ha Hw Hs).
    reflexivity.
  - intros Ha. subst run. unfold asyncIterator, fetchChanges.
    rewrite fetchChanges_loop_aborted by exact Ha. cbn.
    destruct s as [ab cur k]. cbn in Ha. subst ab. reflexivity.
  - reflexivity.
  - reflexivity.
  - intros a retryCount error Ha Hl Hsl.
    rewrite catch_block_cases, Ha, Hl, Hsl. reflexivity.
Qed.

Lemma C9_witness :
  let o := [opt_feed continuous; opt_live true] in
  let run := asyncIterator "http://db" o sample_parse
               [mkAttempt false (Reject (TransportError "refused")) 0 true]
               (mkState false None []) in
  snd run
  = [EvHeartbeat (adjustedTimeout o);
     EvRequest (buildRequest "http://db" o None);
     EvTimerSet (delay 1 0)] ++ EvStop :: [EvTimerFired]
  /\ Forall (quiet_event (streaming o)) [EvTimerFired]
  /\ forall e, fst (fst run) <> Failed e.
Proof.
  cbv zeta. split; [reflexivity|].
  exact (proj1 (C9_stop_ends_the_feed "http://db"
                  [opt_feed continuous; opt_live true] sample_parse
                  [mkAttempt false (Reject (TransportError "refused")) 0 true]
                  (mkState false None []))
           [EvHeartbeat (adjustedTimeout [opt_feed continuous; opt_live true]);
            EvRequest (buildRequest "http://db"
                         [opt_feed continuous; opt_live true] None);
            EvTimerSet (delay 1 0)]
           [EvTimerFired] eq_refl).
Defined.

(** ** The cursor *)

Lemma replay_app (cursor : option Seq) (a b : list Event) :
  replay cursor (a ++ b) = replay (replay cursor a) b.
Proof.
  revert cursor; induction a as [|e a IH]; intros cursor; [reflexivity|].
  destruct e; cbn [app replay]; apply IH.
Qed.


Lemma follows_cursor_app (dbUrl : string) (o : CouchDBChangesOptions)
  (cursor : option Seq) (a b : list Event) :
  follows_cursor dbUrl o cursor a ->
  follows_cursor dbUrl o (replay cursor a) b ->
  follows_cursor dbUrl o cursor (a ++ b).
Proof.
  revert cursor; induction a as [|e a IH]; intros cursor Ha Hb; [exact Hb|].
  destruct e; cbn [app follows_cursor replay] in *;
    try (apply IH; assumption);
    (destruct Ha as [H1 H2]; split; [exact H1 | apply IH; assumption]).
Qed.

Lemma paired_app (pending : option (option Seq)) (a b : list Event) :
  paired pending a -> paired None b -> paired pending (a ++ b).
Proof.
  revert pending; induction a as [|e a IH]; intros pending Ha Hb.
  - cbn in Ha. subst pending. exact Hb.
  - destruct e; cbn [app paired] in *;
      (destruct Ha as [H1 H2]; split; [exact H1 | apply IH; assumption]).
Qed.

Section Cursor.

Variable dbUrl : string.
Variable options : CouchDBChangesOptions.
Variable JSON_parse : Text -> option CouchDBChange.

Lemma cursor_log_trans (s : State) (a : list Event) (s1 : State)
  (b : list Event) (s2 : State) :
  cursor_log dbUrl options s a s1 ->
  cursor_log dbUrl options s1 b s2 ->
  cursor_log dbUrl options s (a ++ b) s2.
Proof.
  unfold cursor_log. intros [A1 A2] [B1 B2]. split.
  - rewrite replay_app, <- A1. exact B1.
  - apply follows_cursor_app; [exact A2 | rewrite <- A1; exact B2].
Qed.

Lemma cursor_log_record (s : State) (c : CouchDBChange) :
  cursor_log dbUrl options s
    (evs ((set_activeSeq (seq c) ;; yield c)%gen s))
    (st ((set_activeSeq (seq c) ;; yield c)%gen s)).
Proof.
  unfold cursor_log. rewrite record_step.
  destruct (consumer s) as [|[] k]; cbn; auto.
Qed.

Ltac cursor_log_steps :=
  first [ apply cursor_log_trans
        | apply cursor_log_record
        | intros; unfold cursor_log; cbn; auto; fail ].

Lemma cursor_log_fetchChanges (world : list Attempt) (s : State) :
  cursor_log dbUrl options s
    (evs (fetchChanges dbUrl options JSON_parse world s))
    (st (fetchChanges dbUrl options JSON_parse world s)).
Proof.
  unfold fetchChanges.
  apply (steps_fetchChanges_loop dbUrl options JSON_parse
           (cursor_log dbUrl options));
    try (intros a; apply steps_try_block); cursor_log_steps.
Qed.

Lemma paired_record (s : State) (c : CouchDBChange) :
  paired None (evs ((set_activeSeq (seq c) ;; yield c)%gen s)).
Proof.
  rewrite record_step. destruct (consumer s) as [|[] k]; cbn; auto.
Qed.

Ltac paired_steps :=
  first [ apply paired_record
        | intros; apply paired_app; assumption
        | intros; cbn; auto; fail ].

Lemma paired_fetchChanges (world : list Attempt) (s : State) :
  streaming options = true ->
  paired None (evs (fetchChanges dbUrl options JSON_parse world s)).
Proof.
  intros Hstr. unfold fetchChanges.
  apply (steps_fetchChanges_loop dbUrl options JSON_parse
           (fun _ tr _ => paired None tr));
    try (intros a; apply steps_try_block_streaming; [..|exact Hstr]);
    paired_steps.
Qed.





(** A batch that went through was yielded whole. *)
Lemma yield_results_complete (l : list CouchDBChange) :
  forall s : State,
    ctl (yield_results l s) = inl tt -> yields (evs (yield_results l s)) = l.
Proof.
  induction l as [|c l IH]; intros s; [reflexivity|].
  cbn [yield_results]. rewrite cursor_yield_then.
  destruct (consumer s) as [|[] k]; cbn [ctl evs yields flat_map app];
    try discriminate; intros H; f_equal; apply IH; exact H.
Qed.

Lemma batch_log (response : Response) (data : ChangesData) (s : State) :
  json response = Some data ->
  exists tail,
    evs (batch options response s)
    = evs (yield_results (results data) s) ++ tail
    /\ (tail = []
        \/ exists v,
            tail = [EvCursor (Some v)]
            /\ last_seq data = Some v
            /\ truthy_seq (last_seq data) = true
            /\ yields (evs (yield_results (results data) s)) = results data).
Proof.
  intros Hj. unfold batch. rewrite Hj.
  destruct (ctl (yield_results (results data) s)) as [[]|b] eqn:E.
  - rewrite (bind_ok _ _ s tt E).
    set (s1 := st (yield_results (results data) s)).
    destruct (truthy_seq (last_seq data)) eqn:Et.
    + destruct (last_seq data) as [v|] eqn:El; [|discriminate].
      rewrite (bind_ok _ _ s1 tt) by reflexivity.
      cbn [set_activeSeq ctl st evs].
      unfold bind at 1. cbn [get ctl st evs app].
      exists [EvCursor (Some v)]. split.
      * match goal with
        | |- context [if ?b then _ else _] => destruct b
        end; reflexivity.
      * right. exists v. repeat split.
        apply yield_results_complete. exact E.
    + rewrite (bind_ok _ _ s1 tt) by reflexivity. cbn [ret ctl st evs].
      unfold bind at 1. cbn [get ctl st evs app].
      exists []. split; [|left; reflexivity].
      match goal with
      | |- context [if ?b then _ else _] => destruct b
      end; reflexivity.
  - rewrite (bind_abrupt _ _ s b E). cbn [evs].
    exists []. rewrite app_nil_r. auto.
Qed.

End Cursor.



Lemma entries_params_since (o : CouchDBChangesOptions) (p : SearchParams) :
  params_get (entries_params o p) "since"
  = match params_get p "since" with
    | Some v => Some v
    | None => config_since o
    end.
Proof.
  revert p; induction o as [|e o IH]; intros p.
  - cbn. destruct (params_get p "since"); reflexivity.
  - destruct e as [[n|[|c s]]|[|c s]| | | | | | | | | | | | | | ];
      cbn [entries_params entry_param config_since];
      rewrite IH; unfold params_append; rewrite ?params_get_app;
      destruct (params_get p "since"); reflexivity.
Qed.


(** A longpoll feed: the second request resumes from the [last_seq] of the
    first batch, in place of the [since] of the configuration. *)
Example longpoll_resumes_from_cursor :
  map (fun r => params_get (searchParams (req_url r)) "since")
    (requests
       (snd (asyncIterator "http://db"
               [opt_since (SeqStr "now"); opt_feed longpoll] sample_parse
               [quiet_attempt
                  (Resolve (batch_response
                              (mkData [change_of_seq 1] (Some (SeqStr "1-g")))))
                  0;
                quiet_attempt
                  (Resolve (batch_response
                              (mkData [change_of_seq 2] (Some (SeqStr "2-g")))))
                  0]
               (mkState false None [Next; StopThenNext]))))
  = [Some "now"%string; Some "1-g"%string].
Proof. reflexivity. Qed.

(** The eventsource framing: [event:] lines and blank lines are skipped
    and [data:] lines carry the records. *)
Example eventsource_two_records :
  yields
    (snd (asyncIterator "http://db" [opt_feed eventsource] sample_parse
            [quiet_attempt (Resolve (stream_response [eventsource_stream])) 0]
            (mkState false None [])))
  = [change_of_seq 1; change_of_seq 2].
Proof. reflexivity. Qed.



(** ** Chunk boundaries *)

Lemma decode_app (d : TextDecoder) (a b : Bytes) :
  decode d (a ++ b)
  = (fst (decode (fst (decode d a)) b),
     snd (decode d a) ++ snd (decode (fst (decode d a)) b)).
Proof.
  revert d; induction a as [|x a IH]; intros d.
  - cbn. destruct (decode d b); reflexivity.
  - cbn [app decode]. destruct (decode_byte d x) as [d1 t1].
    rewrite IH. destruct (decode d1 a) as [d2 t2]. cbn [fst snd].
    destruct (decode d2 b) as [d3 t3]. cbn [fst snd].
    rewrite app_assoc. reflexivity.
Qed.

Lemma split_lines_tail (buffer : Text) : ~ In newline (snd (split_lines buffer)).
Proof.
  induction buffer as [|c buffer IH]; cbn [split_lines]; [intros []|].
  destruct (split_lines buffer) as [ls tl]. cbn [snd] in IH.
  destruct (Z.eqb_spec c newline) as [E|E]; [exact IH|].
  destruct ls; cbn [snd]; [|exact IH].
  intros [H|H]; [apply E; exact H | exact (IH H)].
Qed.

Lemma split_lines_no_newline (buffer : Text) :
  ~ In newline buffer -> split_lines buffer = ([], buffer).
Proof.
  induction buffer as [|c buffer IH]; intros H; [reflexivity|].
  cbn [split_lines]. rewrite IH by (intros H'; apply H; right; exact H').
  destruct (Z.eqb_spec c newline) as [E|E]; [|reflexivity].
  exfalso. apply H. left. exact E.
Qed.

Lemma split_lines_app (x y : Text) :
  split_lines (x ++ y)
  = (fst (split_lines x) ++ fst (split_lines (snd (split_lines x) ++ y)),
     snd (split_lines (snd (split_lines x) ++ y))).
Proof.
  induction x as [|c x IH].
  - cbn. destruct (split_lines y); reflexivity.
  - cbn [app split_lines]. rewrite IH.
    destruct (split_lines x) as [L1 t1]. cbn [fst snd].
    destruct (c =? newline) eqn:Ec.
    + cbn [fst snd]. reflexivity.
    + destruct L1 as [|l ls]; cbn [fst snd app].
      * cbn [split_lines]. rewrite Ec.
        destruct (split_lines (t1 ++ y)) as [L2 t2]. cbn [fst snd].
        destruct L2; reflexivity.
      * reflexivity.
Qed.

Lemma raw_line_nonempty (b : bool) (raw : Text) :
  is_empty (trim (if b then skipn 5 (trim raw) else trim raw)) = false ->
  (0 < List.length raw)%nat.
Proof.
  destruct b; intros H.
  - apply skipn_nonempty_raw in H.
    destruct raw; [discriminate | cbn; lia].
  - rewrite trim_idempotent in H. apply trim_nonempty_raw. exact H.
Qed.

Section Chunks.

Variable options : CouchDBChangesOptions.
Variable JSON_parse : Text -> option CouchDBChange.

(** Taking the lines [L1 ++ L2] off the buffer is taking [L1] off and then
    [L2]; what comes after a line in the buffer has no say in how the line
    is handled. *)
Lemma lines_loop_app (done : bool) (L1 L2 : list Text) (t t' : Text) :
  forall s : State,
    lines_loop options JSON_parse done (L1 ++ L2) t s
    = let r1 := lines_loop options JSON_parse done L1 t' s in
      match ctl r1 with
      | inl _ =>
          let r2 := lines_loop options JSON_parse done L2 t (st r1) in
          mkRes (ctl r2) (st r2) (evs r1 ++ evs r2)
      | inr b => mkRes (inr b) (st r1) (evs r1)
      end.
Proof.
  induction L1 as [|raw L1 IH]; intros s.
  - cbn. destruct (lines_loop options JSON_parse done L2 t s); reflexivity.
  - cbn [app lines_loop]. cbv zeta.
    destruct (aborted s) eqn:Ha; [reflexivity|].
    destruct (isEventsource options && startsWith (trim raw) (text_of_string "event:"));
      [apply IH|].
    generalize (isEventsource options && startsWith (trim raw) (text_of_string "data:")).
    intros b.
    match goal with
    | |- context [is_empty ?x] => destruct (is_empty x) eqn:Ee
    end.
    + destruct done; [reflexivity | apply IH].
    + pose proof (raw_line_nonempty b raw Ee) as Hlen.
      match goal with
      | |- context [JSON_parse ?x] => destruct (JSON_parse x) as [c|]
      end.
      * rewrite !cursor_yield_then.
        destruct (consumer s) as [|[] k]; cbv zeta; try reflexivity;
          rewrite IH; cbv zeta;
          match goal with
          | |- context [ctl (lines_loop ?o ?p ?d ?l ?tt ?ss)] =>
              destruct (ctl (lines_loop o p d l tt ss))
          end; reflexivity.
      * rewrite !indexOf_truthy by exact Hlen. reflexivity.
Qed.

Lemma lines_loop_buffer (done : bool) (lines : list Text) (tail : Text) :
  forall (s : State) (buffer : Text),
    ctl (lines_loop options JSON_parse done lines tail s) = inl buffer ->
    buffer = tail.
Proof.
  induction lines as [|raw lines IH]; intros s buffer; cbn [lines_loop].
  - cbn. congruence.
  - destruct (aborted s); [discriminate|].
    destruct (isEventsource options && startsWith (trim raw) (text_of_string "event:"));
      [apply IH|].
    match goal with |- context [is_empty ?x] => destruct (is_empty x) end.
    + destruct done; [discriminate | apply IH].
    + match goal with |- context [JSON_parse ?x] => destruct (JSON_parse x) as [c|] end.
      * rewrite cursor_yield_then.
        destruct (consumer s) as [|[] k]; cbn [ctl]; try apply IH; discriminate.
      * cbn [negb andb].
        match goal with |- context [truthy_number ?x] => destruct (truthy_number x) end;
          [discriminate | apply IH].
Qed.

Lemma lines_loop_aborted_res (done : bool) (lines : list Text) (tail : Text)
  (s : State) :
  aborted s = true ->
  lines_loop options JSON_parse done lines tail s = mkRes (inl tail) s []
  \/ lines_loop options JSON_parse done lines tail s = mkRes (inr Return_) s [].
Proof.
  intros H. destruct lines; cbn [lines_loop]; [left; reflexivity|].
  rewrite H. right. reflexivity.
Qed.

Lemma resetHeartbeat_eq (s : State) :
  resetHeartbeat options s = mkRes (inl tt) s (heartbeat_log options).
Proof.
  unfold resetHeartbeat, heartbeat_log.
  destruct (usesHeartbeat options); reflexivity.
Qed.

Lemma without_heartbeat_log : without_heartbeat (heartbeat_log options) = [].
Proof. unfold heartbeat_log. destruct (usesHeartbeat options); reflexivity. Qed.

Lemma on_read_eq (done : bool) (decoder : TextDecoder) (buffer : Text)
  (value : Bytes) (s : State) :
  on_read options JSON_parse done decoder buffer value s
  = let dt := decode decoder value in
    let sl := split_lines (buffer ++ snd dt) in
    let r := lines_loop options JSON_parse done (fst sl) (snd sl) s in
    match ctl r with
    | inl buffer' =>
        mkRes (inl (fst dt, buffer')) (st r) (heartbeat_log options ++ evs r)
    | inr b => mkRes (inr b) (st r) (heartbeat_log options ++ evs r)
    end.
Proof.
  unfold on_read.
  rewrite (bind_ok _ _ s tt) by (rewrite resetHeartbeat_eq; reflexivity).
  rewrite resetHeartbeat_eq. cbn [ctl st evs]. cbv zeta.
  destruct (decode decoder value) as [d t]. cbn [fst snd].
  destruct (split_lines (buffer ++ t)) as [ls tl]. cbn [fst snd].
  unfold bind.
  destruct (ctl (lines_loop options JSON_parse done ls tl s));
    cbn [ret ctl st evs]; rewrite ?app_nil_r; reflexivity.
Qed.

Lemma same_but_heartbeat_refl {A} (r : Res A) : same_but_heartbeat r r.
Proof. repeat split. Qed.

Lemma same_but_heartbeat_trans {A} (r1 r2 r3 : Res A) :
  same_but_heartbeat r1 r2 -> same_but_heartbeat r2 r3 ->
  same_but_heartbeat r1 r3.
Proof.
  intros (A1 & A2 & A3) (B1 & B2 & B3). repeat split; congruence.
Qed.

(** Two chunks read one after the other are as good as the two in one
    read. *)
Lemma read_loop_merge (c1 c2 : Bytes) (reader : list Read)
  (decoder : TextDecoder) (buffer : Text) (s : State) :
  same_but_heartbeat
    (read_loop options JSON_parse
       (mkRead false (Chunk c1) :: mkRead false (Chunk c2) :: reader)
       decoder buffer s)
    (read_loop options JSON_parse
       (mkRead false (Chunk (c1 ++ c2)) :: reader) decoder buffer s).
Proof.
  destruct (aborted s) eqn:Ha.
  { rewrite !read_loop_aborted by exact Ha. apply same_but_heartbeat_refl. }
  destruct (decode decoder c1) as [d1 t1] eqn:Ed1.
  destruct (decode d1 c2) as [d2 t2] eqn:Ed2.
  assert (Ed12 : decode decoder (c1 ++ c2) = (d2, t1 ++ t2)).
  { rewrite decode_app, Ed1. cbn [fst snd]. rewrite Ed2. reflexivity. }
  destruct (split_lines (buffer ++ t1)) as [L1 tail1] eqn:Es1.
  destruct (split_lines (tail1 ++ t2)) as [L2 tail2] eqn:Es2.
  assert (Es12 : split_lines (buffer ++ t1 ++ t2) = (L1 ++ L2, tail2)).
  { rewrite app_assoc, (split_lines_app (buffer ++ t1) t2), Es1.
    cbn [fst snd]. rewrite Es2. reflexivity. }
  rewrite (read_loop_chunk options JSON_parse (mkRead false (Chunk c1)) _
             decoder buffer s c1 Ha eq_refl).
  rewrite (read_loop_chunk options JSON_parse (mkRead false (Chunk (c1 ++ c2))) _
             decoder buffer s (c1 ++ c2) Ha eq_refl).
  cbn [abort_in_read]. cbv zeta. cbn [app].
  rewrite !on_read_eq. cbv zeta.
  rewrite Ed1, Ed12. cbn [fst snd]. rewrite Es1, Es12. cbn [fst snd].
  rewrite (lines_loop_app false L1 L2 tail2 tail1). cbv zeta.
  pose proof (lines_loop_buffer false L1 tail1 s) as Hb1.
  destruct (lines_loop options JSON_parse false L1 tail1 s) as [c1' s1 e1].
  cbn [ctl st evs] in *.
  destruct c1' as [b1|b]; cbn [ctl st evs]; [|apply same_but_heartbeat_refl].
  rewrite (Hb1 b1 eq_refl). cbn [fst snd].
  destruct (aborted s1) eqn:Ha1.
  - destruct (lines_loop_aborted_res false L2 tail2 s1 Ha1) as [E|E];
      rewrite E; cbn [ctl st evs]; rewrite ?Ha1, ?app_nil_r;
      apply same_but_heartbeat_refl.
  - rewrite (read_loop_chunk options JSON_parse (mkRead false (Chunk c2)) _
               d1 tail1 s1 c2 Ha1 eq_refl).
    cbn [abort_in_read]. cbv zeta. cbn [app].
    rewrite on_read_eq. cbv zeta. rewrite Ed2. cbn [fst snd]. rewrite Es2.
    cbn [fst snd].
    destruct (lines_loop options JSON_parse false L2 tail2 s1) as [c2' s2 e2].
    cbn [ctl st evs].
    destruct c2' as [b2|b]; cbn [ctl st evs fst snd].
    + destruct (aborted s2); unfold same_but_heartbeat; cbn [ctl st evs];
        repeat split;
        rewrite ?without_heartbeat_app, ?without_heartbeat_log; cbn [app];
        rewrite ?app_nil_r; rewrite <- ?app_assoc; reflexivity.
    + unfold same_but_heartbeat; cbn [ctl st evs]; repeat split;
        rewrite ?without_heartbeat_app, ?without_heartbeat_log; cbn [app];
        rewrite ?app_nil_r; rewrite <- ?app_assoc; reflexivity.
Qed.

Lemma same_but_heartbeat_sym {A} (r1 r2 : Res A) :
  same_but_heartbeat r1 r2 -> same_but_heartbeat r2 r1.
Proof. intros (A1 & A2 & A3). repeat split; congruence. Qed.

(** A read that delivers no byte changes nothing. *)
Lemma read_loop_empty_chunk (reader : list Read) (decoder : TextDecoder)
  (buffer : Text) (s : State) :
  ~ In newline buffer ->
  same_but_heartbeat
    (read_loop options JSON_parse (mkRead false (Chunk []) :: reader)
       decoder buffer s)
    (read_loop options JSON_parse reader decoder buffer s).
Proof.
  intros Hb. destruct (aborted s) eqn:Ha.
  { rewrite !read_loop_aborted by exact Ha. apply same_but_heartbeat_refl. }
  rewrite (read_loop_chunk options JSON_parse (mkRead false (Chunk [])) _
             decoder buffer s [] Ha eq_refl).
  cbn [abort_in_read]. cbv zeta. cbn [app].
  rewrite on_read_eq. cbv zeta. cbn [decode fst snd].
  rewrite app_nil_r, split_lines_no_newline by exact Hb.
  cbn [fst snd lines_loop ret ctl st evs]. rewrite Ha.
  unfold same_but_heartbeat. cbn [ctl st evs]. repeat split.
  rewrite !without_heartbeat_app, without_heartbeat_log. reflexivity.
Qed.

(** What is read after a chunk only matters up to the re-arming of the
    watchdog. *)
Lemma read_loop_cong (c : Bytes) (X Y : list Read) (decoder : TextDecoder)
  (buffer : Text) (s : State) :
  (forall d' buffer' s',
      ~ In newline buffer' ->
      same_but_heartbeat
        (read_loop options JSON_parse X d' buffer' s')
        (read_loop options JSON_parse Y d' buffer' s')) ->
  same_but_heartbeat
    (read_loop options JSON_parse (mkRead false (Chunk c) :: X) decoder buffer s)
    (read_loop options JSON_parse (mkRead false (Chunk c) :: Y) decoder buffer s).
Proof.
  intros H. destruct (aborted s) eqn:Ha.
  { rewrite !read_loop_aborted by exact Ha. apply same_but_heartbeat_refl. }
  rewrite (read_loop_chunk options JSON_parse (mkRead false (Chunk c)) X
             decoder buffer s c Ha eq_refl).
  rewrite (read_loop_chunk options JSON_parse (mkRead false (Chunk c)) Y
             decoder buffer s c Ha eq_refl).
  cbn [abort_in_read]. cbv zeta. cbn [app].
  rewrite !on_read_eq. cbv zeta.
  destruct (decode decoder c) as [d1 t1]. cbn [fst snd].
  pose proof (split_lines_tail (buffer ++ t1)) as Htl.
  destruct (split_lines (buffer ++ t1)) as [L1 tail1]. cbn [fst snd] in *.
  pose proof (lines_loop_buffer false L1 tail1 s) as Hb1.
  destruct (lines_loop options JSON_parse false L1 tail1 s) as [c1 s1 e1].
  cbn [ctl st evs] in *.
  destruct c1 as [b1|b]; cbn [ctl st evs fst snd];
    [|apply same_but_heartbeat_refl].
  destruct (aborted s1); [apply same_but_heartbeat_refl|].
  rewrite (Hb1 b1 eq_refl).
  destruct (H d1 tail1 s1 Htl) as (H1 & H2 & H3).
  unfold same_but_heartbeat. cbn [ctl st evs]. repeat split; try assumption.
  rewrite !without_heartbeat_app, H3. reflexivity.
Qed.

(** Any chunking of a byte stream is as good as the stream in one chunk. *)
Lemma read_loop_chunks (chunks : list Bytes) (rest : list Read) :
  forall (decoder : TextDecoder) (buffer : Text) (s : State),
    ~ In newline buffer ->
    same_but_heartbeat
      (read_loop options JSON_parse (chunk_reads chunks ++ rest)
         decoder buffer s)
      (read_loop options JSON_parse (mkRead false (Chunk (List.concat chunks)) :: rest)
         decoder buffer s).
Proof.
  induction chunks as [|c chunks IH]; intros decoder buffer s Hb.
  - cbn [chunk_reads map List.concat app].
    apply same_but_heartbeat_sym, read_loop_empty_chunk. exact Hb.
  - cbn [chunk_reads map List.concat app].
    eapply same_but_heartbeat_trans; [|apply read_loop_merge].
    apply read_loop_cong. intros d' buffer' s' Hb'. apply IH. exact Hb'.
Qed.

Lemma read_loop_rechunk (chunks1 chunks2 : list Bytes) (rest : list Read)
  (decoder : TextDecoder) (buffer : Text) (s : State) :
  List.concat chunks1 = List.concat chunks2 ->
  ~ In newline buffer ->
  same_but_heartbeat
    (read_loop options JSON_parse (chunk_reads chunks1 ++ rest) decoder buffer s)
    (read_loop options JSON_parse (chunk_reads chunks2 ++ rest) decoder buffer s).
Proof.
  intros Hc Hb.
  eapply same_but_heartbeat_trans; [apply read_loop_chunks; exact Hb|].
  rewrite Hc. apply same_but_heartbeat_sym, read_loop_chunks. exact Hb.
Qed.

Variable dbUrl : string.

(** A pass over a response, with the request and the fetch set apart. *)
Lemma try_block_resolved (a : Attempt) (response : Response) (s : State) :
  fetch_result a = Resolve response ->
  try_block dbUrl options JSON_parse a s
  = let s0 := if abort_in_fetch a then stop s else s in
    let r :=
      (if negb (ok response)
       then abrupt (Throw (HttpStatusError (status response) (text response)))
       else if isNormal options || isLongpoll options
            then batch options response
            else
              match body response with
              | None => abrupt (Throw BodyUnavailableError)
              | Some reader =>
                  read_loop options JSON_parse reader new_TextDecoder []
              end) s0 in
    mkRes (ctl r) (st r)
      (heartbeat_log options
       ++ EvRequest (buildRequest dbUrl options (activeSeq s))
       :: (if abort_in_fetch a then [EvStop] else []) ++ evs r).
Proof.
  intros Hf. unfold try_block.
  rewrite (bind_ok _ _ s tt) by (rewrite resetHeartbeat_eq; reflexivity).
  rewrite resetHeartbeat_eq. cbn [ctl st evs].
  rewrite (bind_ok _ _ s s) by reflexivity. cbn [get st evs ctl app].
  rewrite (bind_ok _ _ s tt) by reflexivity. cbn [emit st evs ctl].
  rewrite (bind_ok _ _ s tt)
    by (unfold external_stop; destruct (abort_in_fetch a); reflexivity).
  replace (st (external_stop (abort_in_fetch a) s))
    with (if abort_in_fetch a then stop s else s)
    by (unfold external_stop; destruct (abort_in_fetch a); reflexivity).
  replace (evs (external_stop (abort_in_fetch a) s))
    with (if abort_in_fetch a then [EvStop] else [])
    by (unfold external_stop; destruct (abort_in_fetch a); reflexivity).
  rewrite Hf. cbn [await_fetch].
  rewrite (bind_ok _ _ _ response) by reflexivity.
  cbn [ret ctl st evs app]. reflexivity.
Qed.

Lemma try_block_rechunk (abort_fetch ok_ : bool) (status_ : Z) (text_ : string)
  (json_ : option ChangesData) (chunks1 chunks2 : list Bytes)
  (rest : list Read) (rnd : Q) (abort_sleep : bool) (s : State) :
  List.concat chunks1 = List.concat chunks2 ->
  same_but_heartbeat
    (try_block dbUrl options JSON_parse
       (chunked_attempt abort_fetch ok_ status_ text_ json_ chunks1 rest rnd
          abort_sleep) s)
    (try_block dbUrl options JSON_parse
       (chunked_attempt abort_fetch ok_ status_ text_ json_ chunks2 rest rnd
          abort_sleep) s).
Proof.
  intros Hc. unfold chunked_attempt.
  rewrite (try_block_resolved
             (mkAttempt abort_fetch
                (Resolve (mkResponse ok_ status_ text_ json_
                            (Some (chunk_reads chunks1 ++ rest)))) rnd abort_sleep)
             _ s eq_refl).
  rewrite (try_block_resolved
             (mkAttempt abort_fetch
                (Resolve (mkResponse ok_ status_ text_ json_
                            (Some (chunk_reads chunks2 ++ rest)))) rnd abort_sleep)
             _ s eq_refl).
  cbn [abort_in_fetch ok status text body]. cbv zeta.
  set (s0 := if abort_fetch then stop s else s).
  destruct (negb ok_); [apply same_but_heartbeat_refl|].
  destruct (isNormal options || isLongpoll options).
  - unfold batch. cbn [json]. apply same_but_heartbeat_refl.
  - destruct (read_loop_rechunk chunks1 chunks2 rest new_TextDecoder [] s0 Hc)
      as (H1 & H2 & H3); [intros []|].
    unfold same_but_heartbeat. cbn [ctl st evs]. repeat split; try assumption.
    rewrite !without_heartbeat_app.
    change (EvRequest ?r :: ?x) with ([EvRequest r] ++ x).
    rewrite !without_heartbeat_app, H3. reflexivity.
Qed.

Lemma fetchChanges_rechunk (abort_fetch ok_ : bool) (status_ : Z)
  (text_ : string) (json_ : option ChangesData) (chunks1 chunks2 : list Bytes)
  (rest : list Read) (rnd : Q) (abort_sleep : bool) (world : list Attempt)
  (retryCount : nat) (s : State) :
  List.concat chunks1 = List.concat chunks2 ->
  same_but_heartbeat
    (fetchChanges_loop dbUrl options JSON_parse
       (chunked_attempt abort_fetch ok_ status_ text_ json_ chunks1 rest rnd
          abort_sleep :: world) retryCount s)
    (fetchChanges_loop dbUrl options JSON_parse
       (chunked_attempt abort_fetch ok_ status_ text_ json_ chunks2 rest rnd
          abort_sleep :: world) retryCount s).
Proof.
  intros Hc. cbn [fetchChanges_loop].
  destruct (aborted s); [apply same_but_heartbeat_refl|].
  destruct (try_block_rechunk abort_fetch ok_ status_ text_ json_ chunks1
              chunks2 rest rnd abort_sleep s Hc) as (H1 & H2 & H3).
  set (a1 := chunked_attempt abort_fetch ok_ status_ text_ json_ chunks1 rest
               rnd abort_sleep) in *.
  set (a2 := chunked_attempt abort_fetch ok_ status_ text_ json_ chunks2 rest
               rnd abort_sleep) in *.
  assert (Hr : random a2 = random a1) by reflexivity.
  assert (Hs : abort_in_sleep a2 = abort_in_sleep a1) by reflexivity.
  clearbody a1 a2.
  rewrite <- H1, <- H2.
  destruct (ctl (try_block dbUrl options JSON_parse a1 s)) as [u|[|error| |]];
    try (unfold same_but_heartbeat; cbn [ctl st evs]; repeat split;
         rewrite ?without_heartbeat_app, ?H3; reflexivity).
  rewrite !catch_block_cases, Hr, Hs.
  destruct (aborted (st (try_block dbUrl options JSON_parse a1 s)));
    [|destruct (live options)];
    unfold same_but_heartbeat; cbn [ctl st evs]; repeat split;
    rewrite ?without_heartbeat_app, ?H3; reflexivity.
Qed.

End Chunks.

(** C2: however the bytes of a response body are cut into the chunks that
    successive reads deliver, inside a line or inside a multi-byte
    character included, the iteration yields the same records in the same
    order, ends the same way and leaves the same state; the logs differ at
    most in how often the watchdog was re-armed. *)
Theorem C2_chunking_is_irrelevant :
  forall (dbUrl : string) (o : CouchDBChangesOptions)
         (JSON_parse : Text -> option CouchDBChange)
         (abort_fetch ok_ : bool) (status_ : Z) (text_ : string)
         (json_ : option ChangesData) (chunks1 chunks2 : list Bytes)
         (rest : list Read) (rnd : Q) (abort_sleep : bool)
         (world : list Attempt) (s : State),
    List.concat chunks1 = List.concat chunks2 ->
    let run1 :=
      asyncIterator dbUrl o JSON_parse
        (chunked_attempt abort_fetch ok_ status_ text_ json_ chunks1 rest rnd
           abort_sleep :: world) s in
    let run2 :=
      asyncIterator dbUrl o JSON_parse
        (chunked_attempt abort_fetch ok_ status_ text_ json_ chunks2 rest rnd
           abort_sleep :: world) s in
    fst run1 = fst run2
    /\ yields (snd run1) = yields (snd run2)
    /\ without_heartbeat (snd run1) = without_heartbeat (snd run2).
Proof.
  intros dbUrl o JSON_parse abort_fetch ok_ status_ text_ json_ chunks1 chunks2
         rest rnd abort_sleep world s Hc run1 run2.
  destruct (fetchChanges_rechunk o JSON_parse dbUrl abort_fetch ok_ status_
              text_ json_ chunks1 chunks2 rest rnd abort_sleep world 0 s Hc)
    as (H1 & H2 & H3).
  subst run1 run2. unfold asyncIterator, fetchChanges.
  rewrite <- H1, <- H2.
  assert (Hy : yields
                 (evs (fetchChanges_loop dbUrl o JSON_parse
                         (chunked_attempt abort_fetch ok_ status_ text_ json_
                            chunks1 rest rnd abort_sleep :: world) 0 s))
               = yields
                   (evs (fetchChanges_loop dbUrl o JSON_parse
                           (chunked_attempt abort_fetch ok_ status_ text_ json_
                              chunks2 rest rnd abort_sleep :: world) 0 s))).
  { rewrite <- yields_without_heartbeat, H3. apply yields_without_heartbeat. }
  destruct (outcome _); cbn [fst snd]; auto.
Qed.

Lemma C2_witness :
  let run1 :=
    asyncIterator "http://db" [opt_feed continuous] sample_parse
      [chunked_attempt false true 200 EmptyString None [sample_stream]
         [mkRead false Done] 0 false]
      (mkState false None []) in
  let run2 :=
    asyncIterator "http://db" [opt_feed continuous] sample_parse
      [chunked_attempt false true 200 EmptyString None sample_chunks
         [mkRead false Done] 0 false]
      (mkState false None []) in
  yields (snd run1) = [change_of_seq 1; change_of_seq 2]
  /\ fst run1 = fst run2
  /\ yields (snd run1) = yields (snd run2)
  /\ without_heartbeat (snd run1) = without_heartbeat (snd run2).
Proof.
  cbv zeta. split; [reflexivity|].
  exact (C2_chunking_is_irrelevant "http://db" [opt_feed continuous] sample_parse
           false true 200 EmptyString None [sample_stream] sample_chunks
           [mkRead false Done] 0 false [] (mkState false None []) eq_refl).
Defined.


Lemma C7_witness :
  exists s' tr',
    asyncIterator "http://db" [opt_feed continuous] sample_parse
      [quiet_attempt (Resolve (stream_response [malformed_stream])) 0]
      (mkState false None [])
    = (Failed (ParseError (trim (text_of_string "MALFORMED"))), s', tr')
    /\ yields tr' = [change_of_seq 1].
Proof.
  refine (proj2 (proj2 (proj2
            (C7_error_policy "http://db" [opt_feed continuous] sample_parse
               (quiet_attempt (Resolve (stream_response [malformed_stream])) 0)
               [] 0 (mkState false None [])
               (ParseError (trim (text_of_string "MALFORMED")))
               (st (try_block "http://db" [opt_feed continuous] sample_parse
                      (quiet_attempt
                         (Resolve (stream_response [malformed_stream])) 0)
                      (mkState false None [])))
               (evs (try_block "http://db" [opt_feed continuous] sample_parse
                       (quiet_attempt
                          (Resolve (stream_response [malformed_stream])) 0)
                       (mkState false None [])))
               eq_refl eq_refl)))
            (stream_response [malformed_stream]) malformed_stream
            [mkRead false Done] (mkDecoder 0 0 0 128 191 true)
            (seq_line 1) (text_of_string "MALFORMED")
            (seq_line 2 ++ [newline]) (change_of_seq 1)
            eq_refl eq_refl eq_refl eq_refl eq_refl eq_refl eq_refl eq_refl
            _ _ eq_refl eq_refl eq_refl eq_refl).
  - cbn. intros H. repeat (destruct H as [H|H]; [discriminate|]). exact H.
  - cbn. intros H. repeat (destruct H as [H|H]; [discriminate|]). exact H.
Defined.

(** * Further properties of the code *)

(** ** [buildUrl] *)

Lemma entries_params_flat (o : CouchDBChangesOptions) (p : SearchParams) :
  entries_params o p = p ++ flat_map entry_params o.
Proof.
  revert p; induction o as [|e o IH]; intros p; cbn [entries_params flat_map].
  - rewrite app_nil_r. reflexivity.
  - unfold entry_params at 1. destruct (entry_param e) as [[k v]|].
    + rewrite IH. unfold params_append. rewrite <- app_assoc. reflexivity.
    + apply IH.
Qed.

(** X1: with the cursor unset, the query of the URL lists the serialised
    options in the order in which the options object holds them: the query
    built from two option lists put one after the other is the query of
    the first followed by the query of the second. *)
Theorem X1_query_in_insertion_order :
  forall (dbUrl : string) (o1 o2 : CouchDBChangesOptions),
    searchParams (buildUrl dbUrl (o1 ++ o2) None)
    = searchParams (buildUrl dbUrl o1 None)
      ++ searchParams (buildUrl dbUrl o2 None).
Proof.
  intros dbUrl o1 o2. unfold buildUrl. cbn [searchParams].
  rewrite !entries_params_flat. cbn [app]. apply flat_map_app.
Qed.

Lemma params_get_flat_none (o : CouchDBChangesOptions) (k : string) :
  (forall e, In e o -> params_get (entry_params e) k = None) ->
  params_get (flat_map entry_params o) k = None.
Proof.
  induction o as [|e o IH]; intros H; [reflexivity|].
  cbn [flat_map]. rewrite params_get_app, (H e (or_introl eq_refl)).
  apply IH. intros e' He'. apply H. right. exact He'.
Qed.

Lemma buildUrl_other_key (dbUrl : string) (o : CouchDBChangesOptions)
  (cursor : option Seq) (k : string) :
  String.eqb "since" k = false ->
  params_get (searchParams (buildUrl dbUrl o cursor)) k
  = params_get (flat_map entry_params o) k.
Proof.
  intros Hk. unfold buildUrl.
  destruct cursor as [v|]; cbn [searchParams];
    rewrite ?params_get_set_other by exact Hk;
    rewrite entries_params_flat; reflexivity.
Qed.

(** X2: whatever the options and the cursor, the URL never carries a
    parameter named [doc_ids], [selector] or [live]. *)
Theorem X2_body_options_never_in_query :
  forall (dbUrl : string) (o : CouchDBChangesOptions) (cursor : option Seq),
    params_get (searchParams (buildUrl dbUrl o cursor)) "doc_ids" = None
    /\ params_get (searchParams (buildUrl dbUrl o cursor)) "selector" = None
    /\ params_get (searchParams (buildUrl dbUrl o cursor)) "live" = None.
Proof.
  intros dbUrl o cursor.
  repeat split; rewrite buildUrl_other_key by reflexivity;
    apply params_get_flat_none; intros e _;
    destruct e as [[n|[|c s]]|[|c s]| | | | | | | | | | | | | | ]; reflexivity.
Qed.

(** X3: an option whose value is the empty string is left out of the
    query: when every [filter] of the options is empty the URL has no
    [filter] parameter, and when every [since] of the options is empty and
    the cursor is unset it has no [since] parameter. *)
Theorem X3_empty_values_skipped :
  forall (dbUrl : string) (o : CouchDBChangesOptions) (cursor : option Seq),
    (forall s, In (opt_filter s) o -> s = EmptyString) ->
    params_get (searchParams (buildUrl dbUrl o cursor)) "filter" = None
    /\ ((forall v, In (opt_since v) o -> v = SeqStr EmptyString) ->
        params_get (searchParams (buildUrl dbUrl o None)) "since" = None).
Proof.
  intros dbUrl o cursor Hf. split.
  - rewrite buildUrl_other_key by reflexivity.
    apply params_get_flat_none. intros e He.
    destruct e as [[n|[|c s]]|[|c s]| | | | | | | | | | | | | | ];
      try reflexivity.
    specialize (Hf _ He). discriminate.
  - intros Hs. unfold buildUrl. cbn [searchParams].
    rewrite entries_params_flat. cbn [app].
    apply params_get_flat_none. intros e He.
    destruct e as [[n|[|c s]]|[|c s]| | | | | | | | | | | | | | ];
      try reflexivity; specialize (Hs _ He); discriminate.
Qed.

Lemma X3_witness :
  params_get
    (searchParams
       (buildUrl "http://mock-couchdb"
          [opt_filter EmptyString; opt_doc_ids []; opt_feed continuous] None))
    "filter"
  = None.
Proof.
  refine (proj1 (X3_empty_values_skipped "http://mock-couchdb"
                   [opt_filter EmptyString; opt_doc_ids []; opt_feed continuous]
                   None _)).
  intros s [H|[H|[H|[]]]]; try discriminate. inversion H. reflexivity.
Defined.

(** ** [backoff] *)

Lemma pow2_le (a b : nat) : (a <= b)%nat -> 2 ^ Z.of_nat a <= 2 ^ Z.of_nat b.
Proof. intros H. apply Z.pow_le_mono_r; lia. Qed.

(** X4: the backoff never goes down as the retry count goes up; from the
    first retry on it lies between 200 and 30000 ms; it is [2^retryCount *
    100] up to the eighth retry and stays at the cap of 30000 ms from the
    ninth on; a sleep, the jitter added and the sum rounded as numbers
    are, lasts at least the backoff and at most the backoff plus 100 ms,
    hence at most 30100 ms. *)
Theorem X4_backoff_bounds :
  forall (retryCount retryCount' : nat) (rnd : Q),
    ((retryCount <= retryCount')%nat -> backoff retryCount <= backoff retryCount')
    /\ ((1 <= retryCount)%nat -> 200 <= backoff retryCount <= 30000)
    /\ ((retryCount <= 8)%nat -> backoff retryCount = 2 ^ Z.of_nat retryCount * 100)
    /\ ((9 <= retryCount)%nat -> backoff retryCount = 30000)
    /\ ((0 <= rnd)%Q -> (rnd < 1)%Q ->
        (inject_Z (backoff retryCount) <= delay retryCount rnd)%Q
        /\ (delay retryCount rnd <= inject_Z (backoff retryCount + 100))%Q
        /\ (delay retryCount rnd <= inject_Z 30100)%Q).
Proof.
  intros retryCount retryCount' rnd.
  split; [|split; [|split; [|split]]].
  - unfold backoff. intros H. pose proof (pow2_le _ _ H). lia.
  - unfold backoff. intros H. pose proof (pow2_le 1 retryCount H) as Hp.
    change (2 ^ Z.of_nat 1) with 2 in Hp. lia.
  - unfold backoff. intros H. pose proof (pow2_le retryCount 8 H) as Hp.
    change (2 ^ Z.of_nat 8) with 256 in Hp. lia.
  - unfold backoff. intros H. pose proof (pow2_le 9 retryCount H) as Hp.
    change (2 ^ Z.of_nat 9) with 512 in Hp. lia.
  - intros H0 H1. destruct (delay_range retryCount rnd H0 H1) as [D0 D1].
    split; [exact D0|]. split; [exact D1|].
    eapply Qle_trans; [exact D1|]. rewrite <- Zle_Qle. unfold backoff. lia.
Qed.

(** ** The line buffer *)

Lemma split_lines_join (buffer : Text) :
  join_lines (fst (split_lines buffer)) (snd (split_lines buffer)) = buffer.
Proof.
  induction buffer as [|c buffer IH]; [reflexivity|].
  cbn [split_lines]. destruct (split_lines buffer) as [ls tl]. cbn [fst snd] in IH.
  destruct (Z.eqb_spec c newline) as [E|E].
  - cbn [fst snd join_lines app]. rewrite IH, E. reflexivity.
  - destruct ls as [|l ls]; cbn [fst snd join_lines app] in *;
      rewrite IH; reflexivity.
Qed.

Lemma split_lines_lines (buffer : Text) :
  Forall (fun l => ~ In newline l) (fst (split_lines buffer)).
Proof.
  induction buffer as [|c buffer IH]; cbn [split_lines]; [constructor|].
  destruct (split_lines buffer) as [ls tl]. cbn [fst] in IH.
  destruct (Z.eqb_spec c newline) as [E|E]; cbn [fst].
  - constructor; [intros []|exact IH].
  - destruct ls as [|l ls]; cbn [fst]; [constructor|].
    inversion IH as [|l' ls' Hl Hls]; subst. constructor; [|exact Hls].
    intros [H|H]; [apply E; exact H | exact (Hl H)].
Qed.

Lemma join_lines_split (ls : list Text) (tl : Text) :
  Forall (fun l => ~ In newline l) ls -> ~ In newline tl ->
  split_lines (join_lines ls tl) = (ls, tl).
Proof.
  intros Hls Htl. induction Hls as [|l ls Hl _ IH]; cbn [join_lines].
  - apply split_lines_no_newline. exact Htl.
  - rewrite split_lines_line by exact Hl. rewrite IH. reflexivity.
Qed.

(** X5: the inner loop neither loses nor invents text: the lines it takes
    off the buffer, each with its newline, followed by what it leaves, are
    the buffer; no line and no leftover holds a newline; and a buffer put
    together from such lines and leftover is taken apart into just
    them. *)
Theorem X5_line_buffer_round_trip :
  forall (buffer : Text) (ls : list Text) (tl : Text),
    join_lines (fst (split_lines buffer)) (snd (split_lines buffer)) = buffer
    /\ Forall (fun l => ~ In newline l) (fst (split_lines buffer))
    /\ ~ In newline (snd (split_lines buffer))
    /\ (Forall (fun l => ~ In newline l) ls -> ~ In newline tl ->
        split_lines (join_lines ls tl) = (ls, tl)).
Proof.
  intros buffer ls tl.
  split; [apply split_lines_join|].
  split; [apply split_lines_lines|].
  split; [apply split_lines_tail|].
  apply join_lines_split.
Qed.

(** ** How computations end

    A relation between the end of a computation and its log that holds of
    the primitive steps and is kept by sequencing holds of every part of
    a pass through [try]. *)

Section Ends.

Variable dbUrl : string.
Variable options : CouchDBChangesOptions.
Variable JSON_parse : Text -> option CouchDBChange.
Variable P : option Abrupt -> list Event -> Prop.
Hypothesis P_nil : P None [].
Hypothesis P_seq :
  forall a tr tr', P None tr -> P a tr' -> P a (tr ++ tr').
Hypothesis P_event : forall e, P None [e].
Hypothesis P_return : P (Some Return_) [].
Hypothesis P_throw : forall e, P (Some (Throw e)) [].
Hypothesis P_closed : forall c, P (Some Closed) [EvYield c].
Hypothesis P_stalled :
  forall s, P (abrupt_of (ctl (@stalled options unit s))) [].

Lemma ends_ret {A} (a : A) : ends P (ret a).
Proof. intros s. exact P_nil. Qed.

Lemma ends_get : ends P get.
Proof. intros s. exact P_nil. Qed.

Lemma ends_return {A} : ends P (@abrupt A Return_).
Proof. intros s. exact P_return. Qed.

Lemma ends_throw {A} (e : Error) : ends P (@abrupt A (Throw e)).
Proof. intros s. apply P_throw. Qed.

Lemma ends_bind {A B} (m : M A) (f : A -> M B) :
  ends P m -> (forall a, ends P (f a)) -> ends P (bind m f).
Proof.
  intros Hm Hf s. unfold bind. pose proof (Hm s) as H.
  destruct (ctl (m s)) as [a|b]; cbn [ctl evs abrupt_of] in *.
  - apply P_seq; [exact H | apply Hf].
  - exact H.
Qed.

Lemma ends_emit (e : Event) : ends P (emit e).
Proof. intros s. apply P_event. Qed.

Lemma ends_set_activeSeq (v : option Seq) : ends P (set_activeSeq v).
Proof. intros s. apply P_event. Qed.

Lemma ends_external_stop (b : bool) : ends P (external_stop b).
Proof. intros s. unfold external_stop. destruct b; [apply P_event | exact P_nil]. Qed.

Lemma ends_yield (c : CouchDBChange) : ends P (yield c).
Proof.
  intros s. unfold yield.
  destruct (consumer s) as [|[] k]; cbn [ctl evs abrupt_of];
    try apply P_event; try apply P_closed.
  apply (P_seq None [EvYield c] [EvStop]); apply P_event.
Qed.

Lemma ends_resetHeartbeat : ends P (resetHeartbeat options).
Proof.
  unfold resetHeartbeat. destruct (usesHeartbeat options); cbn.
  - apply ends_emit.
  - apply ends_ret.
Qed.

Lemma ends_stalled {A} : ends P (@stalled options A).
Proof.
  intros s. pose proof (P_stalled s) as H. unfold stalled in *.
  destruct (usesHeartbeat options && negb (aborted s)); exact H.
Qed.

Lemma ends_yield_results (l : list CouchDBChange) : ends P (yield_results l).
Proof.
  induction l as [|c l IH]; cbn [yield_results].
  - apply ends_ret.
  - apply ends_bind; [apply ends_set_activeSeq|intros _].
    apply ends_bind; [apply ends_yield|intros _]. exact IH.
Qed.

Lemma ends_batch (response : Response) : ends P (batch options response).
Proof.
  unfold batch. destruct (json response) as [data|]; [|apply ends_throw].
  apply ends_bind; [apply ends_yield_results|intros _].
  apply ends_bind.
  - destruct (truthy_seq (last_seq data));
      [apply ends_set_activeSeq | apply ends_ret].
  - intros _. apply ends_bind; [apply ends_get|intros s].
    destruct (isLongpoll options && negb (aborted s));
      [apply ends_ret|apply ends_return].
Qed.

Lemma ends_lines_loop (done : bool) (lines : list Text) (tail : Text) :
  ends P (lines_loop options JSON_parse done lines tail).
Proof.
  induction lines as [|raw lines IH]; cbn [lines_loop].
  - apply ends_ret.
  - intros s. destruct (aborted s); [exact P_return|].
    destruct (isEventsource options && startsWith (trim raw) (text_of_string "event:"));
      [apply IH|].
    match goal with |- context [is_empty ?x] => destruct (is_empty x) end.
    + destruct done; [exact P_return | apply IH].
    + match goal with |- context [JSON_parse ?x] => destruct (JSON_parse x) end.
      * revert s. apply ends_bind; [apply ends_set_activeSeq|intros _].
        apply ends_bind; [apply ends_yield|intros _]. exact IH.
      * cbn [negb andb].
        match goal with |- context [truthy_number ?x] => destruct (truthy_number x) end;
          [apply P_throw | apply IH].
Qed.

Lemma ends_on_read (done : bool) (decoder : TextDecoder) (buffer : Text)
  (value : Bytes) : ends P (on_read options JSON_parse done decoder buffer value).
Proof.
  unfold on_read. apply ends_bind; [apply ends_resetHeartbeat|intros _].
  destruct (decode decoder value) as [d t].
  destruct (split_lines (buffer ++ t)) as [ls tl].
  apply ends_bind; [apply ends_lines_loop|intros b; apply ends_ret].
Qed.

Lemma ends_read_loop (reader : list Read) :
  forall (decoder : TextDecoder) (buffer : Text),
    ends P (read_loop options JSON_parse reader decoder buffer).
Proof.
  induction reader as [|r reader IH]; intros decoder buffer s; cbn [read_loop].
  - destruct (aborted s); [exact P_nil | apply ends_stalled].
  - destruct (aborted s); [exact P_nil|]. revert s.
    apply ends_bind; [apply ends_external_stop|intros _].
    destruct (read_result r).
    + apply ends_bind; [apply ends_on_read|intros db].
      apply ends_bind; [apply ends_get|intros s'].
      destruct (aborted s'); [apply ends_return | apply IH].
    + apply ends_bind; [apply ends_on_read|intros _; apply ends_return].
    + apply ends_throw.
    + apply ends_stalled.
Qed.

Lemma ends_try_block (a : Attempt) :
  ends P (try_block dbUrl options JSON_parse a).
Proof.
  unfold try_block.
  apply ends_bind; [apply ends_resetHeartbeat|intros _].
  apply ends_bind; [apply ends_get|intros s].
  apply ends_bind; [apply ends_emit|intros _].
  apply ends_bind; [apply ends_external_stop|intros _].
  apply ends_bind.
  - destruct (fetch_result a); cbn [await_fetch];
      [apply ends_ret | apply ends_throw | apply ends_stalled].
  - intros response.
    destruct (negb (ok response)); [apply ends_throw|].
    destruct (isNormal options || isLongpoll options); [apply ends_batch|].
    destruct (body response); [apply ends_read_loop | apply ends_throw].
Qed.

Hypothesis P_hang : P (Some Hang) [].
Hypothesis P_caught : forall e tr, P (Some (Throw e)) tr -> P None tr.

Lemma ends_catch_block (a : Attempt) (retryCount : nat) (error : Error) :
  ends P (catch_block options a retryCount error).
Proof.
  intros s. rewrite catch_block_cases.
  destruct (aborted s); [exact P_return|].
  destruct (live options); [|apply P_throw].
  cbn [ctl evs abrupt_of].
  apply (P_seq None [EvTimerSet _] (_ ++ [EvTimerFired])); [apply P_event|].
  destruct (abort_in_sleep a); cbn [app]; [|apply P_event].
  apply (P_seq None [EvStop] [EvTimerFired]); apply P_event.
Qed.

Lemma ends_fetchChanges_loop (world : list Attempt) :
  forall retryCount : nat,
    ends P (fetchChanges_loop dbUrl options JSON_parse world retryCount).
Proof.
  induction world as [|a world IH]; intros retryCount s; cbn [fetchChanges_loop].
  - destruct (aborted s); [exact P_nil | exact P_hang].
  - destruct (aborted s); [exact P_nil|].
    pose proof (ends_try_block a s) as Ht.
    destruct (ctl (try_block dbUrl options JSON_parse a s)) as [u|[|error| |]];
      cbn [ctl evs abrupt_of] in *; try exact Ht.
    + apply P_seq; [exact Ht | apply IH].
    + pose proof (ends_catch_block a retryCount error
                    (st (try_block dbUrl options JSON_parse a s))) as Hc.
      apply P_caught in Ht.
      destruct (ctl (catch_block options a retryCount error
                       (st (try_block dbUrl options JSON_parse a s))))
        as [rc|b]; cbn [ctl evs abrupt_of] in *.
      * apply P_seq; [exact Ht|]. apply P_seq; [exact Hc | apply IH].
      * apply P_seq; [exact Ht | exact Hc].
Qed.

End Ends.

(** ** Passes, requests and sleeps *)

Section Passes.

Variable dbUrl : string.
Variable options : CouchDBChangesOptions.
Variable JSON_parse : Text -> option CouchDBChange.

Lemma try_block_after_fetch (a : Attempt) (s : State) :
  try_block dbUrl options JSON_parse a s
  = let s0 := if abort_in_fetch a then stop s else s in
    let r := after_fetch options JSON_parse (fetch_result a) s0 in
    mkRes (ctl r) (st r)
      (heartbeat_log options
       ++ EvRequest (buildRequest dbUrl options (activeSeq s))
       :: (if abort_in_fetch a then [EvStop] else []) ++ evs r).
Proof.
  unfold try_block, after_fetch.
  rewrite (bind_ok _ _ s tt) by (rewrite resetHeartbeat_eq; reflexivity).
  rewrite resetHeartbeat_eq. cbn [ctl st evs].
  rewrite (bind_ok _ _ s s) by reflexivity. cbn [get st evs ctl app].
  rewrite (bind_ok _ _ s tt) by reflexivity. cbn [emit st evs ctl].
  rewrite (bind_ok _ _ s tt)
    by (unfold external_stop; destruct (abort_in_fetch a); reflexivity).
  replace (st (external_stop (abort_in_fetch a) s))
    with (if abort_in_fetch a then stop s else s)
    by (unfold external_stop; destruct (abort_in_fetch a); reflexivity).
  replace (evs (external_stop (abort_in_fetch a) s))
    with (if abort_in_fetch a then [EvStop] else [])
    by (unfold external_stop; destruct (abort_in_fetch a); reflexivity).
  cbn [ret ctl st evs app]. reflexivity.
Qed.

Lemma after_fetch_no_request (f : FetchResult) (s : State) :
  requests (evs (after_fetch options JSON_parse f s)) = [].
Proof.
  assert (Happ : forall (s0 : State) a (s1 : State) b (s2 : State),
             requests a = [] -> requests b = [] -> requests (a ++ b) = []).
  { intros _ a _ b _ Ha Hb. unfold requests in *.
    rewrite flat_map_app, Ha, Hb. reflexivity. }
  assert (Hrec : forall s0 c,
             requests (evs ((set_activeSeq (seq c) ;; yield c)%gen s0)) = []).
  { intros s0 c. rewrite record_step.
    destruct (consumer s0) as [|[] k]; reflexivity. }
  pose proof (steps_after_request options JSON_parse
                (fun _ tr _ => requests tr = [])
                (fun _ => eq_refl) Happ (fun _ _ => eq_refl)
                (fun _ _ _ => eq_refl) (fun _ => eq_refl) Hrec) as H.
  specialize (H (mkAttempt false f 0 false) s).
  unfold after_fetch. unfold bind at 1 in H.
  cbn [external_stop abort_in_fetch fetch_result ctl st evs app] in H.
  exact H.
Qed.

Lemma try_block_one_request (a : Attempt) (s : State) :
  requests (evs (try_block dbUrl options JSON_parse a s))
  = [buildRequest dbUrl options (activeSeq s)].
Proof.
  rewrite try_block_after_fetch. cbn zeta. cbn [evs].
  unfold requests. rewrite flat_map_app. cbn [flat_map].
  rewrite flat_map_app.
  fold (requests (evs (after_fetch options JSON_parse (fetch_result a)
                         (if abort_in_fetch a then stop s else s)))).
  rewrite after_fetch_no_request.
  unfold heartbeat_log.
  destruct (usesHeartbeat options); destruct (abort_in_fetch a); reflexivity.
Qed.

Lemma read_loop_falls_out (reader : list Read) :
  forall (decoder : TextDecoder) (buffer : Text) (s : State) (u : unit),
    ctl (read_loop options JSON_parse reader decoder buffer s) = inl u ->
    aborted (st (read_loop options JSON_parse reader decoder buffer s)) = true.
Proof.
  induction reader as [|r reader IH]; intros decoder buffer s u H;
    destruct (aborted s) eqn:Ha;
    try (rewrite read_loop_aborted by exact Ha; exact Ha).
  - cbn [read_loop] in H. rewrite Ha in H. unfold stalled in H.
    destruct (usesHeartbeat options && negb (aborted s)); discriminate.
  - destruct (read_result r) eqn:Er.
    + rewrite (read_loop_chunk options JSON_parse r reader decoder buffer s value Ha Er) in *.
      cbn zeta in *.
      destruct (ctl (on_read options JSON_parse false decoder buffer value
                       (if abort_in_read r then stop s else s))) as [db|b];
        [|discriminate].
      destruct (aborted (st (on_read options JSON_parse false decoder buffer value
                               (if abort_in_read r then stop s else s)))) eqn:Hb;
        [discriminate|].
      cbn [ctl st] in *. eapply IH. exact H.
    + rewrite (read_loop_done options JSON_parse r reader decoder buffer s Ha Er) in H.
      cbn zeta in H.
      destruct (ctl (on_read options JSON_parse true decoder buffer []
                       (if abort_in_read r then stop s else s))); discriminate.
    + cbn [read_loop] in H. rewrite Ha, Er in H. unfold bind, external_stop in H.
      destruct (abort_in_read r); discriminate.
    + cbn [read_loop] in H. rewrite Ha, Er in H.
      unfold bind, external_stop, stalled in H.
      destruct (abort_in_read r); cbn [ctl st evs] in H;
        match type of H with
        | context [if ?b then _ else _] => destruct b
        end; discriminate.
Qed.

Lemma batch_goes_on (response : Response) (s : State) (u : unit) :
  ctl (batch options response s) = inl u -> isLongpoll options = true.
Proof.
  unfold batch. destruct (json response) as [data|]; [|discriminate].
  destruct (isLongpoll options); [reflexivity|]. cbn [andb].
  unfold bind.
  destruct (ctl (yield_results (results data) s)); [|discriminate].
  cbn [ctl st evs].
  match goal with
  | |- context [ctl (?m ?x)] => destruct (ctl (m x)); [|discriminate]
  end.
  discriminate.
Qed.

Lemma after_fetch_falls_out (f : FetchResult) (s : State) (u : unit) :
  isLongpoll options = false ->
  ctl (after_fetch options JSON_parse f s) = inl u ->
  aborted (st (after_fetch options JSON_parse f s)) = true.
Proof.
  intros Hl. unfold after_fetch.
  destruct f as [response|e|]; cbn [await_fetch].
  - rewrite (bind_ok _ _ s response) by reflexivity. cbn [ret ctl st evs app].
    destruct (negb (ok response)); [discriminate|].
    destruct (isNormal options || isLongpoll options).
    + intros H. apply batch_goes_on in H. congruence.
    + destruct (body response) as [reader|]; [|discriminate].
      apply read_loop_falls_out.
  - discriminate.
  - unfold bind, stalled.
    destruct (usesHeartbeat options && negb (aborted s)); discriminate.
Qed.

Lemma try_block_falls_out (a : Attempt) (s : State) (u : unit) :
  isLongpoll options = false ->
  ctl (try_block dbUrl options JSON_parse a s) = inl u ->
  aborted (st (try_block dbUrl options JSON_parse a s)) = true.
Proof.
  intros Hl. rewrite try_block_after_fetch. cbn zeta. cbn [ctl st].
  apply after_fetch_falls_out. exact Hl.
Qed.

Lemma catch_block_no_request (a : Attempt) (retryCount : nat) (error : Error)
  (s : State) :
  requests (evs (catch_block options a retryCount error s)) = [].
Proof.
  rewrite catch_block_cases.
  destruct (aborted s); [reflexivity|].
  destruct (live options); [|reflexivity].
  destruct (abort_in_sleep a); reflexivity.
Qed.

Lemma catch_block_sleeps_ctl (a : Attempt) (retryCount : nat) (error : Error)
  (s : State) :
  sleeps (evs (catch_block options a retryCount error s))
  = match ctl (catch_block options a retryCount error s) with
    | inl _ => [delay (S retryCount) (random a)]
    | inr _ => []
    end.
Proof.
  rewrite catch_block_cases.
  destruct (aborted s); [reflexivity|].
  destruct (live options); [|reflexivity].
  destruct (abort_in_sleep a); reflexivity.
Qed.

Lemma catch_block_retries (a : Attempt) (retryCount : nat) (error : Error)
  (s : State) (rc : nat) :
  ctl (catch_block options a retryCount error s) = inl rc ->
  live options = true.
Proof.
  rewrite catch_block_cases.
  destruct (aborted s); [discriminate|].
  destruct (live options); [reflexivity | discriminate].
Qed.

(** X6: a feed other than longpoll asks again only after a failure: over
    an iteration there is at most one request more than there were backoff
    sleeps, and without [live] there is no sleep, hence at most one
    request. *)
Theorem X6_one_request_per_failure :
  forall (world : list Attempt) (retryCount : nat) (s : State),
    isLongpoll options = false ->
    let tr := evs (fetchChanges_loop dbUrl options JSON_parse world retryCount s) in
    (List.length (requests tr) <= S (List.length (sleeps tr)))%nat
    /\ (live options = false ->
        sleeps tr = [] /\ (List.length (requests tr) <= 1)%nat).
Proof.
  intros world retryCount s Hl. cbn zeta.
  assert (G : let tr := evs (fetchChanges_loop dbUrl options JSON_parse world
                               retryCount s) in
              (List.length (requests tr) <= S (List.length (sleeps tr)))%nat
              /\ (live options = false -> sleeps tr = [])).
  { revert retryCount s.
    induction world as [|a world IH]; intros retryCount s; cbn zeta;
      cbn [fetchChanges_loop].
    - destruct (aborted s); cbn; split; auto.
    - destruct (aborted s) eqn:Ha; [cbn; split; auto|].
      pose proof (try_block_one_request a s) as Hr.
      pose proof (try_block_no_sleeps dbUrl options JSON_parse a s) as Hs.
      pose proof (try_block_falls_out a s) as Hf.
      destruct (ctl (try_block dbUrl options JSON_parse a s)) as [u|[|error| |]];
        cbn [ctl st evs];
        try (rewrite Hr, Hs; cbn; split; [lia | reflexivity]).
      + rewrite (fetchChanges_loop_aborted dbUrl options JSON_parse world
                   retryCount _ (Hf u Hl eq_refl)).
        cbn [evs]. rewrite app_nil_r, Hr, Hs. cbn. split; [lia | reflexivity].
      + pose proof (catch_block_no_request a retryCount error
                      (st (try_block dbUrl options JSON_parse a s))) as Cr.
        pose proof (catch_block_sleeps_ctl a retryCount error
                      (st (try_block dbUrl options JSON_parse a s))) as Cs.
        pose proof (catch_block_retries a retryCount error
                      (st (try_block dbUrl options JSON_parse a s))) as Cl.
        destruct (ctl (catch_block options a retryCount error
                         (st (try_block dbUrl options JSON_parse a s))))
          as [rc|b]; cbn [ctl st evs].
        * destruct (IH rc (st (catch_block options a retryCount error
                                 (st (try_block dbUrl options JSON_parse a s)))))
            as [I1 I2].
          rewrite !requests_app, !sleeps_app, Hr, Hs, Cr, Cs.
          cbn [app List.length]. split; [lia|].
          intros Hlive. specialize (Cl rc eq_refl). congruence.
        * rewrite !requests_app, !sleeps_app, Hr, Hs, Cr, Cs.
          cbn. split; [lia | reflexivity]. }
  destruct G as [G1 G2]. split; [exact G1|].
  intros Hlive. specialize (G2 Hlive). split; [exact G2|].
  rewrite G2 in G1. exact G1.
Qed.

Lemma fetchChanges_loop_live (world : list Attempt) :
  forall (retryCount : nat) (s : State) (e : Error),
    live options = true ->
    ctl (fetchChanges_loop dbUrl options JSON_parse world retryCount s)
    <> inr (Throw e).
Proof.
  induction world as [|a world IH]; intros retryCount s e Hlive;
    cbn [fetchChanges_loop].
  - destruct (aborted s); discriminate.
  - destruct (aborted s); [discriminate|].
    destruct (ctl (try_block dbUrl options JSON_parse a s)) as [u|[|error| |]];
      cbn [ctl]; try discriminate.
    + apply IH. exact Hlive.
    + rewrite catch_block_cases.
      destruct (aborted (st (try_block dbUrl options JSON_parse a s)));
        [discriminate|].
      rewrite Hlive. cbn [ctl st evs]. apply IH. exact Hlive.
Qed.

(** X7: with [live] on, an iteration never ends in an error, whatever the
    server, the network and the consumer do: it completes, is closed by
    the consumer, or is still waiting. *)
Theorem X7_live_never_fails :
  forall (world : list Attempt) (s : State) (e : Error),
    live options = true ->
    fst (fst (asyncIterator dbUrl options JSON_parse world s)) <> Failed e.
Proof.
  intros world s e Hlive. unfold asyncIterator, fetchChanges.
  pose proof (fetchChanges_loop_live world 0 s) as H.
  destruct (ctl (fetchChanges_loop dbUrl options JSON_parse world 0 s))
    as [u|[|error| |]]; cbn; try discriminate.
  exfalso. apply (H error Hlive). reflexivity.
Qed.

Lemma on_read_settles (done : bool) (decoder : TextDecoder) (buffer : Text)
  (value : Bytes) (s : State) :
  ctl (on_read options JSON_parse done decoder buffer value s) <> inr Hang.
Proof.
  assert (E : abrupt_of (ctl (on_read options JSON_parse done decoder buffer value s))
              <> Some Hang).
  { apply (ends_on_read options JSON_parse (fun b _ => b <> Some Hang));
      try discriminate.
    intros b tr tr' _ Hb. exact Hb. }
  intros C. rewrite C in E. apply E. reflexivity.
Qed.

Lemma batch_settles (response : Response) (s : State) :
  ctl (batch options response s) <> inr Hang.
Proof.
  assert (E : abrupt_of (ctl (batch options response s)) <> Some Hang).
  { apply (ends_batch options (fun b _ => b <> Some Hang));
      try discriminate.
    intros b tr tr' _ Hb. exact Hb. }
  intros C. rewrite C in E. apply E. reflexivity.
Qed.

Lemma read_loop_settles (reader : list Read) :
  forall (decoder : TextDecoder) (buffer : Text) (s : State),
    usesHeartbeat options = true ->
    aborted s = false ->
    reads_unaborted reader = true ->
    ctl (read_loop options JSON_parse reader decoder buffer s) <> inr Hang.
Proof.
  induction reader as [|r reader IH]; intros decoder buffer s Hu Ha Hr.
  - cbn [read_loop]. rewrite Ha. unfold stalled. rewrite Hu, Ha. discriminate.
  - cbn [reads_unaborted forallb] in Hr. apply andb_true_iff in Hr.
    destruct Hr as [Hr0 Hr]. apply negb_true_iff in Hr0.
    destruct (read_result r) as [value| |e|] eqn:Er.
    + rewrite (read_loop_chunk options JSON_parse r reader decoder buffer s value Ha Er).
      rewrite Hr0. cbv zeta.
      pose proof (on_read_settles false decoder buffer value s) as Ho.
      destruct (ctl (on_read options JSON_parse false decoder buffer value s))
        as [db|b].
      * destruct (aborted (st (on_read options JSON_parse false decoder buffer value s)))
          eqn:Ha1; cbn [ctl]; [discriminate|].
        apply IH; assumption.
      * cbn [ctl]. intros C. apply Ho. congruence.
    + rewrite (read_loop_done options JSON_parse r reader decoder buffer s Ha Er).
      rewrite Hr0. cbv zeta.
      pose proof (on_read_settles true decoder buffer [] s) as Ho.
      destruct (ctl (on_read options JSON_parse true decoder buffer [] s))
        as [db|b]; cbn [ctl]; [discriminate|].
      intros C. apply Ho. congruence.
    + cbn [read_loop]. rewrite Ha, Er, Hr0. discriminate.
    + cbn [read_loop]. rewrite Ha, Er, Hr0.
      unfold bind, external_stop, stalled. cbn [ctl st evs].
      rewrite Hu, Ha. discriminate.
Qed.

Lemma try_block_settles (a : Attempt) (s : State) :
  usesHeartbeat options = true ->
  aborted s = false ->
  pass_unaborted a = true ->
  ctl (try_block dbUrl options JSON_parse a s) <> inr Hang.
Proof.
  intros Hu Ha Hp. unfold pass_unaborted in Hp.
  apply andb_true_iff in Hp. destruct Hp as [Hf Hb].
  apply negb_true_iff in Hf.
  rewrite try_block_after_fetch. rewrite Hf. cbv zeta. cbn [ctl].
  unfold after_fetch.
  destruct (fetch_result a) as [response|e|]; cbn [await_fetch].
  - rewrite (bind_ok _ _ s response) by reflexivity. cbn [ret ctl st evs].
    destruct (negb (ok response)); [discriminate|].
    destruct (isNormal options || isLongpoll options); [apply batch_settles|].
    destruct (body response) as [reads|]; [|discriminate].
    apply read_loop_settles; assumption.
  - discriminate.
  - unfold bind, stalled. rewrite Hu, Ha. discriminate.
Qed.

(** X8: with the watchdog in use, a pass begun with the signal not
    aborted, and during which nobody aborts it from outside, never waits
    for ever: it goes on, returns, throws or is closed by the consumer.
    Without [live] the iteration then ends, and a fetch that never settles
    ends it with the timeout of the watchdog.  An abort while the fetch is
    out clears the timer: a fetch that never settles then leaves the
    iteration waiting, the controller aborted and the [finally] block not
    run. *)
Theorem X8_watchdog_ends_every_wait :
  forall (a : Attempt) (world : list Attempt) (s : State),
    usesHeartbeat options = true ->
    aborted s = false ->
    (pass_unaborted a = true ->
     ctl (try_block dbUrl options JSON_parse a s) <> inr Hang)
    /\ (pass_unaborted a = true -> live options = false ->
        fst (fst (asyncIterator dbUrl options JSON_parse (a :: world) s))
        <> Pending)
    /\ (abort_in_fetch a = false -> fetch_result a = FetchStall ->
        live options = false ->
        fst (fst (asyncIterator dbUrl options JSON_parse (a :: world) s))
        = Failed (HeartbeatTimeoutError (adjustedTimeout options)))
    /\ (abort_in_fetch a = true -> fetch_result a = FetchStall ->
        asyncIterator dbUrl options JSON_parse (a :: world) s
        = (Pending, stop s,
           [EvHeartbeat (adjustedTimeout options);
            EvRequest (buildRequest dbUrl options (activeSeq s));
            EvStop])).
Proof.
  intros a world s Hu Ha.
  assert (Hl : isLongpoll options = false).
  { unfold usesHeartbeat, isContinuous, isEventsource, isLongpoll in *.
    destruct (get_feed options) as [[]|]; cbn in Hu; try discriminate;
      reflexivity. }
  split; [apply try_block_settles; assumption|]. split; [|split].
  - intros Hp Hlive. unfold asyncIterator, fetchChanges. cbn [fetchChanges_loop].
    rewrite Ha.
    pose proof (try_block_settles a s Hu Ha Hp) as Hh.
    pose proof (try_block_falls_out a s) as Hf.
    destruct (ctl (try_block dbUrl options JSON_parse a s)) as [u|[|error| |]];
      cbn [ctl]; try (cbn; discriminate).
    + rewrite (fetchChanges_loop_aborted dbUrl options JSON_parse world
                 0 _ (Hf u Hl eq_refl)).
      cbn. discriminate.
    + rewrite catch_block_cases.
      destruct (aborted (st (try_block dbUrl options JSON_parse a s)));
        [cbn; discriminate|].
      rewrite Hlive. cbn. discriminate.
    + exfalso. apply Hh. reflexivity.
  - intros Hab Hf Hlive.
    unfold asyncIterator, fetchChanges. cbn [fetchChanges_loop].
    rewrite Ha. rewrite try_block_after_fetch. rewrite Hab, Hf. cbn zeta.
    unfold after_fetch. cbn [await_fetch]. unfold bind, stalled.
    rewrite Hu, Ha. cbn [negb andb abrupt ctl st evs].
    rewrite catch_block_cases. rewrite Ha, Hlive. reflexivity.
  - intros Hab Hf.
    unfold asyncIterator, fetchChanges. cbn [fetchChanges_loop].
    rewrite Ha. rewrite try_block_after_fetch. rewrite Hab, Hf. cbn zeta.
    unfold after_fetch. cbn [await_fetch]. unfold bind, stalled.
    rewrite Hu. cbn [stop abort aborted negb andb abrupt ctl st evs outcome].
    unfold heartbeat_log. rewrite Hu. reflexivity.
Qed.

End Passes.

Lemma X6_witness :
  let tr := evs (fetchChanges_loop "http://db" [opt_feed continuous; opt_live true]
                   sample_parse
                   [quiet_attempt (Reject (TransportError "refused")) 0;
                    quiet_attempt (Reject (TransportError "refused")) 0]
                   0 (mkState false None [])) in
  (List.length (requests tr) <= S (List.length (sleeps tr)))%nat.
Proof.
  exact (proj1 (X6_one_request_per_failure "http://db"
                  [opt_feed continuous; opt_live true] sample_parse
                  [quiet_attempt (Reject (TransportError "refused")) 0;
                   quiet_attempt (Reject (TransportError "refused")) 0]
                  0 (mkState false None []) eq_refl)).
Defined.

Lemma X7_witness :
  fst (fst (asyncIterator "http://db" [opt_feed continuous; opt_live true]
              sample_parse
              [quiet_attempt (Reject (TransportError "refused")) 0]
              (mkState false None [])))
  <> Failed (TransportError "refused").
Proof.
  exact (X7_live_never_fails "http://db" [opt_feed continuous; opt_live true]
           sample_parse [quiet_attempt (Reject (TransportError "refused")) 0]
           (mkState false None []) (TransportError "refused") eq_refl).
Defined.

Lemma X8_witness :
  fst (fst (asyncIterator "http://db" [opt_feed continuous] sample_parse
              [quiet_attempt FetchStall 0] (mkState false None [])))
  = Failed (HeartbeatTimeoutError (adjustedTimeout [opt_feed continuous])).
Proof.
  exact (proj1 (proj2 (proj2 (X8_watchdog_ends_every_wait "http://db"
                                [opt_feed continuous] sample_parse
                                (quiet_attempt FetchStall 0) []
                                (mkState false None []) eq_refl eq_refl)))
           eq_refl eq_refl eq_refl).
Defined.

(** ** The longpoll feed *)

Lemma yield_results_pulling (l : list CouchDBChange) :
  forall s : State,
    keeps_pulling s ->
    exists s',
      yield_results l s = mkRes (inl tt) s' (record_log l)
      /\ aborted s' = aborted s
      /\ activeSeq s' = cursor_after l (activeSeq s)
      /\ keeps_pulling s'.
Proof.
  induction l as [|c l IH]; intros s Hk; cbn [yield_results].
  - exists s. repeat split; try reflexivity. exact Hk.
  - rewrite cursor_yield_then. unfold keeps_pulling in Hk.
    destruct (consumer s) as [|act q] eqn:Ec.
    + destruct (IH (mkState (aborted s) (seq c) [])) as (s' & E & A & C & K);
        [constructor|].
      exists s'. cbn zeta. rewrite E. cbn [ctl st evs].
      repeat split; assumption.
    + inversion Hk as [|x y Hx Hy]; subst.
      destruct (IH (mkState (aborted s) (seq c) q)) as (s' & E & A & C & K);
        [exact Hy|].
      exists s'. cbn zeta. rewrite E. cbn [ctl st evs].
      repeat split; assumption.
Qed.

Lemma batch_pulling (o : CouchDBChangesOptions) (response : Response)
  (d : ChangesData) (s : State) :
  isLongpoll o = true ->
  aborted s = false ->
  keeps_pulling s ->
  json response = Some d ->
  exists s',
    batch o response s = mkRes (inl tt) s' (poll_log d)
    /\ aborted s' = false
    /\ activeSeq s' = poll_cursor (activeSeq s) d
    /\ keeps_pulling s'.
Proof.
  intros Hl Ha Hk Hj. unfold batch. rewrite Hj, Hl. cbn [andb].
  destruct (yield_results_pulling (results d) s Hk) as (s1 & E & A & C & K).
  rewrite (bind_ok _ _ s tt) by (rewrite E; reflexivity).
  rewrite E. cbn [ctl st evs].
  unfold poll_log, poll_cursor.
  destruct (truthy_seq (last_seq d)) eqn:Ht.
  - destruct (last_seq d) as [v|]; [|discriminate].
    rewrite (bind_ok _ _ s1 tt) by reflexivity.
    cbn [set_activeSeq ctl st evs].
    rewrite (bind_ok _ _ _ (mkState (aborted s1) (Some v) (consumer s1)))
      by reflexivity.
    cbn [get ctl st evs aborted]. rewrite A, Ha. cbn [negb ret ctl st evs].
    eexists. split; [rewrite app_nil_r; reflexivity|].
    repeat split; try assumption; try (cbn; congruence).
  - rewrite (bind_ok _ _ s1 tt) by reflexivity. cbn [ret ctl st evs].
    rewrite (bind_ok _ _ s1 s1) by reflexivity.
    cbn [get ctl st evs]. rewrite A, Ha. cbn [negb ret ctl st evs].
    eexists. split; [rewrite !app_nil_r; reflexivity|].
    repeat split; try assumption; try congruence.
Qed.

Lemma polls_log_yields (dbUrl : string) (o : CouchDBChangesOptions)
  (ds : list ChangesData) :
  forall cursor : option Seq,
    yields (polls_log dbUrl o cursor ds) = List.concat (map results ds)
    /\ sleeps (polls_log dbUrl o cursor ds) = []
    /\ List.length (requests (polls_log dbUrl o cursor ds)) = List.length ds.
Proof.
  assert (R : forall l, yields (record_log l) = l
                        /\ sleeps (record_log l) = []
                        /\ requests (record_log l) = []).
  { induction l as [|c l (I1 & I2 & I3)]; [repeat split|].
    change (record_log (c :: l))
      with ([EvCursor (seq c); EvYield c] ++ record_log l).
    rewrite yields_app, sleeps_app, requests_app, I1, I2, I3.
    repeat split. }
  assert (Q : forall d, yields (poll_log d) = results d
                        /\ sleeps (poll_log d) = []
                        /\ requests (poll_log d) = []).
  { intros d. unfold poll_log. destruct (R (results d)) as (R1 & R2 & R3).
    rewrite yields_app, sleeps_app, requests_app, R1, R2, R3.
    destruct (truthy_seq (last_seq d)); [destruct (last_seq d)|];
      cbn; rewrite ?app_nil_r; repeat split. }
  induction ds as [|d ds IH]; intros cursor; [repeat split|].
  cbn [polls_log map List.concat List.length].
  destruct (IH (poll_cursor cursor d)) as (I1 & I2 & I3).
  destruct (Q d) as (Q1 & Q2 & Q3).
  change (EvRequest (buildRequest dbUrl o cursor)
          :: poll_log d ++ polls_log dbUrl o (poll_cursor cursor d) ds)
    with ([EvRequest (buildRequest dbUrl o cursor)]
          ++ poll_log d ++ polls_log dbUrl o (poll_cursor cursor d) ds).
  rewrite !yields_app, !sleeps_app, !requests_app, Q1, Q2, Q3, I1, I2.
  cbn. rewrite I3. repeat split.
Qed.

(** X9: on a longpoll feed every batch that arrives is followed at once by
    the next request, built from the cursor the batch left: with a
    consumer that keeps pulling, a run of answered requests logs one
    request per batch, the records of the batches in order and no sleep,
    leaves [retryCount] as it was, and the iteration does not end of its
    own accord. *)
Theorem X9_longpoll_polls_again :
  forall (dbUrl : string) (o : CouchDBChangesOptions)
         (JSON_parse : Text -> option CouchDBChange)
         (polls : list Attempt) (ds : list ChangesData)
         (world : list Attempt) (retryCount : nat) (s : State),
    isLongpoll o = true ->
    aborted s = false ->
    keeps_pulling s ->
    Forall2 delivers polls ds ->
    let tr := polls_log dbUrl o (activeSeq s) ds in
    (exists s',
        aborted s' = false
        /\ keeps_pulling s'
        /\ activeSeq s' = fold_left poll_cursor ds (activeSeq s)
        /\ fetchChanges_loop dbUrl o JSON_parse (polls ++ world) retryCount s
           = let r := fetchChanges_loop dbUrl o JSON_parse world retryCount s' in
             mkRes (ctl r) (st r) (tr ++ evs r))
    /\ yields tr = List.concat (map results ds)
    /\ sleeps tr = []
    /\ List.length (requests tr) = List.length ds
    /\ asyncIterator dbUrl o JSON_parse polls s
       = (Pending,
          snd (fst (asyncIterator dbUrl o JSON_parse polls s)), tr).
Proof.
  intros dbUrl o JSON_parse polls ds world retryCount s Hl Ha Hk HF. cbn zeta.
  assert (G : forall retryCount world,
             exists s',
               aborted s' = false
               /\ keeps_pulling s'
               /\ activeSeq s' = fold_left poll_cursor ds (activeSeq s)
               /\ fetchChanges_loop dbUrl o JSON_parse (polls ++ world) retryCount s
                  = mkRes (ctl (fetchChanges_loop dbUrl o JSON_parse world retryCount s'))
                      (st (fetchChanges_loop dbUrl o JSON_parse world retryCount s'))
                      (polls_log dbUrl o (activeSeq s) ds
                       ++ evs (fetchChanges_loop dbUrl o JSON_parse world retryCount s'))).
  { clear retryCount world. intros retryCount world. revert s Ha Hk.
    induction HF as [|a d polls ds Had HF IH]; intros s Ha Hk.
    - exists s. cbn [app polls_log fold_left]. repeat split; try assumption.
      destruct (fetchChanges_loop dbUrl o JSON_parse world retryCount s);
        reflexivity.
    - destruct Had as (Hab & response & Hf & Hok & Hj).
      destruct (batch_pulling o response d s Hl Ha Hk Hj)
        as (s1 & E & A1 & C1 & K1).
      destruct (IH s1 A1 K1) as (s' & A' & K' & C' & E').
      exists s'. split; [exact A'|]. split; [exact K'|]. split.
      + cbn [fold_left]. rewrite <- C1. exact C'.
      + cbn [app fetchChanges_loop]. rewrite Ha.
        rewrite (try_block_resolved o JSON_parse dbUrl a response s Hf).
        rewrite Hab, Hok. cbn [negb]. rewrite Hl, orb_true_r. cbn zeta.
        rewrite E. cbn [ctl st evs]. rewrite E'. cbn [ctl st evs].
        unfold heartbeat_log.
        rewrite (normal_no_heartbeat o)
          by (rewrite Hl; apply orb_true_r).
        cbn [app polls_log]. rewrite C1. rewrite <- app_assoc. reflexivity. }
  split; [apply G|].
  destruct (polls_log_yields dbUrl o ds (activeSeq s)) as (Y & S & R).
  split; [exact Y|]. split; [exact S|]. split; [exact R|].
  destruct (G 0%nat []) as (s' & A' & K' & C' & E').
  unfold asyncIterator, fetchChanges.
  rewrite app_nil_r in E'. rewrite E'.
  cbn [fetchChanges_loop]. rewrite A'. cbn. rewrite app_nil_r. reflexivity.
Qed.

Lemma X9_witness :
  fst (fst (asyncIterator "http://db" [opt_feed longpoll] sample_parse
              [quiet_attempt
                 (Resolve (batch_response
                             (mkData [change_of_seq 1] (Some (SeqNum 1))))) 0]
              (mkState false None [])))
  = Pending.
Proof.
  assert (HF : Forall2 delivers
                 [quiet_attempt
                    (Resolve (batch_response
                                (mkData [change_of_seq 1] (Some (SeqNum 1))))) 0]
                 [mkData [change_of_seq 1] (Some (SeqNum 1))]).
  { constructor; [|constructor]. split; [reflexivity|].
    eexists. split; [reflexivity|]. split; reflexivity. }
  pose proof (X9_longpoll_polls_again "http://db" [opt_feed longpoll]
                sample_parse _ _ [] 0%nat (mkState false None [])
                eq_refl eq_refl (Forall_nil _) HF) as H.
  destruct H as (_ & _ & _ & _ & E). rewrite E. reflexivity.
Defined.

(** ** The consumer leaves the loop *)

(** X10: when the consumer leaves the loop, the generator does nothing
    more: the last thing logged is the record the consumer was holding,
    and the abort controller is aborted by the [finally] block. *)
Theorem X10_break_ends_at_the_record :
  forall (dbUrl : string) (o : CouchDBChangesOptions)
         (JSON_parse : Text -> option CouchDBChange)
         (world : list Attempt) (s : State),
    let run := asyncIterator dbUrl o JSON_parse world s in
    fst (fst run) = ClosedByConsumer ->
    ends_with_yield (snd run) /\ aborted (snd (fst run)) = true.
Proof.
  intros dbUrl o JSON_parse world s run Hc. subst run.
  unfold asyncIterator, fetchChanges in *.
  pose proof (ends_fetchChanges_loop dbUrl o JSON_parse
                (fun b tr => b = Some Closed -> ends_with_yield tr)) as H.
  assert (E : abrupt_of (ctl (fetchChanges_loop dbUrl o JSON_parse world 0 s))
              = Some Closed ->
              ends_with_yield (evs (fetchChanges_loop dbUrl o JSON_parse world 0 s))).
  { apply H; try discriminate.
    - intros b tr tr' _ Hb Hcl. destruct (Hb Hcl) as (pre & c & E).
      exists (tr ++ pre), c. rewrite E. apply app_assoc.
    - intros c _. exists [], c. reflexivity.
    - intros s0. unfold stalled.
      destruct (usesHeartbeat o && negb (aborted s0)); discriminate. }
  destruct (ctl (fetchChanges_loop dbUrl o JSON_parse world 0 s))
    as [u|[|error| |]]; cbn in *; try discriminate.
  split; [apply E; reflexivity | reflexivity].
Qed.

Lemma X10_witness :
  ends_with_yield
    (snd (asyncIterator "http://db" [] sample_parse
            [quiet_attempt
               (Resolve (batch_response
                           (mkData [change_of_seq 1; change_of_seq 2] None))) 0]
            (mkState false None [Break]))).
Proof.
  exact (proj1 (X10_break_ends_at_the_record "http://db" [] sample_parse
                  [quiet_attempt
                     (Resolve (batch_response
                                 (mkData [change_of_seq 1; change_of_seq 2] None))) 0]
                  (mkState false None [Break]) eq_refl)).
Defined.

(** ** Where a new connection resumes *)

Lemma follows_cursor_request (dbUrl : string) (o : CouchDBChangesOptions)
  (pre : list Event) (r : Request) (post : list Event) :
  forall cursor : option Seq,
    follows_cursor dbUrl o cursor (pre ++ EvRequest r :: post) ->
    r = buildRequest dbUrl o (replay cursor pre).
Proof.
  induction pre as [|e pre IH]; intros cursor H.
  - cbn in H. apply H.
  - destruct e; cbn [app follows_cursor replay] in *;
      try (apply IH; exact H); apply IH; apply H.
Qed.

Lemma paired_replay (dbUrl : string) (o : CouchDBChangesOptions)
  (pre : list Event) (r : Request) (post : list Event) :
  forall (pending : option (option Seq)) (cursor : option Seq),
    paired pending (pre ++ EvRequest r :: post) ->
    follows_cursor dbUrl o cursor (pre ++ EvRequest r :: post) ->
    replay cursor pre = cursor_after (yields pre) cursor
    /\ (pending <> None -> yields pre <> []).
Proof.
  induction pre as [|e pre IH]; intros pending cursor Hp Hf.
  - cbn in Hp. destruct Hp as [Hp _]. split; [reflexivity|].
    intros C. contradiction.
  - destruct e as [r0|v|c| |ms|d|]; cbn [app paired follows_cursor replay] in *;
      destruct Hp as [Hp1 Hp2].
    + destruct Hf as [_ Hf]. destruct (IH None cursor Hp2 Hf) as [I1 _].
      split; [exact I1 | intros C; contradiction].
    + destruct (IH (Some v) v Hp2 Hf) as [I1 I2].
      split; [|intros C; contradiction].
      rewrite I1. change (yields (EvCursor v :: pre)) with (yields pre).
      destruct (yields pre) as [|c l]; [|reflexivity].
      exfalso. apply I2; [discriminate | reflexivity].
    + destruct Hf as [Hc Hf]. destruct (IH None cursor Hp2 Hf) as [I1 _].
      split; [|discriminate].
      change (yields (EvYield c :: pre)) with (c :: yields pre).
      cbn [cursor_after]. rewrite <- Hc. exact I1.
    + destruct (IH None cursor Hp2 Hf) as [I1 _].
      split; [exact I1 | intros C; contradiction].
    + destruct (IH None cursor Hp2 Hf) as [I1 _].
      split; [exact I1 | intros C; contradiction].
    + destruct (IH None cursor Hp2 Hf) as [I1 _].
      split; [exact I1 | intros C; contradiction].
    + destruct (IH None cursor Hp2 Hf) as [I1 _].
      split; [exact I1 | intros C; contradiction].
Qed.

(** X11: on a continuous or eventsource feed every connection resumes
    from the [seq] of the last record that went to the consumer: a request
    that follows the records [ys ++ [c]] is built from the cursor [c.seq].
    It carries [since = c.seq] when [c] has a [seq]; when [c] has none the
    cursor is unset and the request carries the [since] of the
    configuration, if there is one.  A request made before any record is
    built from what the cursor held at the start. *)
Theorem X11_reconnect_resumes_after_last_record :
  forall (dbUrl : string) (o : CouchDBChangesOptions)
         (JSON_parse : Text -> option CouchDBChange)
         (world : list Attempt) (s : State)
         (pre : list Event) (r : Request) (post : list Event),
    streaming o = true ->
    snd (asyncIterator dbUrl o JSON_parse world s) = pre ++ EvRequest r :: post ->
    r = buildRequest dbUrl o (cursor_after (yields pre) (activeSeq s))
    /\ forall (ys : list CouchDBChange) (c : CouchDBChange),
         yields pre = ys ++ [c] ->
         r = buildRequest dbUrl o (seq c)
         /\ (forall v : Seq,
                seq c = Some v ->
                params_get (searchParams (req_url r)) "since"
                = Some (Seq_toString v))
         /\ (seq c = None ->
             params_get (searchParams (req_url r)) "since" = config_since o).
Proof.
  intros dbUrl o JSON_parse world s pre r post Hs E.
  assert (Hevs : snd (asyncIterator dbUrl o JSON_parse world s)
                 = evs (fetchChanges dbUrl o JSON_parse world s)).
  { unfold asyncIterator.
    destruct (outcome (ctl (fetchChanges dbUrl o JSON_parse world s))); reflexivity. }
  rewrite Hevs in E.
  pose proof (paired_fetchChanges dbUrl o JSON_parse world s Hs) as Hp.
  destruct (cursor_log_fetchChanges dbUrl o JSON_parse world s) as [_ Hf].
  rewrite E in Hp, Hf.
  pose proof (follows_cursor_request dbUrl o pre r post _ Hf) as Hr.
  destruct (paired_replay dbUrl o pre r post None _ Hp Hf) as [Hc _].
  rewrite Hc in Hr. split; [exact Hr|].
  intros ys c Hy. rewrite Hr, Hy.
  assert (Hl : forall l cur, cursor_after (l ++ [c]) cur = seq c).
  { induction l as [|x l IH]; intros cur; [reflexivity | apply IH]. }
  rewrite Hl. split; [reflexivity|].
  unfold buildRequest, buildUrl. cbn [req_url]. split.
  - intros v Hv. rewrite Hv. cbn [searchParams]. apply params_get_set_same.
  - intros Hv. rewrite Hv. cbn [searchParams].
    rewrite entries_params_since. reflexivity.
Qed.

Lemma X11_witness :
  params_get
    (searchParams
       (req_url (buildRequest "http://db" [opt_feed continuous; opt_live true]
                   (Some (SeqNum 1))))) "since"
  = Some "1"%string.
Proof.
  pose (o := [opt_feed continuous; opt_live true]).
  pose (w := [quiet_attempt
                (Resolve (mkResponse true 200 EmptyString None
                            (Some [mkRead false (Chunk (seq_line 1 ++ [newline])%list);
                                   mkRead false (ReadFail (TransportError "reset"))]))) 0;
              quiet_attempt (Reject (TransportError "refused")) 0]).
  pose (tr := snd (asyncIterator "http://db" o sample_parse w (mkState false None []))).
  assert (E : snd (asyncIterator "http://db" o sample_parse w (mkState false None []))
              = firstn 8 tr
                ++ EvRequest (buildRequest "http://db" o (Some (SeqNum 1)))
                :: skipn 9 tr)
    by (vm_compute; reflexivity).
  assert (Y : yields (firstn 8 tr) = [] ++ [change_of_seq 1])
    by (vm_compute; reflexivity).
  exact (proj1 (proj2 (proj2 (X11_reconnect_resumes_after_last_record
                                "http://db" o sample_parse w
                                (mkState false None [])
                                (firstn 8 tr) _ (skipn 9 tr) eq_refl E)
                         [] (change_of_seq 1) Y))
           (SeqNum 1) eq_refl).
Defined.

(** ** Lines that do not parse, lines that are passed over *)

Section Lines.

Variable options : CouchDBChangesOptions.
Variable JSON_parse : Text -> option CouchDBChange.

Lemma lines_loop_malformed (done : bool) (raw : Text) (lines : list Text)
  (tail : Text) (s : State) :
  aborted s = false ->
  is_event_line options raw = false ->
  is_empty (trim (payload options raw)) = false ->
  JSON_parse (payload options raw) = None ->
  lines_loop options JSON_parse done (raw :: lines) tail s
  = mkRes (inr (Throw (ParseError (payload options raw)))) s [].
Proof.
  unfold is_event_line, payload. intros Ha He Hn Hp.
  cbn [lines_loop]. cbv zeta. rewrite Ha, He.
  pose proof (raw_line_nonempty _ raw Hn) as Hlen.
  match goal with
  | |- context [is_empty ?x] =>
      replace (is_empty x) with false by (symmetry; exact Hn)
  end.
  match goal with
  | |- context [JSON_parse ?x] =>
      replace (JSON_parse x) with (@None CouchDBChange) by (symmetry; exact Hp)
  end.
  cbn [negb andb].
  rewrite indexOf_truthy by exact Hlen. reflexivity.
Qed.

Lemma lines_loop_ignored (lines : list Text) (tail : Text) (s : State) :
  aborted s = false ->
  forallb (ignored_line options) lines = true ->
  lines_loop options JSON_parse false lines tail s = mkRes (inl tail) s [].
Proof.
  intros Ha. induction lines as [|raw lines IH]; intros Hi; [reflexivity|].
  cbn [forallb] in Hi. apply andb_true_iff in Hi. destruct Hi as [Hr Hi].
  cbn [lines_loop]. cbv zeta. rewrite Ha.
  unfold ignored_line, is_event_line, payload in Hr.
  destruct (isEventsource options && startsWith (trim raw) (text_of_string "event:"));
    [apply IH; exact Hi|].
  cbn [orb] in Hr.
  match goal with
  | |- context [is_empty ?x] =>
      replace (is_empty x) with true by (symmetry; exact Hr)
  end.
  apply IH. exact Hi.
Qed.

(** X12: a line that is neither passed over nor parsed ends the pass with
    the parse error, wherever it stands in the buffer and whatever follows
    it: on a signal that is not aborted the second half of the guard in
    [catch] never holds an error back. *)
Theorem X12_parse_error_is_never_held_back :
  forall (done : bool) (before : list Text) (raw : Text) (after : list Text)
         (tail : Text) (s : State) (tail' : Text),
    let r := lines_loop options JSON_parse done before tail s in
    ctl r = inl tail' ->
    aborted (st r) = false ->
    is_event_line options raw = false ->
    is_empty (trim (payload options raw)) = false ->
    JSON_parse (payload options raw) = None ->
    lines_loop options JSON_parse done (before ++ raw :: after) tail s
    = mkRes (inr (Throw (ParseError (payload options raw)))) (st r) (evs r).
Proof.
  intros done before raw after tail s tail' r Hc Ha He Hn Hp. subst r.
  rewrite (lines_loop_app options JSON_parse done before (raw :: after) tail tail).
  cbv zeta. rewrite Hc.
  rewrite lines_loop_malformed by assumption.
  cbn [ctl st evs]. rewrite app_nil_r. reflexivity.
Qed.

(** X13: what is left in the buffer when the stream ends is dropped: a
    last chunk without a newline, followed by the end of the stream, is
    never parsed and yields nothing, be it a complete record. *)
Theorem X13_unterminated_last_line_is_dropped :
  forall (value : Bytes) (rest : list Read) (decoder : TextDecoder)
         (buffer : Text) (s : State),
    aborted s = false ->
    ~ In newline buffer ->
    ~ In newline (snd (decode decoder value)) ->
    read_loop options JSON_parse
      (mkRead false (Chunk value) :: mkRead false Done :: rest) decoder buffer s
    = mkRes (inr Return_) s (heartbeat_log options ++ heartbeat_log options).
Proof.
  intros value rest decoder buffer s Ha Hb Hv.
  assert (Hn : ~ In newline (buffer ++ snd (decode decoder value))).
  { intros C. apply in_app_or in C. tauto. }
  rewrite (read_loop_chunk options JSON_parse (mkRead false (Chunk value)) _
             decoder buffer s value Ha eq_refl).
  cbn [abort_in_read]. cbv zeta.
  rewrite on_read_eq. cbv zeta.
  rewrite (split_lines_no_newline _ Hn). cbn [fst snd lines_loop ret ctl st evs].
  rewrite Ha.
  rewrite (read_loop_done options JSON_parse (mkRead false Done) rest _ _ s Ha eq_refl).
  cbn [abort_in_read]. cbv zeta.
  rewrite on_read_eq. cbv zeta. cbn [decode fst snd]. rewrite app_nil_r.
  rewrite (split_lines_no_newline _ Hn). cbn [fst snd lines_loop ret ctl st evs app].
  rewrite !app_nil_r. reflexivity.
Qed.

(** X14: a chunk that completes only lines that are passed over, such as
    the newline the server sends as a heartbeat, yields nothing and moves
    no cursor: the watchdog is armed again and the next read follows, with
    the text after the last newline kept for it. *)
Theorem X14_heartbeat_newlines_only_rearm :
  forall (value : Bytes) (rest : list Read) (decoder : TextDecoder)
         (buffer : Text) (s : State),
    aborted s = false ->
    forallb (ignored_line options)
      (fst (split_lines (buffer ++ snd (decode decoder value)))) = true ->
    read_loop options JSON_parse (mkRead false (Chunk value) :: rest)
      decoder buffer s
    = let r := read_loop options JSON_parse rest (fst (decode decoder value))
                 (snd (split_lines (buffer ++ snd (decode decoder value)))) s in
      mkRes (ctl r) (st r) (heartbeat_log options ++ evs r).
Proof.
  intros value rest decoder buffer s Ha Hi.
  rewrite (read_loop_chunk options JSON_parse (mkRead false (Chunk value)) _
             decoder buffer s value Ha eq_refl).
  cbn [abort_in_read]. cbv zeta.
  rewrite on_read_eq. cbv zeta.
  rewrite (lines_loop_ignored _ _ s Ha Hi).
  cbn [ctl st evs fst snd app]. rewrite Ha, app_nil_r. reflexivity.
Qed.

End Lines.

Lemma X12_witness :
  lines_loop [opt_feed continuous] sample_parse false
    ([seq_line 1] ++ text_of_string "MALFORMED" :: [seq_line 2]) []
    (mkState false None [])
  = mkRes
      (inr (Throw (ParseError
                     (payload [opt_feed continuous] (text_of_string "MALFORMED")))))
      (st (lines_loop [opt_feed continuous] sample_parse false [seq_line 1] []
             (mkState false None [])))
      (evs (lines_loop [opt_feed continuous] sample_parse false [seq_line 1] []
              (mkState false None []))).
Proof.
  exact (X12_parse_error_is_never_held_back [opt_feed continuous] sample_parse
           false [seq_line 1] (text_of_string "MALFORMED") [seq_line 2] []
           (mkState false None []) [] eq_refl eq_refl eq_refl eq_refl eq_refl).
Defined.

Lemma X13_witness :
  read_loop [opt_feed continuous] sample_parse
    [mkRead false (Chunk (seq_line 1)); mkRead false Done]
    new_TextDecoder [] (mkState false None [])
  = mkRes (inr Return_) (mkState false None [])
      (heartbeat_log [opt_feed continuous] ++ heartbeat_log [opt_feed continuous]).
Proof.
  apply (X13_unterminated_last_line_is_dropped [opt_feed continuous] sample_parse
           (seq_line 1) [] new_TextDecoder [] (mkState false None [])).
  - reflexivity.
  - intros [].
  - vm_compute. intuition discriminate.
Defined.

Lemma X14_witness :
  read_loop [opt_feed continuous] sample_parse
    [mkRead false (Chunk [newline]); mkRead false Done]
    new_TextDecoder [] (mkState false None [])
  = mkRes (inr Return_) (mkState false None [])
      (heartbeat_log [opt_feed continuous] ++ heartbeat_log [opt_feed continuous]).
Proof.
  rewrite (X14_heartbeat_newlines_only_rearm [opt_feed continuous] sample_parse
             [newline] [mkRead false Done] new_TextDecoder []
             (mkState false None []) eq_refl eq_refl).
  reflexivity.
Defined.

(** ** The records of a stream *)

Section Records.

Variable options : CouchDBChangesOptions.
Variable JSON_parse : Text -> option CouchDBChange.

Lemma lines_loop_cons (done : bool) (raw : Text) (lines : list Text)
  (tail : Text) (s : State) :
  lines_loop options JSON_parse done (raw :: lines) tail s
  = if aborted s then mkRes (inr Return_) s []
    else if ignored_line options raw then
      if done && negb (is_event_line options raw)
      then mkRes (inr Return_) s []
      else lines_loop options JSON_parse done lines tail s
    else
      match JSON_parse (payload options raw) with
      | Some c =>
          (set_activeSeq (seq c) ;; yield c ;;
           lines_loop options JSON_parse done lines tail)%gen s
      | None => mkRes (inr (Throw (ParseError (payload options raw)))) s []
      end.
Proof.
  cbn [lines_loop]. cbv zeta.
  unfold ignored_line, is_event_line, payload.
  destruct (aborted s); [reflexivity|].
  destruct (isEventsource options && startsWith (trim raw) (text_of_string "event:")).
  { cbn [orb negb andb]. rewrite andb_false_r. reflexivity. }
  cbn [orb negb]. rewrite andb_true_r.
  destruct (isEventsource options && startsWith (trim raw) (text_of_string "data:"))
    eqn:Ed; cbv beta iota.
  - destruct (is_empty (trim (skipn 5 (trim raw)))) eqn:Ee.
    + destruct done; reflexivity.
    + destruct (JSON_parse (skipn 5 (trim raw))); [reflexivity|].
      rewrite indexOf_truthy; [reflexivity|].
      apply (raw_line_nonempty true raw). exact Ee.
  - destruct (is_empty (trim (trim raw))) eqn:Ee.
    + destruct done; reflexivity.
    + destruct (JSON_parse (trim raw)); [reflexivity|].
      rewrite indexOf_truthy; [reflexivity|].
      apply (raw_line_nonempty false raw). exact Ee.
Qed.

Lemma lines_loop_records (done : bool) (lines : list Text) (tail : Text) :
  forall s : State,
    let r := lines_loop options JSON_parse done lines tail s in
    (exists n : nat,
        yields (evs r) = flat_map (line_record options JSON_parse) (firstn n lines))
    /\ (forall b, ctl r = inl b ->
        yields (evs r) = flat_map (line_record options JSON_parse) lines)
    /\ (done = false -> ctl r = inr Return_ -> aborted (st r) = true).
Proof.
  induction lines as [|raw lines IH]; intros s; cbv zeta.
  - cbn. split; [exists 0%nat; reflexivity|]. split; [reflexivity | discriminate].
  - rewrite lines_loop_cons.
    assert (Stop : forall (b : Abrupt) (s' : State),
               (b = Return_ -> done = false -> aborted s' = true) ->
               let r := @mkRes Text (inr b) s' [] in
               (exists n : nat,
                   yields (evs r)
                   = flat_map (line_record options JSON_parse) (firstn n (raw :: lines)))
               /\ (forall b0, ctl r = inl b0 ->
                   yields (evs r)
                   = flat_map (line_record options JSON_parse) (raw :: lines))
               /\ (done = false -> ctl r = inr Return_ -> aborted (st r) = true)).
    { intros b s' Hb. cbv zeta. cbn [ctl st evs].
      split; [exists 0%nat; reflexivity|]. split; [discriminate|].
      intros Hd E. apply Hb; [congruence | exact Hd]. }
    destruct (aborted s) eqn:Ha; [apply Stop; intros _ _; exact Ha|].
    destruct (ignored_line options raw) eqn:Ei.
    + destruct (done && negb (is_event_line options raw)) eqn:Ed.
      * apply Stop. intros _ Hd. rewrite Hd in Ed. discriminate.
      * destruct (IH s) as ((n & I1) & I2 & I3).
        split; [|split; [|exact I3]].
        -- exists (S n). cbn [firstn flat_map]. unfold line_record at 1.
           rewrite Ei. exact I1.
        -- intros b Hb. cbn [flat_map]. unfold line_record at 1.
           rewrite Ei. apply (I2 b Hb).
    + destruct (JSON_parse (payload options raw)) as [c|] eqn:Ep.
      * assert (Hrec : line_record options JSON_parse raw = [c]).
        { unfold line_record. rewrite Ei, Ep. reflexivity. }
        rewrite cursor_yield_then.
        destruct (consumer s) as [|[] k]; cbv zeta; cbn [ctl st evs].
        -- destruct (IH (mkState (aborted s) (seq c) [])) as ((n & I1) & I2 & I3).
           split; [|split; [|exact I3]].
           ++ exists (S n). cbn [firstn flat_map]. rewrite Hrec.
              cbn [yields flat_map app]. fold (yields (evs (lines_loop options JSON_parse done lines tail (mkState (aborted s) (seq c) [])))).
              rewrite I1. reflexivity.
           ++ intros b Hb. cbn [flat_map]. rewrite Hrec.
              cbn [yields flat_map app]. fold (yields (evs (lines_loop options JSON_parse done lines tail (mkState (aborted s) (seq c) [])))).
              rewrite (I2 b Hb). reflexivity.
        -- destruct (IH (mkState (aborted s) (seq c) k)) as ((n & I1) & I2 & I3).
           split; [|split; [|exact I3]].
           ++ exists (S n). cbn [firstn flat_map]. rewrite Hrec.
              cbn [yields flat_map app]. fold (yields (evs (lines_loop options JSON_parse done lines tail (mkState (aborted s) (seq c) k)))).
              rewrite I1. reflexivity.
           ++ intros b Hb. cbn [flat_map]. rewrite Hrec.
              cbn [yields flat_map app]. fold (yields (evs (lines_loop options JSON_parse done lines tail (mkState (aborted s) (seq c) k)))).
              rewrite (I2 b Hb). reflexivity.
        -- destruct (IH (mkState true (seq c) k)) as ((n & I1) & I2 & I3).
           split; [|split; [|exact I3]].
           ++ exists (S n). cbn [firstn flat_map]. rewrite Hrec.
              cbn [yields flat_map app]. fold (yields (evs (lines_loop options JSON_parse done lines tail (mkState true (seq c) k)))).
              rewrite I1. reflexivity.
           ++ intros b Hb. cbn [flat_map]. rewrite Hrec.
              cbn [yields flat_map app]. fold (yields (evs (lines_loop options JSON_parse done lines tail (mkState true (seq c) k)))).
              rewrite (I2 b Hb). reflexivity.
        -- split; [|split; discriminate].
           exists 1%nat. cbn [firstn flat_map]. rewrite Hrec. reflexivity.
      * apply Stop. discriminate.
Qed.

Lemma yields_heartbeat_log : yields (heartbeat_log options) = [].
Proof. unfold heartbeat_log. destruct (usesHeartbeat options); reflexivity. Qed.

Lemma read_loop_end_of_stream (rest : list Read) (decoder : TextDecoder)
  (buffer : Text) (s : State) :
  aborted s = false ->
  ~ In newline buffer ->
  read_loop options JSON_parse (mkRead false Done :: rest) decoder buffer s
  = mkRes (inr Return_) s (heartbeat_log options).
Proof.
  intros Ha Hb.
  rewrite (read_loop_done options JSON_parse (mkRead false Done) rest _ _ s Ha eq_refl).
  cbn [abort_in_read]. cbv zeta.
  rewrite on_read_eq. cbv zeta. cbn [decode fst snd]. rewrite app_nil_r.
  rewrite (split_lines_no_newline _ Hb). cbn [fst snd lines_loop ret ctl st evs app].
  rewrite !app_nil_r. reflexivity.
Qed.

Lemma read_loop_records :
  forall (chunks : list Bytes) (s : State),
    aborted s = false ->
    let lines :=
      fst (split_lines (snd (decode new_TextDecoder (List.concat chunks)))) in
    let r := read_loop options JSON_parse
               (chunk_reads chunks ++ [mkRead false Done]) new_TextDecoder [] s in
    (exists n : nat,
        yields (evs r)
        = flat_map (line_record options JSON_parse) (firstn n lines))
    /\ (ctl r = inr Return_ -> aborted (st r) = false ->
        yields (evs r) = flat_map (line_record options JSON_parse) lines).
Proof.
  intros chunks s Ha lines r.
  destruct (read_loop_chunks options JSON_parse chunks [mkRead false Done]
              new_TextDecoder [] s (fun H => H)) as (Hc & Hs & He).
  fold r in Hc, Hs, He.
  assert (Hy : yields (evs r)
               = yields (evs (read_loop options JSON_parse
                                (mkRead false (Chunk (List.concat chunks))
                                 :: [mkRead false Done]) new_TextDecoder [] s))).
  { rewrite <- (yields_without_heartbeat (evs r)), He.
    apply yields_without_heartbeat. }
  rewrite Hy, Hc, Hs. clear Hy Hc Hs He r.
  rewrite (read_loop_chunk options JSON_parse
             (mkRead false (Chunk (List.concat chunks))) [mkRead false Done]
             new_TextDecoder [] s (List.concat chunks) Ha eq_refl).
  cbn [abort_in_read]. cbv zeta. rewrite on_read_eq. cbv zeta. cbn [app].
  fold lines.
  destruct (lines_loop_records false lines
              (snd (split_lines (snd (decode new_TextDecoder (List.concat chunks))))) s)
    as ((n & I1) & I2 & I3).
  pose proof (lines_loop_buffer options JSON_parse false lines
                (snd (split_lines (snd (decode new_TextDecoder (List.concat chunks))))) s)
    as Hbuf.
  destruct (ctl (lines_loop options JSON_parse false lines
                   (snd (split_lines (snd (decode new_TextDecoder (List.concat chunks))))) s))
    as [b|ab] eqn:Ec; cbn [ctl st evs fst snd].
  - specialize (I2 b eq_refl). specialize (Hbuf b eq_refl).
    destruct (aborted (st (lines_loop options JSON_parse false lines
                             (snd (split_lines (snd (decode new_TextDecoder (List.concat chunks))))) s)))
      eqn:Hab; cbn [ctl st evs].
    + rewrite yields_app, yields_heartbeat_log. cbn [app].
      split; [exists n; exact I1 | intros _ _; exact I2].
    + rewrite read_loop_end_of_stream;
        [|exact Hab | rewrite Hbuf; apply split_lines_tail].
      cbn [ctl st evs].
      rewrite !yields_app, !yields_heartbeat_log, app_nil_r. cbn [app].
      split; [exists n; exact I1 | intros _ _; exact I2].
  - rewrite yields_app, yields_heartbeat_log. cbn [app].
    split; [exists n; exact I1|].
    intros E Hab. exfalso.
    assert (ab = Return_) by congruence. subst ab.
    rewrite (I3 eq_refl eq_refl) in Hab. discriminate.
Qed.

(** X15: the records a stream body yields are the parses of its complete
    lines, in their order: however the bytes are cut into chunks, what is
    yielded is what the lines of the decoded body stand for, up to some
    line; and when the pass returns with the signal not aborted it is all
    of them.  No record is invented, repeated or moved. *)
Theorem X15_records_are_the_parsed_lines :
  forall (chunks : list Bytes) (s : State),
    aborted s = false ->
    let lines :=
      fst (split_lines (snd (decode new_TextDecoder (List.concat chunks)))) in
    let r := read_loop options JSON_parse
               (chunk_reads chunks ++ [mkRead false Done]) new_TextDecoder [] s in
    (exists n : nat,
        yields (evs r)
        = flat_map (line_record options JSON_parse) (firstn n lines))
    /\ (ctl r = inr Return_ -> aborted (st r) = false ->
        yields (evs r) = flat_map (line_record options JSON_parse) lines).
Proof. exact read_loop_records. Qed.

Variable dbUrl : string.

Lemma batch_pass_yields (a : Attempt) (s : State) (response : Response)
  (data : ChangesData) :
  isNormal options || isLongpoll options = true ->
  ~ In Break (consumer s) ->
  fetch_result a = Resolve response ->
  ok response = true ->
  json response = Some data ->
  yields (evs (try_block dbUrl options JSON_parse a s)) = results data.
Proof.
  intros Hb Hk Hf Hok Hj.
  rewrite (try_block_resolved options JSON_parse dbUrl a response s Hf).
  rewrite Hok, Hb. cbn [negb]. cbv zeta. cbn [evs].
  set (s0 := if abort_in_fetch a then stop s else s).
  assert (Hk0 : ~ In Break (consumer s0))
    by (subst s0; destruct (abort_in_fetch a); exact Hk).
  destruct (batch_log options response data s0 Hj) as (tail & E & Ht).
  destruct (yield_results_all (results data) s0 Hk0) as (_ & Y & _).
  rewrite E.
  change (heartbeat_log options
          ++ EvRequest (buildRequest dbUrl options (activeSeq s))
          :: (if abort_in_fetch a then [EvStop] else [])
             ++ evs (yield_results (results data) s0) ++ tail)
    with (heartbeat_log options
          ++ [EvRequest (buildRequest dbUrl options (activeSeq s))]
          ++ (if abort_in_fetch a then [EvStop] else [])
          ++ evs (yield_results (results data) s0) ++ tail).
  rewrite !yields_app, Y, yields_heartbeat_log.
  assert (Htl : yields tail = []).
  { destruct Ht as [Ht | (v & Ht & _)]; rewrite Ht; reflexivity. }
  rewrite Htl, app_nil_r.
  destruct (abort_in_fetch a); reflexivity.
Qed.

Lemma stream_pass_records (a : Attempt) (s : State) (response : Response)
  (chunks : list Bytes) :
  streaming options = true ->
  aborted s = false ->
  abort_in_fetch a = false ->
  fetch_result a = Resolve response ->
  ok response = true ->
  body response = Some (chunk_reads chunks ++ [mkRead false Done]) ->
  let r := try_block dbUrl options JSON_parse a s in
  ctl r = inr Return_ ->
  aborted (st r) = false ->
  yields (evs r)
  = flat_map (line_record options JSON_parse)
      (fst (split_lines (snd (decode new_TextDecoder (List.concat chunks))))).
Proof.
  intros Hs Ha Hab Hf Hok Hbody. cbv zeta.
  rewrite (try_block_resolved options JSON_parse dbUrl a response s Hf).
  unfold streaming in Hs. apply negb_true_iff in Hs.
  rewrite Hok, Hs, Hbody, Hab. cbn [negb]. cbv zeta. cbn [ctl st evs app].
  intros Hc Hst.
  change (heartbeat_log options
          ++ EvRequest (buildRequest dbUrl options (activeSeq s))
          :: evs (read_loop options JSON_parse
                    (chunk_reads chunks ++ [mkRead false Done]) new_TextDecoder [] s))
    with (heartbeat_log options
          ++ [EvRequest (buildRequest dbUrl options (activeSeq s))]
          ++ evs (read_loop options JSON_parse
                    (chunk_reads chunks ++ [mkRead false Done]) new_TextDecoder [] s)).
  rewrite !yields_app, yields_heartbeat_log. cbn [yields flat_map app].
  apply (proj2 (read_loop_records chunks s Ha)); assumption.
Qed.

End Records.

Lemma X15_witness :
  yields
    (evs (read_loop [opt_feed continuous] sample_parse
            (chunk_reads sample_chunks ++ [mkRead false Done])
            new_TextDecoder [] (mkState false None [])))
  = flat_map (line_record [opt_feed continuous] sample_parse)
      (fst (split_lines (snd (decode new_TextDecoder (List.concat sample_chunks))))).
Proof.
  exact (proj2 (X15_records_are_the_parsed_lines [opt_feed continuous]
                  sample_parse sample_chunks (mkState false None []) eq_refl)
           eq_refl eq_refl).
Defined.

(** ** The limit *)

(** C8, as the specification states it, fails: with [limit: 1] and a
    response that holds two records, both are yielded. *)
Lemma C8_more_than_limit_yielded :
  exists s' tr,
    asyncIterator "http://db" [opt_limit 1] sample_parse
      [quiet_attempt
         (Resolve (batch_response
                     (mkData [change_of_seq 1; change_of_seq 2] (Some (SeqNum 2)))))
         0]
      (mkState false None [])
    = (Completed, s', tr)
    /\ get_limit [opt_limit 1] = Some 1
    /\ ~ (Z.of_nat (List.length (yields tr)) <= 1).
Proof. do 2 eexists. split; [reflexivity|]. split; [reflexivity|]. cbn. lia. Qed.

(** C8 (amended): with [limit] set to [k], every request carries the query
    parameter [limit=k], and that is all the client does with it; it
    counts no records.  On a normal or longpoll feed a pass over a
    successful response yields every record of [results], however many
    there are, as long as the consumer does not leave the loop, and a
    normal feed then completes.  On a continuous or eventsource feed a
    pass that reads the body to its end and returns with the signal not
    aborted yields the record of every complete line of the body that is
    not passed over. *)
Theorem C8_limit_is_passed_through :
  forall (dbUrl : string) (o : CouchDBChangesOptions)
         (JSON_parse : Text -> option CouchDBChange) (k : Z),
    get_limit o = Some k ->
    (forall cursor : option Seq,
        params_get (searchParams (req_url (buildRequest dbUrl o cursor))) "limit"
        = Some (string_of_Z k))
    /\ (forall (a : Attempt) (world : list Attempt) (s : State)
               (response : Response) (data : ChangesData),
           isNormal o = true ->
           aborted s = false ->
           ~ In Break (consumer s) ->
           fetch_result a = Resolve response ->
           ok response = true ->
           json response = Some data ->
           exists s' tr,
             asyncIterator dbUrl o JSON_parse (a :: world) s = (Completed, s', tr)
             /\ yields tr = results data)
    /\ (forall (a : Attempt) (s : State)
               (response : Response) (data : ChangesData),
           isNormal o || isLongpoll o = true ->
           ~ In Break (consumer s) ->
           fetch_result a = Resolve response ->
           ok response = true ->
           json response = Some data ->
           yields (evs (try_block dbUrl o JSON_parse a s)) = results data)
    /\ (forall (a : Attempt) (s : State)
               (response : Response) (chunks : list Bytes),
           isNormal o || isLongpoll o = false ->
           aborted s = false ->
           abort_in_fetch a = false ->
           fetch_result a = Resolve response ->
           ok response = true ->
           body response = Some (chunk_reads chunks ++ [mkRead false Done]) ->
           ctl (try_block dbUrl o JSON_parse a s) = inr Return_ ->
           aborted (st (try_block dbUrl o JSON_parse a s)) = false ->
           yields (evs (try_block dbUrl o JSON_parse a s))
           = flat_map (line_record o JSON_parse)
               (fst (split_lines
                       (snd (decode new_TextDecoder (List.concat chunks)))))).
Proof.
  intros dbUrl o JSON_parse k Hl. split; [|split; [|split]].
  - intros cursor. unfold buildRequest, buildUrl. cbn [req_url].
    destruct cursor as [c|]; cbn [searchParams].
    + rewrite params_get_set_other by reflexivity.
      rewrite entries_params_limit, Hl. reflexivity.
    + rewrite entries_params_limit, Hl. reflexivity.
  - intros a world s response data Hn Ha Hk Hf Hok Hj.
    destruct (normal_feed_run dbUrl o JSON_parse a world s response data
                Hn Ha Hk Hf Hok Hj) as (s' & tr & E & Hy & _).
    exists s', tr. auto.
  - intros a s response data Hb Hk Hf Hok Hj.
    apply (batch_pass_yields o JSON_parse dbUrl a s response data);
      assumption.
  - intros a s response chunks Hb Ha Hab Hf Hok Hbody Hc Hst.
    apply (stream_pass_records o JSON_parse dbUrl a s response chunks);
      try assumption.
    unfold streaming. rewrite Hb. reflexivity.
Qed.

Lemma C8_limit_witness :
  params_get
    (searchParams (req_url (buildRequest "http://db" [opt_limit 5] (Some (SeqNum 7)))))
    "limit"
  = Some "5"%string.
Proof.
  exact (proj1 (C8_limit_is_passed_through "http://db" [opt_limit 5] sample_parse 5
                  eq_refl) (Some (SeqNum 7))).
Defined.
